(** * Archive extractor: a shallow embedding of the extraction engine

    The development follows [archive_extractor.py] (class [ArchiveExtractor];
    [extrair_arquivos.py] is the same code with Portuguese messages) and the
    older script [unzipfull.py].  Python strings are modelled as [string]
    (a sequence of 8-bit characters), the file system as a finite map from
    paths to nodes, exceptions as values of an error monad, and the calls of
    the progress callback as events appended to a trace. *)

From Stdlib Require Import ZArith Ascii String DecimalString DecimalNat.
From Stdlib Require QArith.
From stdpp Require Import base option list gmap strings.

(** ** Python string primitives *)

Module Str.

(** [c.lower()] for one character: only [A]..[Z] change.  Bytes outside
    ASCII are left alone; Python maps no such character to text that could
    complete one of the patterns [.zip], [.rar], [.7z] or [.zip.] *)
Definition lower_char (c : ascii) : ascii :=
  let n := nat_of_ascii c in
  if (65 <=? n)%nat && (n <=? 90)%nat then ascii_of_nat (n + 32) else c.

(** [s.lower()] *)
Fixpoint lower (s : string) : string :=
  match s with
  | EmptyString => EmptyString
  | String c s' => String (lower_char c) (lower s')
  end.

(** [s.startswith(pre)] *)
Definition startswith (s pre : string) : bool := String.prefix pre s.

(** [s.endswith(suf)]: some tail of [s] is [suf]. *)
Fixpoint endswith (s suf : string) : bool :=
  String.eqb s suf ||
  match s with
  | EmptyString => false
  | String _ s' => endswith s' suf
  end.

(** [sub in s]: [sub] is a prefix of some tail of [s]. *)
Fixpoint contains (sub s : string) : bool :=
  String.prefix sub s ||
  match s with
  | EmptyString => false
  | String _ s' => contains sub s'
  end.

(** [s.split(sep)[0]] for a non-empty [sep]: everything before the first
    occurrence of [sep], the whole of [s] when [sep] does not occur. *)
Fixpoint split_head (sep s : string) : string :=
  if String.prefix sep s then EmptyString
  else match s with
       | EmptyString => EmptyString
       | String c s' => String c (split_head sep s')
       end.

(** [str(n)] for a natural number. *)
Definition of_nat (n : nat) : string :=
  NilEmpty.string_of_uint (Nat.to_uint n).

Fixpoint zeros (n : nat) : string :=
  match n with
  | O => EmptyString
  | S n' => String "0" (zeros n')
  end.

(** [f"{i:03d}"]: decimal, zero-padded on the left to width 3 (wider
    numbers are printed in full). *)
Definition fmt_03d (i : nat) : string :=
  let d := of_nat i in zeros (3 - String.length d) +:+ d.

(** Reading a decimal numeral back (used only to state that [fmt_03d] loses
    nothing). *)
Definition parse_nat (s : string) : option nat :=
  Nat.of_uint <$> NilEmpty.uint_of_string s.

End Str.

(** ** [os.path] (POSIX flavour) *)

Module Path.

Definition is_sep (c : ascii) : bool := Ascii.eqb c "/".

(** [p.rfind("/") + 1]: the index just after the last separator, [0] when
    there is none. *)
Fixpoint sep_end (p : string) : nat :=
  match p with
  | EmptyString => 0
  | String c p' =>
      match sep_end p' with
      | O => if is_sep c then 1 else 0
      | S k => S (S k)
      end
  end.

Definition drop (n : nat) (s : string) : string :=
  String.substring n (String.length s - n) s.

Definition take (n : nat) (s : string) : string := String.substring 0 n s.

(** [os.path.basename(p)] *)
Definition basename (p : string) : string := drop (sep_end p) p.

Fixpoint all_sep (s : string) : bool :=
  match s with
  | EmptyString => true
  | String c s' => is_sep c && all_sep s'
  end.

(** [s.rstrip("/")] *)
Fixpoint rstrip_sep (s : string) : string :=
  match s with
  | EmptyString => EmptyString
  | String c s' => if all_sep s then EmptyString else String c (rstrip_sep s')
  end.

(** [os.path.dirname(p)] *)
Definition dirname (p : string) : string :=
  let head := take (sep_end p) p in
  if negb (String.eqb head "") && negb (all_sep head)
  then rstrip_sep head else head.

(** [os.path.join(a, b)] *)
Definition join (a b : string) : string :=
  if Str.startswith b "/" then b
  else if String.eqb a "" || Str.endswith a "/" then a +:+ b
  else a +:+ "/" +:+ b.

End Path.

(** ** Exceptions, the file system and the monad of the engine *)

(** The exception classes that the handlers of the source tell apart.
    [IOError] is an alias of [OSError] in Python 3, and [FileNotFoundError],
    [IsADirectoryError] and [PermissionError] are subclasses of it.
    [OtherError] stands for every class outside the four named ones
    ([RuntimeError], [NotImplementedError], [zlib.error],
    [py7zr.exceptions.CrcError], ...). *)
Inductive exn_class := BadZipFile | RarError | Bad7zFile | OSError | OtherError.

Record exn := Exn { exn_cls : exn_class; exn_msg : string }.

Global Instance exn_class_eq_dec : EqDecision exn_class.
Proof. solve_decision. Defined.

(** A path names a regular file with its bytes, or a directory (with the
    size [os.path.getsize] reports for it). *)
Inductive node := File (data : list Byte.byte) | Dir (st_size : nat).

(** Observable events, in the order in which they happen. *)
Inductive event :=
| EvExtracted (target : string)                       (* an entry was extracted *)
| EvProgress (i total : nat) (gb : QArith_base.Q)     (* the callback was called *)
| EvPrint (text : string).                            (* [print(...)] *)

Record world := World { fs : gmap string node; trace : list event }.

Inductive result (A : Type) := Return (a : A) | Raise (e : exn).
Arguments Return {A} a.
Arguments Raise {A} e.

(** State and exception monad. *)
Definition M (A : Type) : Type := world -> world * result A.

Definition ret {A} (a : A) : M A := fun w => (w, Return a).

Definition raise {A} (e : exn) : M A := fun w => (w, Raise e).

Definition bind {A B} (m : M A) (k : A -> M B) : M B :=
  fun w => match m w with
           | (w', Return a) => k a w'
           | (w', Raise e) => (w', Raise e)
           end.

Declare Scope engine_scope.
Delimit Scope engine_scope with engine.
Notation "x <- m ;; k" := (bind m (fun x => k))
  (at level 100, m at next level, right associativity) : engine_scope.
Notation "m ;; k" := (bind m (fun _ => k))
  (at level 100, right associativity) : engine_scope.
Local Open Scope engine_scope.

(** [try: m  except classes as e: handler e] *)
Definition try_except {A} (m : M A) (classes : list exn_class)
    (handler : exn -> M A) : M A :=
  fun w => match m w with
           | (w', Return a) => (w', Return a)
           | (w', Raise e) =>
               if bool_decide (exn_cls e ∈ classes) then handler e w'
               else (w', Raise e)
           end.

Definition emit (ev : event) : M unit :=
  fun w => (World (fs w) (trace w ++ [ev]), Return tt).

Definition get_fs : M (gmap string node) := fun w => (w, Return (fs w)).

Definition set_fs (f : gmap string node) : M unit :=
  fun w => (World f (trace w), Return tt).

Module Os.

(** [os.path.exists(p)] *)
Definition path_exists (p : string) : M bool :=
  f <- get_fs ;; ret (bool_decide (is_Some (f !! p))).

(** [os.path.getsize(p)] *)
Definition getsize (p : string) : M nat :=
  f <- get_fs ;;
  match f !! p with
  | Some (File data) => ret (length data)
  | Some (Dir n) => ret n
  | None => raise (Exn OSError "No such file or directory")
  end.

(** [open(p, "wb")]: creates the file or truncates it. *)
Definition open_wb (p : string) : M unit :=
  f <- get_fs ;;
  match f !! p with
  | Some (Dir _) => raise (Exn OSError "Is a directory")
  | _ => set_fs (<[p := File []]> f)
  end.

(** [out.write(data)] on the file opened at [p]. *)
Definition write (p : string) (data : list Byte.byte) : M unit :=
  f <- get_fs ;;
  match f !! p with
  | Some (File old) => set_fs (<[p := File (old ++ data)]> f)
  | _ => raise (Exn OSError "Bad file descriptor")
  end.

(** [open(p, "rb").read()] *)
Definition read (p : string) : M (list Byte.byte) :=
  f <- get_fs ;;
  match f !! p with
  | Some (File data) => ret data
  | Some (Dir _) => raise (Exn OSError "Is a directory")
  | None => raise (Exn OSError "No such file or directory")
  end.

(** [os.path.isdir(p)] *)
Definition path_isdir (p : string) : M bool :=
  f <- get_fs ;;
  ret (match f !! p with Some (Dir _) => true | _ => false end).

(** [os.mkdir(p)].  The size that [os.path.getsize] reports for a new
    directory depends on the file system; 4096 is what ext4 gives. *)
Definition mkdir (p : string) : M unit :=
  f <- get_fs ;;
  match f !! p with
  | Some _ => raise (Exn OSError "File exists")
  | None => set_fs (<[p := Dir 4096]> f)
  end.

(** [os.remove(p)] *)
Definition remove (p : string) : M unit :=
  f <- get_fs ;;
  match f !! p with
  | Some (File _) => set_fs (delete p f)
  | Some (Dir _) => raise (Exn OSError "Is a directory")
  | None => raise (Exn OSError "No such file or directory")
  end.

End Os.

(** ** The archive libraries ([zipfile], [rarfile], [py7zr])

    The engine does no decoding of its own.  What a library does with the
    bytes of an archive is a parameter of the development: opening either
    raises or lists the entries, and extracting one entry puts a file or a
    directory somewhere below the destination folder, or raises, or does
    both. *)

Inductive container := ZipFile | RarFile | SevenZipFile.

(** What extracting a member puts on disk. *)
Inductive member :=
| RegularFile (data : list Byte.byte)
| Directory.

(** What [extract] does with a member: it puts the member at its target and
    returns, or it raises, having left something at the target or not
    (nothing is written for a member that needs a password, while the file is
    already there when its checksum turns out wrong). *)
Inductive extraction :=
| Puts (m : member)
| Raises (residue : option member) (err : exn).

(** An entry, as the library treats it: the name that the listing gives for
    it; the path at which [extract] puts it for a given destination folder
    (the name below the folder once the library has cleaned it: [zipfile]
    drops a leading [/] and the components [.] and [..]); and what [extract]
    does with it. *)
Record entry := Entry {
  entry_name : string;
  entry_target : string -> string;
  entry_extract : extraction }.

Definition codec := container -> list Byte.byte -> exn + list entry.

(** The progress callback: called with (index, total, size in GB); it returns
    normally ([None]) or raises. *)
Definition callback := nat -> nat -> QArith_base.Q -> option exn.

(** The text returned by [extract_archive], one constructor per message. *)
Inductive outcome :=
| FileNotFound (archive_path : string)
    (* "File not found: {archive_path}" *)
| SuccessfullyExtracted (name : string) (gb : QArith_base.Q)
    (* "Successfully extracted: {name} ({gb:.2f} GB)" *)
| FormatNotSupported (name : string) (gb : QArith_base.Q)
    (* "Format not supported: {name} ({gb:.2f} GB)" *)
| PartsNotFound (name : string) (gb : QArith_base.Q)
    (* "Parts not found: {name} ({gb:.2f} GB)" *)
| ErrorExtracting (name : string) (gb : QArith_base.Q) (err : string)
    (* "Error extracting {name} ({gb:.2f} GB): {err}" *)
| ErrorExtractingParts (err : string).
    (* "Error extracting parts: {err}" *)

(** The result taxonomy of the specification. *)
Inductive failure_kind := NotFound | UnsupportedFormat | SegmentsMissing | ExtractionFailed.

Inductive outcome_kind := Succeeded | Failed (k : failure_kind).

Definition kind_of (o : outcome) : outcome_kind :=
  match o with
  | FileNotFound _ => Failed NotFound
  | SuccessfullyExtracted _ _ => Succeeded
  | FormatNotSupported _ _ => Failed UnsupportedFormat
  | PartsNotFound _ _ => Failed SegmentsMissing
  | ErrorExtracting _ _ _ => Failed ExtractionFailed
  | ErrorExtractingParts _ => Failed ExtractionFailed
  end.

(** The error description a failure outcome carries, if any. *)
Definition description (o : outcome) : option string :=
  match o with
  | ErrorExtracting _ _ err => Some err
  | ErrorExtractingParts err => Some err
  | _ => None
  end.

Inductive ArchiveFormat := Zip | Rar | SevenZip | SplitZip | Unsupported.

(** [bytes / (1024 ** 3)], as an exact rational. *)
Definition size_gb (file_size_bytes : nat) : QArith_base.Q :=
  QArith_base.Qmake (Z.of_nat file_size_bytes) (2 ^ 30).

(** ** [archive_extractor.py]: class [ArchiveExtractor] *)

Module ArchiveExtractor.
Section Engine.

Variable lib : codec.

(** The path of segment [i]:
    [os.path.join(folder, f"{base_name}.zip.{i:03d}")]. *)
Definition part_path (folder base_name : string) (i : nat) : string :=
  Path.join folder (base_name +:+ ".zip." +:+ Str.fmt_03d i).

(** The [while True] loop of [join_zip_parts], from index [i] on.  [None]
    means that the fuel ran out before a missing index was met. *)
Fixpoint scan_parts (fuel : nat) (f : gmap string node)
    (folder base_name : string) (i : nat) : option (list string) :=
  match fuel with
  | O => None
  | S fuel' =>
      let part := part_path folder base_name i in
      if negb (bool_decide (is_Some (f !! part))) then Some []
      else cons part <$> scan_parts fuel' f folder base_name (S i)
  end.

(** The loop run on the current file system.  One more iteration than there
    are paths in the file system always reaches a missing index
    ([scan_parts_total] below), so the default is never used. *)
Definition find_parts (folder base_name : string) : M (list string) :=
  f <- get_fs ;;
  ret (default [] (scan_parts (S (size f)) f folder base_name 1)).

(** [for part in parts: output_file.write(open(part, "rb").read())] *)
Fixpoint copy_parts (merged_path : string) (parts : list string) : M unit :=
  match parts with
  | [] => ret tt
  | part :: rest =>
      data <- Os.read part ;;
      Os.write merged_path data ;;
      copy_parts merged_path rest
  end.

Definition merged_path_of (folder base_name : string) : string :=
  Path.join folder (base_name +:+ "_merged.zip").

(** The body of the [try] of [join_zip_parts]. *)
Definition write_merged (merged_path : string) (parts : list string)
    : M (option string) :=
  Os.open_wb merged_path ;;
  copy_parts merged_path parts ;;
  ret (Some merged_path).

Definition join_zip_parts (folder base_name : string) : M (option string) :=
  parts <- find_parts folder base_name ;;
  match parts with
  | [] => ret None
  | _ =>
      let merged_path := merged_path_of folder base_name in
      try_except (write_merged merged_path parts) [OSError]
        (fun e => emit (EvPrint ("Error joining parts: " +:+ exn_msg e)) ;;
                  ret None)
  end.

(** [ZipFile(archive_path, "r")] and [namelist()] (and the same for the two
    other libraries): the file is read and handed to the library. *)
Definition open_archive (c : container) (archive_path : string)
    : M (list entry) :=
  data <- Os.read archive_path ;;
  match lib c data with
  | inl e => raise e
  | inr file_list => ret file_list
  end.

(** What the library does at the target: a regular member is written with
    [open(target, "wb")], a directory member is made with [os.mkdir] unless
    the directory is there already.  The directories above the target are not
    tracked. *)
Definition put_member (target : string) (m : member) : M unit :=
  match m with
  | RegularFile data =>
      Os.open_wb target ;;
      Os.write target data
  | Directory =>
      there <- Os.path_isdir target ;;
      if there then ret tt else Os.mkdir target
  end.

(** [ref.extract(file_name, destination_folder)] *)
Definition extract_entry (destination_folder : string) (e : entry) : M unit :=
  let target := entry_target e destination_folder in
  match entry_extract e with
  | Puts m =>
      put_member target m ;;
      emit (EvExtracted target)
  | Raises residue err =>
      match residue with
      | Some m => put_member target m
      | None => ret tt
      end ;;
      raise err
  end.

(** [if progress_callback: progress_callback(i, total_files, file_size_gb)] *)
Definition notify (progress_callback : option callback)
    (i total_files : nat) (file_size_gb : QArith_base.Q) : M unit :=
  match progress_callback with
  | None => ret tt
  | Some cb =>
      emit (EvProgress i total_files file_size_gb) ;;
      match cb i total_files file_size_gb with
      | Some err => raise err
      | None => ret tt
      end
  end.

(** [for i, file_name in enumerate(file_list, 1): ...], from index [i]. *)
Fixpoint extract_entries (destination_folder : string)
    (file_size_gb : QArith_base.Q) (progress_callback : option callback)
    (total_files i : nat) (file_list : list entry) : M unit :=
  match file_list with
  | [] => ret tt
  | e :: rest =>
      extract_entry destination_folder e ;;
      notify progress_callback i total_files file_size_gb ;;
      extract_entries destination_folder file_size_gb progress_callback
        total_files (S i) rest
  end.

(** The common body of [_extract_zip], [_extract_rar] and [_extract_7z]. *)
Definition extract_with (c : container) (archive_path destination_folder : string)
    (file_size_gb : QArith_base.Q) (progress_callback : option callback)
    : M outcome :=
  file_list <- open_archive c archive_path ;;
  let total_files := length file_list in
  extract_entries destination_folder file_size_gb progress_callback
    total_files 1 file_list ;;
  ret (SuccessfullyExtracted (Path.basename archive_path) file_size_gb).

Definition _extract_zip := extract_with ZipFile.
Definition _extract_rar := extract_with RarFile.
Definition _extract_7z := extract_with SevenZipFile.

(** The body of the [try] of [_extract_split_zip]: extract the merged
    archive, then remove the temporary file. *)
Definition extract_and_remove (merged_path destination_folder : string)
    (file_size_gb : QArith_base.Q) (progress_callback : option callback)
    : M outcome :=
  result <- _extract_zip merged_path destination_folder
              file_size_gb progress_callback ;;
  still_there <- Os.path_exists merged_path ;;
  (if still_there then Os.remove merged_path else ret tt) ;;
  ret result.

Definition _extract_split_zip (archive_path destination_folder : string)
    (file_size_gb : QArith_base.Q) (progress_callback : option callback)
    : M outcome :=
  let folder := Path.dirname archive_path in
  let base_name := Str.split_head ".zip." (Path.basename archive_path) in
  merged <- join_zip_parts folder base_name ;;
  match merged with
  | None => ret (PartsNotFound (Path.basename archive_path) file_size_gb)
  | Some merged_path =>
      if String.eqb merged_path "" (* [not merged_path] *)
      then ret (PartsNotFound (Path.basename archive_path) file_size_gb)
      else
        try_except
          (extract_and_remove merged_path destination_folder
             file_size_gb progress_callback)
          [BadZipFile; OSError]
          (fun e => ret (ErrorExtractingParts (exn_msg e)))
  end.

(** The [if]/[elif] chain of [extract_archive] on the lower-cased path. *)
Definition classify (archive_path : string) : ArchiveFormat :=
  let archive_path_lower := Str.lower archive_path in
  if Str.endswith archive_path_lower ".zip" then Zip
  else if Str.endswith archive_path_lower ".rar" then Rar
  else if Str.endswith archive_path_lower ".7z" then SevenZip
  else if Str.contains ".zip." archive_path_lower then SplitZip
  else Unsupported.

(** The body of the [try] of [extract_archive]. *)
Definition dispatch (archive_path destination_folder : string)
    (file_size_gb : QArith_base.Q) (progress_callback : option callback)
    : M outcome :=
  match classify archive_path with
  | Zip => _extract_zip archive_path destination_folder
             file_size_gb progress_callback
  | Rar => _extract_rar archive_path destination_folder
             file_size_gb progress_callback
  | SevenZip => _extract_7z archive_path destination_folder
                  file_size_gb progress_callback
  | SplitZip => _extract_split_zip archive_path destination_folder
                  file_size_gb progress_callback
  | Unsupported =>
      ret (FormatNotSupported (Path.basename archive_path) file_size_gb)
  end.

Definition extract_archive (archive_path destination_folder : string)
    (progress_callback : option callback) : M outcome :=
  there <- Os.path_exists archive_path ;;
  if negb there then ret (FileNotFound archive_path)
  else
    file_size_bytes <- Os.getsize archive_path ;;
    let file_size_gb := size_gb file_size_bytes in
    let file_name := Path.basename archive_path in
    try_except
      (dispatch archive_path destination_folder file_size_gb progress_callback)
      [BadZipFile; RarError; Bad7zFile; OSError]
      (fun e => ret (ErrorExtracting file_name file_size_gb (exn_msg e))).

End Engine.
End ArchiveExtractor.

(** ** [unzipfull.py]: the earlier script

    The same engine written as module-level functions: no existence check
    before [os.path.getsize], no handler inside the joiner, the merged file is
    called [{base}_unido.zip], and the handler of [extract_archive] names the
    three library classes only. *)

Module UnzipFull.
Section Engine.

Variable lib : codec.

Definition unido_path_of (folder base_name : string) : string :=
  Path.join folder (base_name +:+ "_unido.zip").

Definition juntar_partes_zip (folder base_name : string) : M (option string) :=
  partes <- ArchiveExtractor.find_parts folder base_name ;;
  match partes with
  | [] => ret None
  | _ =>
      let unido_path := unido_path_of folder base_name in
      Os.open_wb unido_path ;;
      ArchiveExtractor.copy_parts unido_path partes ;;
      ret (Some unido_path)
  end.

(** Open, list, extract every entry with its progress call, close. *)
Definition extract_all (c : container) (archive_path destination_folder : string)
    (tamanho_gb : QArith_base.Q) (update_callback : option callback) : M unit :=
  namelist <- ArchiveExtractor.open_archive lib c archive_path ;;
  let total_interno := length namelist in
  ArchiveExtractor.extract_entries destination_folder tamanho_gb
    update_callback total_interno 1 namelist.

Definition extract_archive (archive_path destination_folder : string)
    (update_callback : option callback) : M outcome :=
  tamanho_bytes <- Os.getsize archive_path ;;
  let tamanho_gb := size_gb tamanho_bytes in
  let done := ret (SuccessfullyExtracted (Path.basename archive_path) tamanho_gb) in
  try_except
    (let lower := Str.lower archive_path in
     if Str.endswith lower ".zip" then
       extract_all ZipFile archive_path destination_folder
         tamanho_gb update_callback ;; done
     else if Str.endswith lower ".rar" then
       extract_all RarFile archive_path destination_folder
         tamanho_gb update_callback ;; done
     else if Str.endswith lower ".7z" then
       extract_all SevenZipFile archive_path destination_folder
         tamanho_gb update_callback ;; done
     else if Str.contains ".zip." lower then
       let folder := Path.dirname archive_path in
       let base := Str.split_head ".zip." (Path.basename archive_path) in
       unido <- juntar_partes_zip folder base ;;
       match unido with
       | Some unido_path =>
           if String.eqb unido_path "" (* [if unido:] *)
           then ret (PartsNotFound archive_path tamanho_gb)
           else
             extract_all ZipFile unido_path destination_folder
               tamanho_gb update_callback ;;
             Os.remove unido_path ;;
             done
       | None => ret (PartsNotFound archive_path tamanho_gb)
       end
     else ret (FormatNotSupported (Path.basename archive_path) tamanho_gb))
    [BadZipFile; RarError; Bad7zFile]
    (fun e => ret (ErrorExtracting (Path.basename archive_path) tamanho_gb
                     (exn_msg e))).

End Engine.
End UnzipFull.

(** ** [archive_extractor.py]: class [ExtractionGUI]

    A widget is modelled by what the code stores in it: the list box by its
    paths, the entry by its text, the progress bar by its [maximum] and
    [value], the label by its text, the results area by its lines, and the
    windows that are opened by their list.  Calls that only repaint
    ([update_idletasks], [see]) are left out, widget calls do not fail, and
    the worker thread is modelled by the call of [extract_files] that it
    makes.  The countdown thread of [show_countdown] is not modelled: the
    window it belongs to is recorded with its message and delay. *)

Module ExtractionGUI.

Record ExtractionStatus := Status {
  total_files : nat;
  total_size_gb : QArith_base.Q;
  current_file_index : nat;
  current_file_progress : nat;
  current_file_total : nat }.

(** The texts of the status label, one constructor per format string. *)
Inductive label_text :=
| WaitingForExtraction
    (* "Status: waiting for extraction…" *)
| ExtractingFile (index of_files : nat) (partial_gb total_gb : QArith_base.Q)
    (* "Extracting file {index} of {of_files} ({partial_gb:.2f} GB extracted
        from {total_gb:.2f} GB total)" *)
| ExtractionCompleted (files : nat) (total_gb : QArith_base.Q)
    (* "Extraction completed: {files} file(s) / {total_gb:.2f} GB" *)
| ErrorDuringExtraction (err : string).
    (* "Error during extraction: {err}" *)

(** A line of the results area. *)
Inductive line :=
| ResultLine (result : outcome)     (* [result + "\n"] *)
| ErrorLine (err : string).         (* [error_msg + "\n"] *)

Inductive window :=
| WarningBox (message : string)                      (* [messagebox.showwarning] *)
| CountdownWindow (message : string) (seconds : nat). (* [show_countdown] *)

Record gui := Gui {
  status : ExtractionStatus;
  file_listbox : list string;
  destination_var : string;
  progress_maximum : nat;
  progress_value : nat;
  status_label : label_text;
  results_text : list line;
  windows : list window }.

(** The state that [__init__] and [setup_gui] build ([ttk.Progressbar] starts
    with [maximum] 100 and [value] 0). *)
Definition setup_gui : gui :=
  Gui (Status 0 (QArith_base.Qmake 0 1) 0 0 0) [] "" 100 0 WaitingForExtraction [] [].

Definition set_status (st : ExtractionStatus) (g : gui) : gui :=
  Gui st (file_listbox g) (destination_var g) (progress_maximum g)
    (progress_value g) (status_label g) (results_text g) (windows g).

Definition set_file_listbox (files : list string) (g : gui) : gui :=
  Gui (status g) files (destination_var g) (progress_maximum g)
    (progress_value g) (status_label g) (results_text g) (windows g).

Definition set_destination_var (folder : string) (g : gui) : gui :=
  Gui (status g) (file_listbox g) folder (progress_maximum g)
    (progress_value g) (status_label g) (results_text g) (windows g).

Definition set_progress_maximum (n : nat) (g : gui) : gui :=
  Gui (status g) (file_listbox g) (destination_var g) n
    (progress_value g) (status_label g) (results_text g) (windows g).

Definition set_progress_value (n : nat) (g : gui) : gui :=
  Gui (status g) (file_listbox g) (destination_var g) (progress_maximum g)
    n (status_label g) (results_text g) (windows g).

Definition set_status_label (text : label_text) (g : gui) : gui :=
  Gui (status g) (file_listbox g) (destination_var g) (progress_maximum g)
    (progress_value g) text (results_text g) (windows g).

Definition set_results_text (lines : list line) (g : gui) : gui :=
  Gui (status g) (file_listbox g) (destination_var g) (progress_maximum g)
    (progress_value g) (status_label g) lines (windows g).

Definition open_window (win : window) (g : gui) : gui :=
  Gui (status g) (file_listbox g) (destination_var g) (progress_maximum g)
    (progress_value g) (status_label g) (results_text g) (windows g ++ [win]).

(** [select_files], for the paths that the file dialog returns. *)
Definition select_files (files : list string) (g : gui) : gui :=
  set_file_listbox files g.

(** [select_destination], for the folder that the dialog returns (empty when
    the dialog is cancelled). *)
Definition select_destination (folder : string) (g : gui) : gui :=
  if String.eqb folder "" then g else set_destination_var folder g.

(** [show_countdown(message, seconds)] *)
Definition show_countdown (message : string) (seconds : nat) (g : gui) : gui :=
  open_window (CountdownWindow message seconds) g.

(** [update_progress(current, total, file_size_gb)]: the new state, and the
    exception that the call raises, if any ([current / total] raises
    [ZeroDivisionError] when [total] is 0, after the bar has been set). *)
Definition update_progress (current total : nat) (file_size_gb : QArith_base.Q)
    (g : gui) : gui * option exn :=
  let g1 := set_progress_value current (set_progress_maximum total g) in
  match total with
  | O => (g1, Some (Exn OtherError "division by zero"))
  | S _ =>
      let partial_gb :=
        QArith_base.Qmult
          (QArith_base.Qmake (Z.of_nat current) (Pos.of_nat total)) file_size_gb in
      (set_status_label
         (ExtractingFile (current_file_index (status g)) (total_files (status g))
            partial_gb (total_size_gb (status g))) g1,
       None)
  end.

(** [self.update_progress] as the engine sees it: whether a call raises. *)
Definition progress_callback (g : gui) : callback :=
  fun current total file_size_gb => (update_progress current total file_size_gb g).2.

(** The events that a run from [w] to [w'] added. *)
Definition new_events (w w' : world) : list event :=
  drop (length (trace w)) (trace w').

(** The effect on the widgets of the calls of [update_progress] that the
    engine made, in order. *)
Definition replay (evs : list event) (g : gui) : gui :=
  foldl (fun g ev =>
           match ev with
           | EvProgress current total file_size_gb =>
               (update_progress current total file_size_gb g).1
           | _ => g
           end) g evs.

Definition set_current_file_index (idx : nat) (g : gui) : gui :=
  let st := status g in
  set_status (Status (total_files st) (total_size_gb st) idx
                (current_file_progress st) (current_file_total st)) g.

Definition set_total_files (n : nat) (g : gui) : gui :=
  let st := status g in
  set_status (Status n (total_size_gb st) (current_file_index st)
                (current_file_progress st) (current_file_total st)) g.

Definition set_total_size_gb (total : QArith_base.Q) (g : gui) : gui :=
  let st := status g in
  set_status (Status (total_files st) total (current_file_index st)
                (current_file_progress st) (current_file_total st)) g.

(** [results_text.insert(tk.END, ...)] *)
Definition insert_line (l : line) (g : gui) : gui :=
  set_results_text (results_text g ++ [l]) g.

(** [sum(os.path.getsize(file) / (1024 ** 3) for file in files)], from the
    running total [acc]. *)
Fixpoint sum_sizes (acc : QArith_base.Q) (files : list string)
    : M QArith_base.Q :=
  match files with
  | [] => ret acc
  | file :: rest =>
      n <- Os.getsize file ;;
      sum_sizes (QArith_base.Qplus acc (size_gb n)) rest
  end.

(** [start_extraction]: the new state, and the arguments of the worker
    thread when one is started. *)
Definition start_extraction (g : gui) (w : world)
    : gui * world * result (option (list string * string)) :=
  let destination := destination_var g in
  if String.eqb destination "" then
    (open_window (WarningBox "Please select a destination folder.") g, w,
     Return None)
  else
    let files := file_listbox g in
    match files with
    | [] =>
        (show_countdown "No files selected for extraction." 60 g, w, Return None)
    | _ :: _ =>
        let g1 := set_total_files (length files) g in
        match sum_sizes (QArith_base.Qmake 0 1) files w with
        | (w1, Raise e) => (g1, w1, Raise e)
        | (w1, Return total) =>
            let g2 := set_total_size_gb total g1 in
            let g3 := set_results_text [] g2 in
            (g3, w1, Return (Some (files, destination)))
        end
    end.

Section Worker.

Variable lib : codec.

(** The [for] loop of [extract_files], from index [idx]. *)
Fixpoint extract_each (idx : nat) (files : list string) (destination : string)
    (g : gui) (w : world) : gui * world * result unit :=
  match files with
  | [] => (g, w, Return tt)
  | file_path :: rest =>
      let g1 := set_current_file_index idx g in
      match ArchiveExtractor.extract_archive lib file_path destination
              (Some (progress_callback g1)) w with
      | (w1, Return result) =>
          let g2 := replay (new_events w w1) g1 in
          extract_each (S idx) rest destination
            (insert_line (ResultLine result) g2) w1
      | (w1, Raise e) => (replay (new_events w w1) g1, w1, Raise e)
      end
  end.

(** [extract_files]: the loop and the completion inside the [try], the
    handler, and the [finally] that resets the bar. *)
Definition extract_files (files : list string) (destination : string)
    (g : gui) (w : world) : gui * world * result unit :=
  let '(g1, w1, r) := extract_each 1 files destination g w in
  let '(g2, r2) :=
    match r with
    | Return _ =>
        let final_text :=
          ExtractionCompleted (total_files (status g1))
            (total_size_gb (status g1)) in
        (show_countdown
           "✅ Extraction completed. Window will close automatically." 60
           (set_status_label final_text g1),
         Return tt)
    | Raise e =>
        if bool_decide (exn_cls e ∈ [OSError; BadZipFile; RarError; Bad7zFile])
        then
          (set_status_label (ErrorDuringExtraction (exn_msg e))
             (insert_line (ErrorLine (exn_msg e)) g1),
           Return tt)
        else (g1, Raise e)
    end in
  (set_progress_value 0 g2, w1, r2).

End Worker.
End ExtractionGUI.

(** ** A small concrete library, for the examples

    An archive is valid when its first byte is ["P"]; every further byte is
    one entry, named by that byte and holding it.  The byte ["?"] is an entry
    that cannot be decoded ([RuntimeError], as for an encrypted member),
    ["#"] one whose checksum is wrong (the file is created, then the error is
    raised), ["/"] a directory and ["^"] a file stored under a name that
    points above the destination. *)

(** The target of a member whose cleaned name is [name]. *)
Definition below (name : string) : string -> string :=
  fun destination_folder => Path.join destination_folder name.

Definition demo_entry (b : Byte.byte) : entry :=
  let c := ascii_of_byte b in
  if Ascii.eqb c "?" then
    Entry "locked" (below "locked")
      (Raises None (Exn OtherError "password required for extraction"))
  else if Ascii.eqb c "#" then
    Entry "broken" (below "broken")
      (Raises (Some (RegularFile [])) (Exn BadZipFile "Bad CRC-32"))
  else if Ascii.eqb c "/" then
    Entry "d/" (below "d") (Puts Directory)
  else if Ascii.eqb c "^" then
    Entry "../up" (below "up") (Puts (RegularFile [b]))
  else Entry (String c "") (below (String c "")) (Puts (RegularFile [b])).

Definition demo_lib : codec := fun _ data =>
  match data with
  | b :: rest =>
      if Ascii.eqb (ascii_of_byte b) "P" then inr (demo_entry <$> rest)
      else inl (Exn BadZipFile "File is not an archive")
  | [] => inl (Exn BadZipFile "File is not an archive")
  end.

Definition bytes (s : string) : list Byte.byte := list_byte_of_string s.

Definition quiet : callback := fun _ _ _ => None.

(** A folder with one plain archive and a split one whose segment 3 is
    missing. *)
Definition w0 : world :=
  World (<["/in/a.zip" := File (bytes "Pxy")]>
         (<["/in/b.zip.001" := File (bytes "Pu")]>
         (<["/in/b.zip.002" := File (bytes "v")]>
         (<["/in/b.zip.004" := File (bytes "w")]> ∅)))) [].


(** The same folder without the first segment. *)
Definition w_gap : world := World (delete "/in/b.zip.001" (fs w0)) [].

(** The same folder where the name of the merged file is taken by a
    directory. *)
Definition w_dir : world :=
  World (<["/in/b_merged.zip" := Dir 4096]> (fs w0)) [].

(** Segments whose marker is spelled in upper case. *)
Definition w_upper : world :=
  World (<["/in/A.ZIP.001" := File (bytes "Pu")]>
         (<["/in/A.ZIP.002" := File (bytes "v")]> ∅)) [].

(** An archive with a member that needs a password. *)
Definition w_locked : world :=
  World (<["/in/s.zip" := File (bytes "Px?y")]> ∅) [].

(** A split archive whose segments do not make a valid archive. *)
Definition w_bad : world :=
  World (<["/in/k.zip.001" := File (bytes "xx")]>
         (<["/in/k.zip.002" := File (bytes "yy")]> ∅)) [].

(** ** Vocabulary of the statements *)

Definition is_file (f : gmap string node) (p : string) : Prop :=
  exists data, f !! p = Some (File data).

Definition is_dir (f : gmap string node) (p : string) : Prop :=
  exists n, f !! p = Some (Dir n).

(** The bytes of the regular file at [p] (nothing when there is none). *)
Definition file_bytes (f : gmap string node) (p : string) : list Byte.byte :=
  match f !! p with
  | Some (File data) => data
  | _ => []
  end.

(** [p] ends in a suffix that reads [suf] once lower-cased. *)
Definition ends_in (p suf : string) : Prop :=
  exists pre tail, p = pre +:+ tail /\ Str.lower tail = suf.

(** [p] contains, somewhere, text that reads [.zip.] once lower-cased. *)
Definition has_marker (p : string) : Prop :=
  exists a m b, p = a +:+ m +:+ b /\ Str.lower m = ".zip.".

Fixpoint last_char (s : string) : option ascii :=
  match s with
  | EmptyString => None
  | String c EmptyString => Some c
  | String _ s' => last_char s'
  end.

(** An event that is not a progress call, or is one that carries [gb]. *)
Definition carries (gb : QArith_base.Q) (ev : event) : Prop :=
  match ev with
  | EvProgress _ _ g => g = gb
  | _ => True
  end.

(** The events of extracting [file_list], entry by entry, counting from [i]:
    the entry is extracted, then (when a callback is supplied) progress is
    reported. *)
Fixpoint steps (dest : string) (cb : option callback) (gb : QArith_base.Q)
    (total i : nat) (file_list : list entry) : list event :=
  match file_list with
  | [] => []
  | e :: rest =>
      EvExtracted (entry_target e dest)
      :: match cb with
         | Some _ => [EvProgress i total gb]
         | None => []
         end
      ++ steps dest cb gb total (S i) rest
  end.

(** What [extract] has put at the target of [e] when it returns: the file
    with the bytes of the member, or the directory. *)
Definition put_at (f : gmap string node) (dest : string) (e : entry) : Prop :=
  match entry_extract e with
  | Puts (RegularFile data) => f !! entry_target e dest = Some (File data)
  | Puts Directory => is_dir f (entry_target e dest)
  | Raises _ _ => False
  end.

(** The callback [f] made to raise [err] at call number [k]: the run then
    ends in the state in which that call is made. *)
Definition stop_at (k : nat) (err : exn) (f : callback) : callback :=
  fun i total gb => if Nat.eqb i k then Some err else f i total gb.

(** The progress calls among some events, as (index, total, size). *)
Definition progress_calls (evs : list event)
    : list (nat * nat * QArith_base.Q) :=
  omap (fun ev => match ev with
                  | EvProgress i total gb => Some (i, total, gb)
                  | _ => None
                  end) evs.

(** [m] only adds events that satisfy [P] to the trace. *)
Definition emits_only {A} (P : event -> Prop) (m : M A) : Prop :=
  forall w w' r, m w = (w', r) ->
    exists evs, trace w' = trace w ++ evs /\ Forall P evs.

(** [m] adds nothing to the trace. *)
Definition silent {A} (m : M A) : Prop :=
  forall w w' r, m w = (w', r) -> trace w' = trace w.

(** [m] deletes no path. *)
Definition keeps_paths {A} (m : M A) : Prop :=
  forall w w' r q, m w = (w', r) ->
    is_Some (fs w !! q) -> is_Some (fs w' !! q).

(** What [os.path.getsize] reports for a node. *)
Definition node_size (nd : node) : nat :=
  match nd with
  | File data => length data
  | Dir n => n
  end.

(** The size in GB of the source path as it is when the call starts. *)
Definition source_gb (f : gmap string node) (p : string) : QArith_base.Q :=
  size_gb (from_option node_size 0 (f !! p)).

(** Segments [1..n] exist and segment [n+1] does not. *)
Definition leading_run (f : gmap string node) (folder base_name : string)
    (n : nat) : Prop :=
  (forall i, 1 <= i <= n ->
     is_Some (f !! ArchiveExtractor.part_path folder base_name i)) /\
  f !! ArchiveExtractor.part_path folder base_name (S n) = None.

(** The bytes of segments [1..n], one after the other. *)
Definition segments_bytes (f : gmap string node) (folder base_name : string)
    (n : nat) : list Byte.byte :=
  concat ((fun i => file_bytes f (ArchiveExtractor.part_path folder base_name i))
            <$> seq 1 n).

(** The entries that the library lists for the archive that a call on [p]
    opens: the file at [p] itself, or, for a split archive, the segments of
    the leading run joined together. *)
Definition lists_entries (lib : codec) (f : gmap string node) (p : string)
    (file_list : list entry) : Prop :=
  let plain c := exists data, f !! p = Some (File data) /\ lib c data = inr file_list in
  match ArchiveExtractor.classify p with
  | Zip => plain ZipFile
  | Rar => plain RarFile
  | SevenZip => plain SevenZipFile
  | SplitZip =>
      let folder := Path.dirname p in
      let base := Str.split_head ".zip." (Path.basename p) in
      exists n, 1 <= n /\ leading_run f folder base n /\
                lib ZipFile (segments_bytes f folder base n) = inr file_list
  | Unsupported => False
  end.

(** ** Further worlds and vocabulary *)

(** A folder with a plain text file. *)
Definition w_notes : world :=
  World (<["/tmp/notes.txt" := File (bytes "hello")]> ∅) [].

(** A split archive whose second segment is a directory. *)
Definition w_halfdir : world :=
  World (<["/in/b.zip.001" := File (bytes "Pu")]>
         (<["/in/b.zip.002" := Dir 4096]> ∅)) [].

(** The folder of [w0] where the name of the merged file of the earlier
    script is taken by a directory. *)
Definition w_unido : world :=
  World (<["/in/b_unido.zip" := Dir 4096]> (fs w0)) [].

(** The folder of [w0] with a file of the user's at the path of the merged
    file. *)
Definition w_taken : world :=
  World (<["/in/b_merged.zip" := File (bytes "keep")]> (fs w0)) [].

(** An event other than a progress call. *)
Definition not_progress (ev : event) : Prop :=
  match ev with
  | EvProgress _ _ _ => False
  | _ => True
  end.

(** The progress calls among [evs] are numbered 1, 2, ..., [j], each with
    the same total [K] and the size [gb]. *)
Definition counts_up (gb : QArith_base.Q) (K j : nat) (evs : list event) : Prop :=
  j <= K /\ progress_calls evs = (fun i => (i, K, gb)) <$> seq 1 j.

(** Every run of [m] makes progress calls that count up from 1. *)
Definition progresses {A} (gb : QArith_base.Q) (m : M A) : Prop :=
  forall w w' r, m w = (w', r) ->
    exists evs K j, trace w' = trace w ++ evs /\ counts_up gb K j evs.

(** [m] deletes no path outside [S]. *)
Definition keeps_except {A} (S : string -> Prop) (m : M A) : Prop :=
  forall w w' r q, m w = (w', r) -> ~ S q ->
    is_Some (fs w !! q) -> is_Some (fs w' !! q).

(** From [w] to [w'] regular files outside [S] stay regular files,
    directories stay directories, and every path outside [S] at which an entry
    was extracted on the way holds a file or a directory in [w']. *)
Definition kept (S : string -> Prop) (w w' : world) : Prop :=
  (forall q, ~ S q -> is_file (fs w) q -> is_file (fs w') q) /\
  (forall q, is_dir (fs w) q -> is_dir (fs w') q) /\
  exists evs, trace w' = trace w ++ evs /\
    forall t, EvExtracted t ∈ evs -> ~ S t -> is_Some (fs w' !! t).

(** Every run of [m] keeps what was there and what it extracts. *)
Definition settles {A} (S : string -> Prop) (m : M A) : Prop :=
  forall w w' r, m w = (w', r) -> kept S w w'.

(** [m] changes the file system at most at the paths in [S]. *)
Definition touches_only {A} (S : string -> Prop) (m : M A) : Prop :=
  forall w w' r q, m w = (w', r) -> ~ S q -> fs w' !! q = fs w !! q.

(** A progress call whose index lies between 1 and its total. *)
Definition in_range (ev : event) : Prop :=
  match ev with
  | EvProgress current total _ => 1 <= current <= total
  | _ => True
  end.

(** A line of the results area other than "File not found". *)
Definition found_line (l : ExtractionGUI.line) : Prop :=
  match l with
  | ExtractionGUI.ResultLine (FileNotFound _) => False
  | _ => True
  end.

(** The window after the user has chosen two archives of [w0] and a
    destination. *)
Definition g_ready : ExtractionGUI.gui :=
  ExtractionGUI.select_destination "/out"
    (ExtractionGUI.select_files ["/in/a.zip"; "/in/b.zip.001"]
       ExtractionGUI.setup_gui).

(** * Properties *)

(** Let [simpl] compute [+:+] on strings that start with known characters. *)
#[local] Arguments String.append !s1 s2 / : simpl nomatch.

(** ** Strings and paths *)

Section StringFacts.

Implicit Types s p suf sub sep : string.

Lemma prefix_spec p s :
  String.prefix p s = true <-> exists r, s = p +:+ r.
Proof.
  revert s; induction p as [|c p IH]; intros s; simpl.
  - destruct s; split; eauto.
  - destruct s as [|d s]; simpl.
    + split; [discriminate | intros [r Hr]; discriminate].
    + destruct (ascii_dec c d) as [->|Hne].
      * rewrite IH. split; intros [r Hr]; exists r; simpl in *; congruence.
      * split; [discriminate | intros [r Hr]; simpl in *; congruence].
Qed.

Lemma endswith_spec s suf :
  Str.endswith s suf = true <-> exists pre, s = pre +:+ suf.
Proof.
  induction s as [|c s IH]; cbn [Str.endswith].
  - rewrite orb_false_r, String.eqb_eq. split.
    + intros <-. by exists "".
    + intros [pre H]. destruct pre; simpl in H; [done | discriminate].
  - rewrite orb_true_iff, String.eqb_eq, IH. split.
    + intros [<- | [pre ->]]; [by exists "" | by exists (String c pre)].
    + intros [[|d pre] H]; simpl in H; [by left | right].
      injection H as -> ->. by exists pre.
Qed.

Lemma contains_spec sub s :
  Str.contains sub s = true <-> exists a b, s = a +:+ sub +:+ b.
Proof.
  induction s as [|c s IH]; cbn [Str.contains].
  - rewrite orb_false_r, prefix_spec. split.
    + intros [r Hr]. by exists "", r.
    + intros ([|d a] & b & H); simpl in H; [by exists b | discriminate].
  - rewrite orb_true_iff, prefix_spec, IH. split.
    + intros [[r Hr] | (a & b & ->)]; [by exists "", r |].
      by exists (String c a), b.
    + intros ([|d a] & b & H); simpl in H; [left; by exists b | right].
      injection H as -> ->. by exists a, b.
Qed.

Lemma lower_app s1 s2 : Str.lower (s1 +:+ s2) = Str.lower s1 +:+ Str.lower s2.
Proof. induction s1 as [|c s1 IH]; simpl; [done | by rewrite IH]. Qed.

Lemma lower_char_idemp c : Str.lower_char (Str.lower_char c) = Str.lower_char c.
Proof. by destruct c as [[] [] [] [] [] [] [] []]. Qed.

Lemma lower_idemp s : Str.lower (Str.lower s) = Str.lower s.
Proof.
  induction s as [|c s IH]; simpl; [done |].
  by rewrite lower_char_idemp, IH.
Qed.

(** Splitting [lower p] splits [p] at the same place. *)
Lemma lower_app_inv p l1 l2 :
  Str.lower p = l1 +:+ l2 ->
  exists p1 p2, p = p1 +:+ p2 /\ Str.lower p1 = l1 /\ Str.lower p2 = l2.
Proof.
  revert p; induction l1 as [|c l1 IH]; intros p H; simpl in H.
  - by exists "", p.
  - destruct p as [|d p]; simpl in H; [discriminate |].
    injection H as Hc Hp. destruct (IH _ Hp) as (p1 & p2 & -> & H1 & H2).
    exists (String d p1), p2. simpl. by rewrite Hc, H1.
Qed.

Lemma split_head_absent sep s :
  Str.contains sep s = false -> Str.split_head sep s = s.
Proof.
  induction s as [|c s IH]; cbn [Str.contains Str.split_head]; intros H;
    apply orb_false_iff in H as [Hp Hc]; rewrite Hp; [done |].
  by rewrite IH.
Qed.

(** When the separator occurs, the head is what precedes its first
    occurrence. *)
Lemma split_head_present sep s :
  Str.contains sep s = true ->
  exists rest, s = Str.split_head sep s +:+ sep +:+ rest /\
               String.length (Str.split_head sep s) <= String.length s.
Proof.
  induction s as [|c s IH]; cbn [Str.contains Str.split_head]; intros H.
  - rewrite orb_false_r in H. rewrite H.
    apply prefix_spec in H as [r Hr]. exists r. simpl. split; [done | lia].
  - destruct (String.prefix sep (String c s)) eqn:Hp.
    + apply prefix_spec in Hp as [r Hr]. exists r. simpl. split; [done | lia].
    + rewrite orb_false_l in H. destruct (IH H) as (rest & Hs & Hl).
      exists rest. simpl. split; [by rewrite <- Hs | lia].
Qed.

Lemma app_assoc_s s1 s2 s3 : (s1 +:+ s2) +:+ s3 = s1 +:+ (s2 +:+ s3).
Proof. induction s1 as [|c s1 IH]; simpl; [done | by rewrite IH]. Qed.

Lemma startswith_sep d s :
  Str.startswith (String d s) "/" = if ascii_dec "/" d then true else false.
Proof.
  unfold Str.startswith. cbn [String.prefix].
  destruct (ascii_dec "/" d); [by destruct s | done].
Qed.

(** A second component that continues with a character other than the
    separator is glued after [join a base]. *)
Lemma join_app a base c s :
  c <> "/"%char ->
  Path.join a (base +:+ String c s) = Path.join a base +:+ String c s.
Proof.
  intros Hc. unfold Path.join. destruct base as [|d base].
  - change ("" +:+ String c s) with (String c s). rewrite startswith_sep.
    destruct (ascii_dec "/" c) as [E|_]; [by subst |].
    change (Str.startswith "" "/") with false. cbv iota.
    destruct (String.eqb a "" || Str.endswith a "/");
      by rewrite ?app_assoc_s.
  - change (String d base +:+ String c s) with (String d (base +:+ String c s)).
    rewrite !startswith_sep. destruct (ascii_dec "/" d) as [_|_]; [done |].
    destruct (String.eqb a "" || Str.endswith a "/");
      by rewrite ?app_assoc_s.
Qed.

End StringFacts.

(** ** Suffixes and the marker, case-insensitively *)

Section Suffixes.

Implicit Types p l suf : string.

Lemma ends_in_endswith p suf :
  ends_in p suf <-> Str.endswith (Str.lower p) suf = true.
Proof.
  rewrite endswith_spec. split.
  - intros (pre & tail & -> & <-). exists (Str.lower pre). apply lower_app.
  - intros [pre H]. apply lower_app_inv in H as (p1 & p2 & -> & _ & H2).
    by exists p1, p2.
Qed.

Lemma has_marker_contains p :
  has_marker p <-> Str.contains ".zip." (Str.lower p) = true.
Proof.
  rewrite contains_spec. split.
  - intros (a & m & b & -> & <-). exists (Str.lower a), (Str.lower b).
    by rewrite !lower_app.
  - intros (a & b & H). apply lower_app_inv in H as (p1 & p2 & -> & _ & H2).
    apply lower_app_inv in H2 as (m & p3 & -> & Hm & _). by exists p1, m, p3.
Qed.

Lemma last_char_app a s : s <> "" -> last_char (a +:+ s) = last_char s.
Proof.
  intros Hs. induction a as [|c a IH]; [done |].
  change (String c a +:+ s) with (String c (a +:+ s)).
  cbn [last_char]. rewrite IH. destruct (a +:+ s) eqn:E; [|done].
  destruct a; [by subst | discriminate].
Qed.

(** Two suffixes with different last characters exclude each other. *)
Lemma endswith_exclusive l suf1 suf2 :
  suf1 <> "" -> suf2 <> "" -> last_char suf1 <> last_char suf2 ->
  Str.endswith l suf1 = true -> Str.endswith l suf2 = false.
Proof.
  intros H1 H2 Hne [pre1 E1]%endswith_spec.
  destruct (Str.endswith l suf2) eqn:E; [|done].
  apply endswith_spec in E as [pre2 E2]. destruct Hne.
  by rewrite <- (last_char_app pre1 suf1), <- (last_char_app pre2 suf2), <- E1, <- E2.
Qed.

End Suffixes.

(** ** Segment names *)

Section SegmentNames.

Lemma of_uint_D0 d : Nat.of_uint (Decimal.D0 d) = Nat.of_uint d.
Proof. reflexivity. Qed.

Lemma parse_of_nat n : Str.parse_nat (Str.of_nat n) = Some n.
Proof.
  unfold Str.parse_nat, Str.of_nat. rewrite NilEmpty.usu. simpl.
  by rewrite Unsigned.of_to.
Qed.

Lemma parse_zeros k s n :
  Str.parse_nat s = Some n -> Str.parse_nat (Str.zeros k +:+ s) = Some n.
Proof.
  intros H. induction k as [|k IH]; [done |].
  change (Str.zeros (S k) +:+ s) with (String "0" (Str.zeros k +:+ s)).
  unfold Str.parse_nat in *. cbn [NilEmpty.uint_of_string].
  destruct (NilEmpty.uint_of_string (Str.zeros k +:+ s)) as [d|]; [|done].
  simpl in *. by rewrite of_uint_D0.
Qed.

Lemma parse_fmt_03d i : Str.parse_nat (Str.fmt_03d i) = Some i.
Proof. apply parse_zeros, parse_of_nat. Qed.

Lemma fmt_03d_inj i j : Str.fmt_03d i = Str.fmt_03d j -> i = j.
Proof.
  intros H. pose proof (parse_fmt_03d i) as Hi.
  rewrite H, parse_fmt_03d in Hi. congruence.
Qed.

Lemma part_path_eq folder base i :
  ArchiveExtractor.part_path folder base i =
  Path.join folder base +:+ ".zip." +:+ Str.fmt_03d i.
Proof. unfold ArchiveExtractor.part_path. by apply join_app. Qed.

Lemma merged_path_eq folder base :
  ArchiveExtractor.merged_path_of folder base =
  Path.join folder base +:+ "_merged.zip".
Proof. unfold ArchiveExtractor.merged_path_of. by apply join_app. Qed.

Lemma part_path_inj folder base i j :
  ArchiveExtractor.part_path folder base i =
  ArchiveExtractor.part_path folder base j -> i = j.
Proof.
  rewrite !part_path_eq. intros H.
  apply (inj (String.append _)) in H. apply (inj (String.append _)) in H.
  by apply fmt_03d_inj.
Qed.

Global Instance part_path_Inj folder base :
  Inj (=) (=) (ArchiveExtractor.part_path folder base).
Proof. intros i j. apply part_path_inj. Qed.

Lemma merged_not_part folder base i :
  ArchiveExtractor.merged_path_of folder base <>
  ArchiveExtractor.part_path folder base i.
Proof.
  rewrite part_path_eq, merged_path_eq. intros H.
  apply (inj (String.append _)) in H. discriminate.
Qed.

Lemma merged_nonempty folder base :
  ArchiveExtractor.merged_path_of folder base <> "".
Proof.
  rewrite merged_path_eq. destruct (Path.join folder base); discriminate.
Qed.

End SegmentNames.

(** ** Segment discovery *)

Section Discovery.

Context (f : gmap string node) (folder base : string).

Local Abbreviation part := (ArchiveExtractor.part_path folder base).
Local Abbreviation scan fuel := (ArchiveExtractor.scan_parts fuel f folder base).

(** What a finished scan returns. *)
Lemma scan_parts_sound fuel i parts :
  scan fuel i = Some parts ->
  parts = part <$> seq i (length parts) /\
  (forall k, i <= k < i + length parts -> is_Some (f !! part k)) /\
  f !! part (i + length parts) = None.
Proof.
  revert i parts; induction fuel as [|fuel IH]; intros i parts; [done |].
  cbn [ArchiveExtractor.scan_parts]. case_bool_decide as Hi; simpl.
  - destruct (scan fuel (S i)) as [rest|] eqn:Hrest; [|done].
    intros [= <-]. destruct (IH _ _ Hrest) as (Hl & Hex & Hend).
    simpl. split; [f_equal; exact Hl |]. split.
    + intros k Hk. destruct (decide (k = i)) as [->|]; [done |].
      apply Hex. lia.
    + by replace (i + S (length rest)) with (S i + length rest) by lia.
  - intros [= <-]. simpl. split; [done |]. split; [intros k Hk; lia |].
    rewrite Nat.add_0_r. by apply eq_None_not_Some.
Qed.

(** A scan that runs out of fuel has seen that many existing segments. *)
Lemma scan_parts_exhausted fuel i :
  scan fuel i = None ->
  forall k, i <= k < i + fuel -> is_Some (f !! part k).
Proof.
  revert i; induction fuel as [|fuel IH]; intros i; [intros _ k Hk; lia |].
  cbn [ArchiveExtractor.scan_parts]. case_bool_decide as Hi; simpl; [|done].
  destruct (scan fuel (S i)) as [rest|] eqn:Hrest; [done |].
  intros _ k Hk. destruct (decide (k = i)) as [->|]; [done |].
  apply (IH _ Hrest). lia.
Qed.

(** The file system is finite and the segment names are pairwise distinct,
    so the loop ends: it can see at most [size f] segments. *)
Lemma scan_parts_total i :
  exists parts, scan (S (size f)) i = Some parts.
Proof.
  destruct (scan (S (size f)) i) as [parts|] eqn:Hscan; [by exists parts |].
  exfalso. pose proof (scan_parts_exhausted _ _ Hscan) as Hall.
  set (names := part <$> seq i (S (size f))).
  assert (Hsub : list_to_set names ⊆ (dom f : gset string)).
  { intros p Hp. apply elem_of_list_to_set in Hp.
    apply list_elem_of_fmap in Hp as (k & -> & Hk).
    apply elem_of_seq in Hk. apply elem_of_dom, Hall. lia. }
  apply subseteq_size in Hsub.
  rewrite size_list_to_set, size_dom in Hsub.
  - unfold names in Hsub. rewrite length_fmap, length_seq in Hsub. lia.
  - apply NoDup_fmap_2; [apply _ | apply NoDup_seq].
Qed.

Lemma leading_run_unique n m :
  leading_run f folder base n -> leading_run f folder base m -> n = m.
Proof.
  intros [Hn Hn'] [Hm Hm'].
  destruct (Nat.lt_trichotomy n m) as [Hlt | [-> | Hlt]]; [| done |].
  - destruct (Hm (S n)) as [x Hx]; [lia | congruence].
  - destruct (Hn (S m)) as [x Hx]; [lia | congruence].
Qed.

(** [find_parts] returns the leading contiguous run, in ascending order,
    and leaves the world alone. *)
Lemma find_parts_run (tr : list event) :
  exists n,
    leading_run f folder base n /\
    ArchiveExtractor.find_parts folder base (World f tr) =
      (World f tr, Return (part <$> seq 1 n)).
Proof.
  destruct (scan_parts_total 1) as [parts Hscan].
  destruct (scan_parts_sound _ _ _ Hscan) as (Hl & Hex & Hend).
  exists (length parts). split.
  - split; [intros k Hk; apply Hex; lia | done].
  - unfold ArchiveExtractor.find_parts, bind, get_fs, ret. simpl fs.
    rewrite Hscan. simpl. by rewrite <- Hl.
Qed.

End Discovery.

(** ** Reasoning about runs of the monad *)

Section Runs.

Context {A B : Type}.

Lemma bind_return (m : M A) (k : A -> M B) w w1 a :
  m w = (w1, Return a) -> bind m k w = k a w1.
Proof. unfold bind. by intros ->. Qed.

Lemma bind_raise (m : M A) (k : A -> M B) w w1 e :
  m w = (w1, Raise e) -> bind m k w = (w1, Raise e).
Proof. unfold bind. by intros ->. Qed.

Lemma bind_inv (m : M A) (k : A -> M B) w w' r :
  bind m k w = (w', r) ->
  (exists w1 a, m w = (w1, Return a) /\ k a w1 = (w', r)) \/
  (exists e, m w = (w', Raise e) /\ r = Raise e).
Proof.
  unfold bind. destruct (m w) as [w1 [a|e]]; intros H.
  - left. by exists w1, a.
  - right. exists e. by injection H as -> <-.
Qed.

Lemma try_except_return (m : M A) classes h w w1 a :
  m w = (w1, Return a) -> try_except m classes h w = (w1, Return a).
Proof. unfold try_except. by intros ->. Qed.

Lemma try_except_caught (m : M A) classes h w w1 e :
  m w = (w1, Raise e) -> exn_cls e ∈ classes ->
  try_except m classes h w = h e w1.
Proof. unfold try_except. intros -> Hin. by rewrite bool_decide_eq_true_2. Qed.

Lemma try_except_passed (m : M A) classes h w w1 e :
  m w = (w1, Raise e) -> exn_cls e ∉ classes ->
  try_except m classes h w = (w1, Raise e).
Proof. unfold try_except. intros -> Hin. by rewrite bool_decide_eq_false_2. Qed.

Lemma try_except_inv (m : M A) classes h w w' r :
  try_except m classes h w = (w', r) ->
  (exists a, m w = (w', Return a) /\ r = Return a) \/
  (exists w1 e, m w = (w1, Raise e) /\ exn_cls e ∈ classes /\ h e w1 = (w', r)) \/
  (exists e, m w = (w', Raise e) /\ (exn_cls e ∉ classes) /\ r = Raise e).
Proof.
  unfold try_except. destruct (m w) as [w1 [a|e]]; intros H.
  - left. exists a. by injection H as -> <-.
  - case_bool_decide as Hin.
    + right; left. by exists w1, e.
    + right; right. exists e. by injection H as -> <-.
Qed.

End Runs.

Section Frames.

Context (P : event -> Prop).

Lemma emits_only_ret {A} (a : A) : emits_only P (ret a).
Proof. intros w w' r [= <- <-]. exists []. by rewrite app_nil_r. Qed.

Lemma emits_only_raise {A} e : emits_only P (@raise A e).
Proof. intros w w' r [= <- <-]. exists []. by rewrite app_nil_r. Qed.

Lemma emits_only_get_fs : emits_only P get_fs.
Proof. intros w w' r [= <- <-]. exists []. by rewrite app_nil_r. Qed.

Lemma emits_only_set_fs f : emits_only P (set_fs f).
Proof. intros w w' r [= <- <-]. exists []. by rewrite app_nil_r. Qed.

Lemma emits_only_emit ev : P ev -> emits_only P (emit ev).
Proof. intros Hev w w' r [= <- <-]. exists [ev]. split; [done | by constructor]. Qed.

Lemma emits_only_bind {A B} (m : M A) (k : A -> M B) :
  emits_only P m -> (forall a, emits_only P (k a)) -> emits_only P (bind m k).
Proof.
  intros Hm Hk w w' r H. apply bind_inv in H as [(w1 & a & H1 & H2) | (e & H1 & ->)].
  - destruct (Hm _ _ _ H1) as (ev1 & E1 & F1).
    destruct (Hk a _ _ _ H2) as (ev2 & E2 & F2).
    exists (ev1 ++ ev2). rewrite E2, E1, app_assoc. split; [done |].
    by apply Forall_app.
  - by apply (Hm _ _ _ H1).
Qed.

Lemma emits_only_try_except {A} (m : M A) classes h :
  emits_only P m -> (forall e, emits_only P (h e)) ->
  emits_only P (try_except m classes h).
Proof.
  intros Hm Hh w w' r H.
  apply try_except_inv in H
    as [(a & H1 & ->) | [(w1 & e & H1 & _ & H2) | (e & H1 & _ & ->)]].
  - by apply (Hm _ _ _ H1).
  - destruct (Hm _ _ _ H1) as (ev1 & E1 & F1).
    destruct (Hh e _ _ _ H2) as (ev2 & E2 & F2).
    exists (ev1 ++ ev2). rewrite E2, E1, app_assoc. split; [done |].
    by apply Forall_app.
  - by apply (Hm _ _ _ H1).
Qed.

End Frames.

(** ** Runs of the file-system primitives *)

Section Primitives.

Implicit Types (w : world) (p : string).

Lemma path_exists_run p w :
  Os.path_exists p w = (w, Return (bool_decide (is_Some (fs w !! p)))).
Proof. reflexivity. Qed.

Lemma getsize_file p w data :
  fs w !! p = Some (File data) -> Os.getsize p w = (w, Return (length data)).
Proof. intros H. unfold Os.getsize, bind, get_fs. by rewrite H. Qed.

Lemma getsize_dir p w n :
  fs w !! p = Some (Dir n) -> Os.getsize p w = (w, Return n).
Proof. intros H. unfold Os.getsize, bind, get_fs. by rewrite H. Qed.

Lemma getsize_missing p w :
  fs w !! p = None ->
  Os.getsize p w = (w, Raise (Exn OSError "No such file or directory")).
Proof. intros H. unfold Os.getsize, bind, get_fs. by rewrite H. Qed.

Lemma read_file p w data :
  fs w !! p = Some (File data) -> Os.read p w = (w, Return data).
Proof. intros H. unfold Os.read, bind, get_fs. by rewrite H. Qed.

Lemma read_inv p w w' r :
  Os.read p w = (w', r) ->
  w' = w /\
  match r with
  | Return data => fs w !! p = Some (File data)
  | Raise e => exn_cls e = OSError /\ ~ is_file (fs w) p
  end.
Proof.
  unfold Os.read, bind, get_fs, is_file.
  destruct (fs w !! p) as [[data|n]|]; intros [= <- <-]; split; try done;
    split; try done; by intros [d Hd].
Qed.

Lemma open_wb_ok p w :
  ~ is_dir (fs w) p ->
  Os.open_wb p w = (World (<[p := File []]> (fs w)) (trace w), Return tt).
Proof.
  intros H. unfold Os.open_wb, bind, get_fs, is_dir in *.
  destruct (fs w !! p) as [[data|n]|]; try done. destruct H. by exists n.
Qed.

Lemma open_wb_dir p w n :
  fs w !! p = Some (Dir n) ->
  Os.open_wb p w = (w, Raise (Exn OSError "Is a directory")).
Proof. intros H. unfold Os.open_wb, bind, get_fs. by rewrite H. Qed.

Lemma open_wb_inv p w w' r :
  Os.open_wb p w = (w', r) ->
  match r with
  | Return _ => w' = World (<[p := File []]> (fs w)) (trace w)
  | Raise e => w' = w /\ exn_cls e = OSError /\ is_dir (fs w) p
  end.
Proof.
  unfold Os.open_wb, bind, get_fs, is_dir.
  destruct (fs w !! p) as [[data|n]|]; intros [= <- <-]; try done.
  split; [done |]. split; [done |]. by exists n.
Qed.

Lemma write_file p w old data :
  fs w !! p = Some (File old) ->
  Os.write p data w = (World (<[p := File (old ++ data)]> (fs w)) (trace w), Return tt).
Proof. intros H. unfold Os.write, bind, get_fs. by rewrite H. Qed.

Lemma write_inv p data w w' r :
  Os.write p data w = (w', r) ->
  trace w' = trace w /\
  match r with
  | Return _ => exists old, fs w !! p = Some (File old) /\
                            fs w' = <[p := File (old ++ data)]> (fs w)
  | Raise e => w' = w /\ exn_cls e = OSError
  end.
Proof.
  unfold Os.write, bind, get_fs.
  destruct (fs w !! p) as [[old|n]|]; intros [= <- <-]; split; try done.
  by exists old.
Qed.

Lemma remove_file p w data :
  fs w !! p = Some (File data) ->
  Os.remove p w = (World (delete p (fs w)) (trace w), Return tt).
Proof. intros H. unfold Os.remove, bind, get_fs. by rewrite H. Qed.

Lemma remove_inv p w w' r :
  Os.remove p w = (w', r) ->
  trace w' = trace w /\
  match r with
  | Return _ => fs w' = delete p (fs w)
  | Raise e => w' = w /\ exn_cls e = OSError
  end.
Proof.
  unfold Os.remove, bind, get_fs.
  destruct (fs w !! p) as [[old|n]|]; by intros [= <- <-].
Qed.

Lemma path_isdir_inv p w w' r :
  Os.path_isdir p w = (w', r) ->
  w' = w /\
  r = Return (match fs w !! p with Some (Dir _) => true | _ => false end).
Proof. by intros [= <- <-]. Qed.

Lemma mkdir_inv p w w' r :
  Os.mkdir p w = (w', r) ->
  trace w' = trace w /\
  match r with
  | Return _ => fs w !! p = None /\ fs w' = <[p := Dir 4096]> (fs w)
  | Raise e => w' = w /\ exn_cls e = OSError
  end.
Proof.
  unfold Os.mkdir, bind, get_fs.
  destruct (fs w !! p) as [nd|]; by intros [= <- <-].
Qed.

End Primitives.

(** ** The joiner *)

Section Joiner.

Context (folder base : string).

Local Abbreviation part := (ArchiveExtractor.part_path folder base).
Local Abbreviation merged := (ArchiveExtractor.merged_path_of folder base).

(** Copying regular files into an open output appends their bytes, in order. *)
Lemma copy_parts_files (out : string) (parts : list string) :
  forall (f : gmap string node) (tr : list event) (acc : list Byte.byte),
  f !! out = Some (File acc) ->
  out ∉ parts ->
  (forall p, p ∈ parts -> is_file f p) ->
  ArchiveExtractor.copy_parts out parts (World f tr) =
    (World (<[out := File (acc ++ concat (file_bytes f <$> parts))]> f) tr,
     Return tt).
Proof.
  induction parts as [|p rest IH]; intros f tr acc Hout Hnin Hfiles.
  - simpl. unfold ret. by rewrite app_nil_r, insert_id.
  - apply not_elem_of_cons in Hnin as [Hne Hnin].
    destruct (Hfiles p) as [data Hp]; [by left |].
    cbn [ArchiveExtractor.copy_parts].
    erewrite bind_return by (by apply read_file).
    erewrite bind_return by (by apply write_file).
    simpl fs. simpl trace. rewrite (IH _ _ (acc ++ data)).
    + rewrite insert_insert_eq. simpl. unfold file_bytes at 2. rewrite Hp.
      rewrite <- app_assoc.
      replace (file_bytes (<[out:=File (acc ++ data)]> f) <$> rest)
        with (file_bytes f <$> rest); [done |].
      apply list_fmap_ext. intros _ q Hq%list_elem_of_lookup_2.
      unfold file_bytes. rewrite lookup_insert_ne; [done | set_solver].
    + by rewrite lookup_insert_eq.
    + done.
    + intros q Hq. destruct (Hfiles q) as [d Hd]; [by right |].
      exists d. rewrite lookup_insert_ne; [done | set_solver].
Qed.

(** The only exceptions of [write_merged] are I/O errors, and it prints
    nothing. *)
Lemma copy_parts_raises out parts w w' e :
  ArchiveExtractor.copy_parts out parts w = (w', Raise e) ->
  exn_cls e = OSError /\ trace w' = trace w.
Proof.
  revert w; induction parts as [|p rest IH]; intros w; [done |].
  cbn [ArchiveExtractor.copy_parts]. intros H.
  apply bind_inv in H as [(w1 & data & H1 & H) | (e' & H1 & [= <-])].
  - apply read_inv in H1 as [-> _].
    apply bind_inv in H as [(w2 & [] & H2 & H) | (e' & H2 & [= <-])].
    + apply write_inv in H2 as [Ht _]. destruct (IH _ H) as [? ?].
      split; [done | congruence].
    + by apply write_inv in H2 as [Ht [-> ?]].
  - by apply read_inv in H1 as [-> [? _]].
Qed.

Lemma write_merged_raises out parts w w' e :
  ArchiveExtractor.write_merged out parts w = (w', Raise e) ->
  exn_cls e = OSError /\ trace w' = trace w.
Proof.
  unfold ArchiveExtractor.write_merged. intros H.
  apply bind_inv in H as [(w1 & [] & H1 & H) | (e' & H1 & [= <-])].
  - apply open_wb_inv in H1 as ->.
    apply bind_inv in H as [(w2 & [] & H2 & [=]) | (e' & H2 & [= <-])].
    by apply copy_parts_raises in H2.
  - by apply open_wb_inv in H1 as (-> & ? & _).
Qed.

End Joiner.

(** ** The engine: entry point *)

Section EntryPoint.

Context (lib : codec).
Implicit Types (w : world) (p dest : string) (cb : option callback).

Lemma extract_archive_missing p dest cb w :
  fs w !! p = None ->
  ArchiveExtractor.extract_archive lib p dest cb w = (w, Return (FileNotFound p)).
Proof.
  intros H. unfold ArchiveExtractor.extract_archive.
  rewrite (bind_return _ _ _ _ _ (path_exists_run p w)).
  rewrite bool_decide_eq_false_2; [done |]. rewrite H. by intros [? ?].
Qed.

Lemma extract_archive_present p dest cb w :
  is_Some (fs w !! p) ->
  ArchiveExtractor.extract_archive lib p dest cb w =
    try_except
      (ArchiveExtractor.dispatch lib p dest (source_gb (fs w) p) cb)
      [BadZipFile; RarError; Bad7zFile; OSError]
      (fun e => ret (ErrorExtracting (Path.basename p) (source_gb (fs w) p)
                       (exn_msg e))) w.
Proof.
  intros [nd H]. unfold ArchiveExtractor.extract_archive.
  rewrite (bind_return _ _ _ _ _ (path_exists_run p w)).
  rewrite bool_decide_eq_true_2 by (by rewrite H). cbn [negb].
  unfold source_gb. rewrite H. simpl.
  destruct nd as [data|n].
  - by rewrite (bind_return _ _ _ _ _ (getsize_file _ _ _ H)).
  - by rewrite (bind_return _ _ _ _ _ (getsize_dir _ _ _ H)).
Qed.

End EntryPoint.

(** ** The joiner, as a whole *)

Section JoinZipParts.

Context (folder base : string).

Local Abbreviation part := (ArchiveExtractor.part_path folder base).
Local Abbreviation merged := (ArchiveExtractor.merged_path_of folder base).

Lemma join_zip_parts_unfold w :
  exists n,
    leading_run (fs w) folder base n /\
    ArchiveExtractor.join_zip_parts folder base w =
      match n with
      | O => (w, Return None)
      | S _ => try_except
                 (ArchiveExtractor.write_merged merged (part <$> seq 1 n))
                 [OSError]
                 (fun e => emit (EvPrint ("Error joining parts: " +:+ exn_msg e)) ;;
                           ret None) w
      end.
Proof.
  destruct w as [f tr]. destruct (find_parts_run f folder base tr) as (n & Hrun & Hfind).
  exists n. split; [done |]. unfold ArchiveExtractor.join_zip_parts.
  rewrite (bind_return _ _ _ _ _ Hfind). by destruct n.
Qed.

Lemma leading_run_0 f : f !! part 1 = None -> leading_run f folder base 0.
Proof. intros H. split; [intros i Hi; lia | done]. Qed.

Lemma leading_run_pos f n :
  is_Some (f !! part 1) -> leading_run f folder base n -> 1 <= n.
Proof.
  intros [x Hx] [_ Hend]. destruct n; [congruence | lia].
Qed.

Lemma join_zip_parts_none w :
  fs w !! part 1 = None ->
  ArchiveExtractor.join_zip_parts folder base w = (w, Return None).
Proof.
  intros H. destruct (join_zip_parts_unfold w) as (n & Hrun & ->).
  by rewrite (leading_run_unique _ _ _ _ _ Hrun (leading_run_0 _ H)).
Qed.

Lemma segments_bytes_fmap f n :
  segments_bytes f folder base n = concat (file_bytes f <$> (part <$> seq 1 n)).
Proof. unfold segments_bytes. by rewrite <- list_fmap_compose. Qed.

Lemma write_merged_files w n :
  (forall i, 1 <= i <= n -> is_file (fs w) (part i)) ->
  ~ is_dir (fs w) merged ->
  ArchiveExtractor.write_merged merged (part <$> seq 1 n) w =
    (World (<[merged := File (segments_bytes (fs w) folder base n)]> (fs w))
           (trace w),
     Return (Some merged)).
Proof.
  intros Hfiles Hdir. unfold ArchiveExtractor.write_merged.
  rewrite (bind_return _ _ _ _ _ (open_wb_ok _ _ Hdir)).
  assert (Hnin : merged ∉ part <$> seq 1 n).
  { intros (i & Hi & _)%list_elem_of_fmap. by apply merged_not_part in Hi. }
  erewrite bind_return; last apply (copy_parts_files merged _ _ _ []).
  - unfold ret. rewrite insert_insert_eq, segments_bytes_fmap. simpl.
    do 5 f_equal. apply list_fmap_ext. intros _ q Hq%list_elem_of_lookup_2.
    unfold file_bytes. rewrite lookup_insert_ne; [done |]. by intros <-.
  - by rewrite lookup_insert_eq.
  - done.
  - intros q Hq. pose proof Hq as (i & -> & Hi%elem_of_seq)%list_elem_of_fmap.
    destruct (Hfiles i) as [d Hd]; [lia |]. exists d.
    rewrite lookup_insert_ne; [done |]. apply merged_not_part.
Qed.

End JoinZipParts.

(** ** When writing the merged file fails *)

Section JoinFailure.

Context (folder base : string).

Local Abbreviation part := (ArchiveExtractor.part_path folder base).
Local Abbreviation merged := (ArchiveExtractor.merged_path_of folder base).

Lemma copy_parts_return_inv out parts w w' :
  ArchiveExtractor.copy_parts out parts w = (w', Return tt) ->
  out ∉ parts ->
  forall q, q ∈ parts -> is_file (fs w) q.
Proof.
  revert w; induction parts as [|p rest IH]; intros w H Hnin q Hq;
    [by apply elem_of_nil in Hq |].
  apply not_elem_of_cons in Hnin as [Hne Hnin].
  cbn [ArchiveExtractor.copy_parts] in H.
  apply bind_inv in H as [(w1 & data & H1 & H) | (e' & _ & [=])].
  apply read_inv in H1 as [-> Hp].
  apply bind_inv in H as [(w2 & [] & H2 & H) | (e' & _ & [=])].
  apply write_inv in H2 as [_ (old & Hold & Hfs)].
  apply elem_of_cons in Hq as [-> | Hq]; [by exists data |].
  destruct (IH _ H Hnin q Hq) as [d Hd]. exists d.
  rewrite Hfs, lookup_insert_ne in Hd; [done |]. by intros <-.
Qed.

Lemma write_merged_return_inv n w w' r :
  ArchiveExtractor.write_merged merged (part <$> seq 1 n) w = (w', Return r) ->
  ~ is_dir (fs w) merged /\
  forall i, 1 <= i <= n -> is_file (fs w) (part i).
Proof.
  unfold ArchiveExtractor.write_merged. intros H.
  apply bind_inv in H as [(w1 & [] & H1 & H) | (e' & _ & [=])].
  assert (Hnd : ~ is_dir (fs w) merged).
  { intros [k Hk]. by rewrite (open_wb_dir _ _ _ Hk) in H1. }
  split; [done |]. apply open_wb_inv in H1 as ->.
  apply bind_inv in H as [(w2 & [] & H2 & _) | (e' & _ & [=])].
  intros i Hi. eapply copy_parts_return_inv in H2 as [d Hd].
  - exists d. simpl in Hd. rewrite lookup_insert_ne in Hd; [done |].
    apply merged_not_part.
  - intros (j & Hj & _)%list_elem_of_fmap. by apply merged_not_part in Hj.
  - apply list_elem_of_fmap. exists i. split; [done |]. apply elem_of_seq. lia.
Qed.

(** An output path that is a directory, or a segment that is not a regular
    file, makes the [try] body of the joiner raise an I/O error. *)
Lemma write_merged_io_error n w :
  is_dir (fs w) merged \/ (exists i, 1 <= i <= n /\ ~ is_file (fs w) (part i)) ->
  exists w' e,
    ArchiveExtractor.write_merged merged (part <$> seq 1 n) w = (w', Raise e) /\
    exn_cls e = OSError /\ trace w' = trace w.
Proof.
  intros Hbad.
  destruct (ArchiveExtractor.write_merged merged (part <$> seq 1 n) w)
    as [w' [r|e]] eqn:H.
  - apply write_merged_return_inv in H as [Hnd Hfiles].
    destruct Hbad as [Hd | (i & Hi & Hnf)]; [done | by destruct Hnf; apply Hfiles].
  - exists w', e. split; [done |]. by apply write_merged_raises in H.
Qed.

End JoinFailure.

(** ** Events of the engine *)

Section Events.

Context (lib : codec).

Lemma silent_emits_only {A} P (m : M A) : silent m -> emits_only P m.
Proof.
  intros Hm w w' r H. exists []. rewrite app_nil_r. split; [|done].
  by apply (Hm _ _ _ H).
Qed.

Lemma silent_path_exists p : silent (Os.path_exists p).
Proof. by intros w w' r [= <- _]. Qed.

Lemma silent_read p : silent (Os.read p).
Proof. intros w w' r H. by apply read_inv in H as [-> _]. Qed.

Lemma silent_write p data : silent (Os.write p data).
Proof. intros w w' r H. by apply write_inv in H as [? _]. Qed.

Lemma silent_remove p : silent (Os.remove p).
Proof. intros w w' r H. by apply remove_inv in H as [? _]. Qed.

Lemma silent_open_wb p : silent (Os.open_wb p).
Proof.
  intros w w' [[]|e] H; apply open_wb_inv in H; [by subst | by destruct H as [-> _]].
Qed.

Lemma silent_find_parts folder base : silent (ArchiveExtractor.find_parts folder base).
Proof. by intros w w' r [= <- _]. Qed.

Lemma silent_bind {A B} (m : M A) (k : A -> M B) :
  silent m -> (forall a, silent (k a)) -> silent (bind m k).
Proof.
  intros Hm Hk w w' r H.
  apply bind_inv in H as [(w1 & a & H1 & H2) | (e & H1 & ->)].
  - rewrite (Hk _ _ _ _ H2). by apply (Hm _ _ _ H1).
  - by apply (Hm _ _ _ H1).
Qed.

Lemma silent_ret {A} (a : A) : silent (ret a).
Proof. by intros w w' r [= <- _]. Qed.

Lemma silent_raise {A} e : silent (@raise A e).
Proof. by intros w w' r [= <- _]. Qed.

Lemma silent_path_isdir p : silent (Os.path_isdir p).
Proof. by intros w w' r [= <- _]. Qed.

Lemma silent_mkdir p : silent (Os.mkdir p).
Proof. intros w w' r H. by apply mkdir_inv in H as [? _]. Qed.

Lemma silent_put_member target m : silent (ArchiveExtractor.put_member target m).
Proof.
  destruct m as [data|]; cbn [ArchiveExtractor.put_member].
  - apply silent_bind; [apply silent_open_wb | intros _; apply silent_write].
  - apply silent_bind; [apply silent_path_isdir | intros there].
    destruct there; [apply silent_ret | apply silent_mkdir].
Qed.

(** One entry adds at most the event that it was extracted. *)
Lemma emits_only_extract_entry P dest e :
  (forall t, P (EvExtracted t)) ->
  emits_only P (ArchiveExtractor.extract_entry dest e).
Proof.
  intros HP. unfold ArchiveExtractor.extract_entry.
  destruct (entry_extract e) as [m|residue err]; apply emits_only_bind.
  - apply silent_emits_only, silent_put_member.
  - intros _. by apply emits_only_emit.
  - destruct residue as [m|];
      [apply silent_emits_only, silent_put_member | apply emits_only_ret].
  - intros _. apply emits_only_raise.
Qed.

Lemma silent_copy_parts out parts : silent (ArchiveExtractor.copy_parts out parts).
Proof.
  induction parts as [|p rest IH]; [apply silent_ret |].
  cbn [ArchiveExtractor.copy_parts].
  apply silent_bind; [apply silent_read | intros data].
  apply silent_bind; [apply silent_write | by intros _].
Qed.

Lemma silent_write_merged out parts :
  silent (ArchiveExtractor.write_merged out parts).
Proof.
  apply silent_bind; [apply silent_open_wb | intros _].
  apply silent_bind; [apply silent_copy_parts | intros _; apply silent_ret].
Qed.

Lemma silent_open_archive c path : silent (ArchiveExtractor.open_archive lib c path).
Proof.
  apply silent_bind; [apply silent_read | intros data].
  destruct (lib c data); [apply silent_raise | apply silent_ret].
Qed.

Section Carries.

Context (gb : QArith_base.Q).

Local Abbreviation ok := (emits_only (carries gb)).

Lemma ok_join_zip_parts folder base :
  ok (ArchiveExtractor.join_zip_parts folder base).
Proof.
  apply emits_only_bind; [apply silent_emits_only, silent_find_parts |].
  intros [|p parts]; [apply emits_only_ret |].
  apply emits_only_try_except; [apply silent_emits_only, silent_write_merged |].
  intros e. apply emits_only_bind; [by apply emits_only_emit |].
  intros _. apply emits_only_ret.
Qed.

Lemma ok_extract_entry dest e : ok (ArchiveExtractor.extract_entry dest e).
Proof. by apply emits_only_extract_entry. Qed.

Lemma ok_notify cb i total : ok (ArchiveExtractor.notify cb i total gb).
Proof.
  destruct cb as [f|]; [|apply emits_only_ret]. simpl.
  apply emits_only_bind; [by apply emits_only_emit | intros _].
  destruct (f i total gb); [apply emits_only_raise | apply emits_only_ret].
Qed.

Lemma ok_extract_entries dest cb total i file_list :
  ok (ArchiveExtractor.extract_entries dest gb cb total i file_list).
Proof.
  revert i; induction file_list as [|e rest IH]; intros i; [apply emits_only_ret |].
  cbn [ArchiveExtractor.extract_entries].
  apply emits_only_bind; [apply ok_extract_entry | intros _].
  apply emits_only_bind; [apply ok_notify | intros _]. apply IH.
Qed.

Lemma ok_extract_with c path dest cb :
  ok (ArchiveExtractor.extract_with lib c path dest gb cb).
Proof.
  apply emits_only_bind; [apply silent_emits_only, silent_open_archive |].
  intros file_list.
  apply emits_only_bind; [apply ok_extract_entries | intros _; apply emits_only_ret].
Qed.

Lemma ok_extract_split_zip p dest cb :
  ok (ArchiveExtractor._extract_split_zip lib p dest gb cb).
Proof.
  apply emits_only_bind; [apply ok_join_zip_parts |].
  intros [merged_path|]; [|apply emits_only_ret].
  destruct (String.eqb merged_path ""); [apply emits_only_ret |].
  apply emits_only_try_except; [|intros e; apply emits_only_ret].
  unfold ArchiveExtractor.extract_and_remove.
  apply emits_only_bind; [apply ok_extract_with | intros result].
  apply emits_only_bind; [apply silent_emits_only, silent_path_exists |].
  intros still_there. apply emits_only_bind; [|intros _; apply emits_only_ret].
  destruct still_there; [apply silent_emits_only, silent_remove | apply emits_only_ret].
Qed.

Lemma ok_dispatch p dest cb : ok (ArchiveExtractor.dispatch lib p dest gb cb).
Proof.
  unfold ArchiveExtractor.dispatch.
  destruct (ArchiveExtractor.classify p);
    [apply ok_extract_with .. | apply ok_extract_split_zip | apply emits_only_ret].
Qed.

End Carries.

End Events.

(** ** Successful extraction *)

Section Success.

Context (lib : codec).

Lemma extract_entry_return dest e w w' :
  ArchiveExtractor.extract_entry dest e w = (w', Return tt) ->
  trace w' = trace w ++ [EvExtracted (entry_target e dest)].
Proof.
  unfold ArchiveExtractor.extract_entry. intros H.
  destruct (entry_extract e) as [m|residue err].
  - apply bind_inv in H as [(w1 & [] & H1 & [= <-]) | (e' & _ & [=])].
    simpl. by rewrite (silent_put_member _ _ _ _ _ H1).
  - by apply bind_inv in H as [(w1 & [] & _ & [=]) | (e' & _ & [=])].
Qed.

Lemma notify_return cb i total gb w w' :
  ArchiveExtractor.notify cb i total gb w = (w', Return tt) ->
  trace w' = trace w ++ match cb with
                        | Some _ => [EvProgress i total gb]
                        | None => []
                        end.
Proof.
  destruct cb as [f|]; simpl.
  - intros H. apply bind_inv in H as [(w1 & [] & [= <-] & H) | (e' & _ & [=])].
    by destruct (f i total gb); injection H as <-.
  - intros [= <-]. by rewrite app_nil_r.
Qed.

Lemma extract_entries_return dest gb cb total file_list :
  forall i w w',
  ArchiveExtractor.extract_entries dest gb cb total i file_list w = (w', Return tt) ->
  trace w' = trace w ++ steps dest cb gb total i file_list.
Proof.
  induction file_list as [|e rest IH]; intros i w w' H.
  - injection H as <-. by rewrite app_nil_r.
  - cbn [ArchiveExtractor.extract_entries] in H.
    apply bind_inv in H as [(w1 & [] & H1 & H) | (e' & _ & [=])].
    apply bind_inv in H as [(w2 & [] & H2 & H) | (e' & _ & [=])].
    rewrite (IH _ _ _ H), (notify_return _ _ _ _ _ _ H2),
            (extract_entry_return _ _ _ _ H1).
    cbn [steps]. by rewrite <- !app_assoc.
Qed.

Lemma extract_with_return c path dest gb cb w w' o :
  ArchiveExtractor.extract_with lib c path dest gb cb w = (w', Return o) ->
  exists data file_list,
    fs w !! path = Some (File data) /\ lib c data = inr file_list /\
    trace w' = trace w ++ steps dest cb gb (length file_list) 1 file_list /\
    o = SuccessfullyExtracted (Path.basename path) gb.
Proof.
  unfold ArchiveExtractor.extract_with. intros H.
  apply bind_inv in H as [(w1 & file_list & H1 & H) | (e' & _ & [=])].
  unfold ArchiveExtractor.open_archive in H1.
  apply bind_inv in H1 as [(w0' & data & Hr & H1) | (e' & _ & [=])].
  apply read_inv in Hr as [-> Hdata].
  destruct (lib c data) as [err|l] eqn:Hlib; [done |]. injection H1 as <- <-.
  apply bind_inv in H as [(w2 & [] & H2 & [= <- <-]) | (e' & _ & [=])].
  exists data, l. repeat split; try done.
  by apply extract_entries_return in H2.
Qed.

(** The progress calls among the steps: one per entry, numbered upwards. *)
Lemma progress_calls_steps dest f gb total file_list i :
  progress_calls (steps dest (Some f) gb total i file_list) =
  (fun k => (k, total, gb)) <$> seq i (length file_list).
Proof.
  revert i; induction file_list as [|e rest IH]; intros i; [done |].
  cbn [steps]. unfold progress_calls in *. simpl. by rewrite IH.
Qed.

Lemma progress_calls_steps_none dest gb total file_list i :
  progress_calls (steps dest None gb total i file_list) = [].
Proof.
  revert i; induction file_list as [|e rest IH]; intros i; [done |].
  cbn [steps]. unfold progress_calls in *. simpl. by rewrite IH.
Qed.

(** Where the events of entry number [k] (from 0) stand: the extraction
    comes first, its progress call right after it. *)
Lemma steps_positions dest f gb total file_list :
  forall i k e,
    file_list !! k = Some e ->
    steps dest (Some f) gb total i file_list !! (2 * k)
      = Some (EvExtracted (entry_target e dest)) /\
    steps dest (Some f) gb total i file_list !! (2 * k + 1)
      = Some (EvProgress (i + k) total gb).
Proof.
  induction file_list as [|e0 rest IH]; intros i k e Hk; [done |].
  destruct k as [|k].
  - injection Hk as ->. cbn [steps]. simpl. by rewrite Nat.add_0_r.
  - replace (2 * S k) with (S (S (2 * k))) by lia.
    replace (i + S k) with (S i + k) by lia.
    cbn [steps]. simpl. by apply IH.
Qed.

(** A successful run of the split-ZIP handler opened the archive made of the
    segments of the leading run. *)
Lemma extract_split_zip_return p dest gb cb w w' name g :
  ArchiveExtractor._extract_split_zip lib p dest gb cb w
    = (w', Return (SuccessfullyExtracted name g)) ->
  let folder := Path.dirname p in
  let base := Str.split_head ".zip." (Path.basename p) in
  exists n file_list,
    1 <= n /\ leading_run (fs w) folder base n /\
    lib ZipFile (segments_bytes (fs w) folder base n) = inr file_list /\
    trace w' = trace w ++ steps dest cb gb (length file_list) 1 file_list /\
    g = gb /\
    fs w' !! ArchiveExtractor.merged_path_of folder base = None.
Proof.
  intros H folder base. unfold ArchiveExtractor._extract_split_zip in H.
  fold folder base in H.
  apply bind_inv in H as [(w1 & merged & Hjoin & H) | (e' & _ & [=])].
  destruct merged as [merged_path|]; [|done].
  destruct (String.eqb merged_path ""); [done |].
  destruct (join_zip_parts_unfold folder base w) as (n & Hrun & Hj).
  rewrite Hjoin in Hj. destruct n as [|n]; [done |]. symmetry in Hj.
  apply try_except_inv in Hj
    as [(a & Hw & [= <-]) | [(w2 & e & _ & _ & Hh) | (e & _ & _ & [=])]].
  2:{ by apply bind_inv in Hh as [(? & ? & _ & [=]) | (? & _ & [=])]. }
  pose proof (write_merged_return_inv _ _ _ _ _ _ Hw) as [Hnd Hfiles].
  rewrite (write_merged_files _ _ _ _ Hfiles Hnd) in Hw. injection Hw as <- <-.
  apply try_except_inv in H
    as [(a & H & [= <-]) | [(w2 & e & _ & _ & [=]) | (e & _ & _ & [=])]].
  unfold ArchiveExtractor.extract_and_remove in H.
  apply bind_inv in H as [(w2 & result & Hx & H) | (e' & _ & [=])].
  apply extract_with_return in Hx as (data & file_list & Hdata & Hlib & Htr & ->).
  simpl in Hdata. rewrite lookup_insert_eq in Hdata. injection Hdata as <-.
  apply bind_inv in H as [(w3 & there & [= <- <-] & H) | (e' & _ & [=])].
  apply bind_inv in H as [(w4 & [] & Hrm & [= <- _ <-]) | (e' & _ & [=])].
  exists (S n), file_list.
  split; [lia |]. split; [done |]. split; [done |].
  simpl in Htr. rewrite <- Htr.
  case_bool_decide as Hstill.
  - pose proof (remove_inv _ _ _ _ Hrm) as [Ht Hfs]. simpl in Hfs.
    split; [done |]. split; [done |]. by rewrite Hfs, lookup_delete_eq.
  - injection Hrm as <-. split; [done |]. split; [done |].
    by apply eq_None_not_Some.
Qed.

End Success.

(** ** What the handlers catch *)

Section Handlers.

Context (lib : codec).

Lemma listed_or_other (c : exn_class) :
  c ∈ [BadZipFile; RarError; Bad7zFile; OSError] \/ c = OtherError.
Proof. destruct c; [left; set_solver .. | by right]. Qed.

Lemma join_zip_parts_some folder base w w1 merged_path :
  ArchiveExtractor.join_zip_parts folder base w = (w1, Return (Some merged_path)) ->
  merged_path = ArchiveExtractor.merged_path_of folder base.
Proof.
  intros H. destruct (join_zip_parts_unfold folder base w) as (n & _ & Hj).
  rewrite H in Hj. destruct n as [|n]; [done |]. symmetry in Hj.
  apply try_except_inv in Hj
    as [(a & Hw & [= <-]) | [(w2 & e & _ & _ & Hh) | (e & _ & _ & [=])]].
  - unfold ArchiveExtractor.write_merged in Hw.
    apply bind_inv in Hw as [(w2 & [] & _ & Hw) | (e' & _ & [=])].
    by apply bind_inv in Hw as [(w3 & [] & _ & [= _ <-]) | (e' & _ & [=])].
  - by apply bind_inv in Hh as [(? & ? & _ & [=]) | (? & _ & [=])].
Qed.

(** The joiner itself never raises: it catches the only errors that its
    body can raise. *)
Lemma join_zip_parts_no_raise folder base w w1 e :
  ArchiveExtractor.join_zip_parts folder base w <> (w1, Raise e).
Proof.
  intros H. destruct (join_zip_parts_unfold folder base w) as (n & _ & Hj).
  rewrite H in Hj. destruct n as [|n]; [done |]. symmetry in Hj.
  apply try_except_inv in Hj
    as [(a & Hw & [=]) | [(w2 & e' & _ & _ & Hh) | (e' & Hw & Hnin & _)]].
  - by apply bind_inv in Hh as [(? & ? & _ & [=]) | (? & [=] & _)].
  - apply write_merged_raises in Hw as [Hcls _]. rewrite Hcls in Hnin.
    by apply Hnin, list_elem_of_singleton.
Qed.

End Handlers.

(** ** The temporary file of a split archive *)

Section TemporaryFile.

Context (lib : codec).

Lemma keeps_ret {A} (a : A) : keeps_paths (ret a).
Proof. by intros w w' r q [= <- _]. Qed.

Lemma keeps_raise {A} e : keeps_paths (@raise A e).
Proof. by intros w w' r q [= <- _]. Qed.

Lemma keeps_emit ev : keeps_paths (emit ev).
Proof. by intros w w' r q [= <- _]. Qed.

Lemma keeps_bind {A B} (m : M A) (k : A -> M B) :
  keeps_paths m -> (forall a, keeps_paths (k a)) -> keeps_paths (bind m k).
Proof.
  intros Hm Hk w w' r q H Hq.
  apply bind_inv in H as [(w1 & a & H1 & H2) | (e & H1 & ->)].
  - eapply Hk; [done |]. by eapply Hm.
  - by eapply Hm.
Qed.

Lemma keeps_read p : keeps_paths (Os.read p).
Proof. intros w w' r q H. by apply read_inv in H as [-> _]. Qed.

Lemma keeps_open_wb p : keeps_paths (Os.open_wb p).
Proof.
  intros w w' [[]|e] q H Hq; apply open_wb_inv in H.
  - subst w'. simpl. rewrite lookup_insert. by case_decide.
  - by destruct H as [-> _].
Qed.

Lemma keeps_write p data : keeps_paths (Os.write p data).
Proof.
  intros w w' [[]|e] q H Hq; apply write_inv in H as [_ H].
  - destruct H as (old & _ & ->). rewrite lookup_insert. by case_decide.
  - by destruct H as [-> _].
Qed.

Lemma keeps_mkdir p : keeps_paths (Os.mkdir p).
Proof.
  intros w w' [[]|e] q H Hq; apply mkdir_inv in H as [_ H].
  - destruct H as [_ ->]. rewrite lookup_insert. by case_decide.
  - by destruct H as [-> _].
Qed.

Lemma keeps_put_member target m :
  keeps_paths (ArchiveExtractor.put_member target m).
Proof.
  destruct m as [data|]; cbn [ArchiveExtractor.put_member].
  - apply keeps_bind; [apply keeps_open_wb | intros _; apply keeps_write].
  - apply keeps_bind; [by intros w w' r q [= <- _] | intros there].
    destruct there; [apply keeps_ret | apply keeps_mkdir].
Qed.

(** Extracting an entry deletes nothing. *)
Lemma keeps_extract_entry dest e :
  keeps_paths (ArchiveExtractor.extract_entry dest e).
Proof.
  unfold ArchiveExtractor.extract_entry.
  destruct (entry_extract e) as [m|residue err]; apply keeps_bind.
  - apply keeps_put_member.
  - intros _. apply keeps_emit.
  - destruct residue as [m|]; [apply keeps_put_member | apply keeps_ret].
  - intros _. apply keeps_raise.
Qed.

Lemma keeps_extract_entries dest gb cb total file_list :
  forall i,
    keeps_paths (ArchiveExtractor.extract_entries dest gb cb total i file_list).
Proof.
  induction file_list as [|e rest IH]; intros i; [apply keeps_ret |].
  cbn [ArchiveExtractor.extract_entries].
  apply keeps_bind; [|intros _; apply keeps_bind; [|intros _; apply IH]].
  - apply keeps_extract_entry.
  - destruct cb as [f|]; [|apply keeps_ret]. simpl.
    apply keeps_bind; [apply keeps_emit | intros _].
    destruct (f i total gb); [apply keeps_raise | apply keeps_ret].
Qed.

Lemma keeps_extract_with c path dest gb cb :
  keeps_paths (ArchiveExtractor.extract_with lib c path dest gb cb).
Proof.
  apply keeps_bind.
  - apply keeps_bind; [apply keeps_read | intros data].
    destruct (lib c data); [apply keeps_raise | apply keeps_ret].
  - intros file_list.
    apply keeps_bind; [apply keeps_extract_entries | intros _; apply keeps_ret].
Qed.

(** On the success path the merged file is removed before the call
    returns. *)
Lemma merged_file_removed_on_success w w' p dest cb name gb :
  ArchiveExtractor.classify p = SplitZip ->
  ArchiveExtractor.extract_archive lib p dest cb w
    = (w', Return (SuccessfullyExtracted name gb)) ->
  fs w' !! ArchiveExtractor.merged_path_of (Path.dirname p)
             (Str.split_head ".zip." (Path.basename p)) = None.
Proof.
  intros Hsplit Hrun.
  destruct (fs w !! p) as [nd|] eqn:Hp;
    [|by rewrite extract_archive_missing in Hrun].
  rewrite extract_archive_present in Hrun by (by rewrite Hp).
  apply try_except_inv in Hrun
    as [(o & Hd & [= <-]) | [(w1 & e & _ & _ & [=]) | (e & _ & _ & [=])]].
  unfold ArchiveExtractor.dispatch in Hd. rewrite Hsplit in Hd.
  by apply extract_split_zip_return in Hd as (n & l & _ & _ & _ & _ & _ & Hgone).
Qed.

(** On the failure path it is not: when extracting the merged archive
    raises an error that the handler of [_extract_split_zip] catches, the
    call returns the "Error extracting parts" text and the merged file is
    still there. *)
Lemma merged_file_left_on_failure w w1 w2 p dest cb merged_path e :
  is_Some (fs w !! p) ->
  ArchiveExtractor.classify p = SplitZip ->
  ArchiveExtractor.join_zip_parts (Path.dirname p)
    (Str.split_head ".zip." (Path.basename p)) w
    = (w1, Return (Some merged_path)) ->
  ArchiveExtractor._extract_zip lib merged_path dest (source_gb (fs w) p) cb w1
    = (w2, Raise e) ->
  exn_cls e = BadZipFile \/ exn_cls e = OSError ->
  ArchiveExtractor.extract_archive lib p dest cb w
    = (w2, Return (ErrorExtractingParts (exn_msg e))) /\
  is_file (fs w1) merged_path /\
  is_Some (fs w2 !! merged_path).
Proof.
  intros Hthere Hsplit Hjoin Hx Hcls.
  assert (Hfile : is_file (fs w1) merged_path).
  { destruct (join_zip_parts_unfold (Path.dirname p)
                (Str.split_head ".zip." (Path.basename p)) w) as (n & _ & Hj).
    rewrite Hjoin in Hj. destruct n as [|n]; [done |]. symmetry in Hj.
    apply try_except_inv in Hj
      as [(a & Hw & [= <-]) | [(w3 & e' & _ & _ & Hh) | (e' & _ & _ & [=])]].
    2:{ by apply bind_inv in Hh as [(? & ? & _ & [=]) | (? & _ & [=])]. }
    pose proof (write_merged_return_inv _ _ _ _ _ _ Hw) as [Hnd Hfiles].
    rewrite (write_merged_files _ _ _ _ Hfiles Hnd) in Hw.
    injection Hw as <- <-. eexists. simpl. apply lookup_insert_eq. }
  split; [|split; [done |]].
  - rewrite extract_archive_present by done.
    apply try_except_return.
    unfold ArchiveExtractor.dispatch. rewrite Hsplit.
    unfold ArchiveExtractor._extract_split_zip.
    rewrite (bind_return _ _ _ _ _ Hjoin).
    rewrite (join_zip_parts_some _ _ _ _ _ Hjoin) in *.
    destruct (String.eqb_spec (ArchiveExtractor.merged_path_of (Path.dirname p)
                (Str.split_head ".zip." (Path.basename p))) "") as [E|_];
      [by apply merged_nonempty in E |].
    rewrite (try_except_caught _ _ _ _ w2 e).
    + done.
    + unfold ArchiveExtractor.extract_and_remove. by rewrite (bind_raise _ _ _ _ _ Hx).
    + destruct Hcls as [-> | ->]; set_solver.
  - eapply keeps_extract_with; [exact Hx |]. destruct Hfile as [d Hd]. by eexists.
Qed.

End TemporaryFile.

(** ** The earlier script *)

Section Earlier.

Context (lib : codec).

(** It raises at once for a missing source. *)
Lemma unzipfull_missing_source w p dest cb :
  fs w !! p = None ->
  UnzipFull.extract_archive lib p dest cb w
  = (w, Raise (Exn OSError "No such file or directory")).
Proof.
  intros H. unfold UnzipFull.extract_archive.
  by rewrite (bind_raise _ _ _ _ _ (getsize_missing _ _ H)).
Qed.

(** With segment 1 missing it reports that the parts were not found, as the
    class does (with the whole path in the text). *)
Lemma unzipfull_without_first_segment w p dest cb :
  is_Some (fs w !! p) ->
  ArchiveExtractor.classify p = SplitZip ->
  fs w !! ArchiveExtractor.part_path (Path.dirname p)
            (Str.split_head ".zip." (Path.basename p)) 1 = None ->
  UnzipFull.extract_archive lib p dest cb w
  = (w, Return (PartsNotFound p (source_gb (fs w) p))).
Proof.
  intros [nd Hp] Hsplit Hmissing. unfold UnzipFull.extract_archive.
  assert (Hsize : Os.getsize p w = (w, Return (node_size nd)))
    by (destruct nd; [by apply getsize_file | by apply getsize_dir]).
  rewrite (bind_return _ _ _ _ _ Hsize).
  apply try_except_return.
  unfold ArchiveExtractor.classify in Hsplit.
  destruct (Str.endswith (Str.lower p) ".zip"); [done |].
  destruct (Str.endswith (Str.lower p) ".rar"); [done |].
  destruct (Str.endswith (Str.lower p) ".7z"); [done |].
  destruct (Str.contains ".zip." (Str.lower p)); [|done].
  unfold UnzipFull.juntar_partes_zip.
  destruct w as [f tr].
  destruct (find_parts_run f (Path.dirname p)
              (Str.split_head ".zip." (Path.basename p)) tr) as (n & Hrun & Hfind).
  rewrite (leading_run_unique _ _ _ _ _ Hrun (leading_run_0 _ _ _ Hmissing)) in Hfind.
  rewrite (bind_return _ _ _ _ _ (bind_return _ _ _ _ _ Hfind)).
  unfold source_gb. simpl in Hp |- *. by rewrite Hp.
Qed.

(** What gets out of the earlier script. *)
Lemma unzipfull_raise_classes p dest cb w w' e :
  UnzipFull.extract_archive lib p dest cb w = (w', Raise e) ->
  exn_cls e = OSError \/ exn_cls e = OtherError.
Proof.
  unfold UnzipFull.extract_archive. intros H.
  apply bind_inv in H as [(w1 & n & _ & H) | (e' & H & [= <-])].
  - apply try_except_inv in H
      as [(a & _ & [=]) | [(w2 & e' & _ & _ & [=]) | (e' & _ & Hnin & [= <-])]].
    destruct (exn_cls e) eqn:E; [exfalso; apply Hnin; set_solver .. | |];
      [by left | by right].
  - unfold Os.getsize in H.
    apply bind_inv in H as [(w1 & f & [= <- <-] & H) | (e' & [=] & _)].
    destruct (fs w !! p) as [[data|n]|]; [done .. |]. injection H as _ <-.
    by left.
Qed.

End Earlier.

(** ** The state in which a progress call is made *)

Section AtTheCall.

Context (lib : codec).

Lemma put_member_puts target m w w' :
  ArchiveExtractor.put_member target m w = (w', Return tt) ->
  match m with
  | RegularFile data => fs w' !! target = Some (File data)
  | Directory => is_dir (fs w') target
  end.
Proof.
  destruct m as [data|]; cbn [ArchiveExtractor.put_member]; intros H.
  - apply bind_inv in H as [(w1 & [] & H1 & H) | (e' & _ & [=])].
    apply open_wb_inv in H1 as ->.
    apply write_inv in H as [_ (old & Hold & ->)]. simpl in Hold.
    rewrite lookup_insert_eq in Hold. injection Hold as <-.
    by rewrite lookup_insert_eq.
  - apply bind_inv in H as [(w1 & there & [= <- <-] & H) | (e' & [=] & _)].
    unfold is_dir. destruct (fs w !! target) as [[d|n]|] eqn:E.
    + apply mkdir_inv in H as [_ [_ ->]]. rewrite lookup_insert_eq. by eexists.
    + injection H as <-. rewrite E. by eexists.
    + apply mkdir_inv in H as [_ [_ ->]]. rewrite lookup_insert_eq. by eexists.
Qed.

(** When [extract] returns, the member is at its target. *)
Lemma extract_entry_puts dest e w w' :
  ArchiveExtractor.extract_entry dest e w = (w', Return tt) ->
  put_at (fs w') dest e.
Proof.
  unfold ArchiveExtractor.extract_entry, put_at.
  destruct (entry_extract e) as [m|residue err]; intros H.
  - apply bind_inv in H as [(w1 & [] & H1 & [= <-]) | (e' & _ & [=])].
    simpl. by apply put_member_puts in H1.
  - by apply bind_inv in H as [(w1 & [] & _ & [=]) | (e' & _ & [=])].
Qed.

Lemma notify_some_return f i total gb w w' :
  ArchiveExtractor.notify (Some f) i total gb w = (w', Return tt) ->
  f i total gb = None /\
  w' = World (fs w) (trace w ++ [EvProgress i total gb]).
Proof.
  cbn [ArchiveExtractor.notify]. intros H.
  apply bind_inv in H as [(w1 & [] & [= <-] & H) | (e' & [=] & _)].
  destruct (f i total gb); [done |]. by injection H as <-.
Qed.

Lemma stop_at_here k err f total gb : stop_at k err f k total gb = Some err.
Proof. unfold stop_at. by rewrite Nat.eqb_refl. Qed.

Lemma stop_at_before k err f i total gb :
  i <> k -> stop_at k err f i total gb = f i total gb.
Proof. intros Hne. unfold stop_at. by apply Nat.eqb_neq in Hne as ->. Qed.

(** The loop of a successful run, stopped at the call for entry number [k]
    (from 0): that entry has been put at its target, and the events so far are
    those of the successful run up to that call. *)
Lemma extract_entries_stop dest gb f err total file_list :
  forall i w w',
    ArchiveExtractor.extract_entries dest gb (Some f) total i file_list w
      = (w', Return tt) ->
    forall k e, file_list !! k = Some e ->
    exists wk,
      ArchiveExtractor.extract_entries dest gb (Some (stop_at (i + k) err f))
        total i file_list w = (wk, Raise err) /\
      put_at (fs wk) dest e /\
      trace wk = trace w ++
                 take (2 * S k) (steps dest (Some f) gb total i file_list).
Proof.
  induction file_list as [|e0 rest IH]; intros i w w' H k e Hk; [done |].
  cbn [ArchiveExtractor.extract_entries] in H |- *.
  apply bind_inv in H as [(w1 & [] & H1 & H) | (e' & _ & [=])].
  apply bind_inv in H as [(w2 & [] & H2 & H) | (e' & _ & [=])].
  apply notify_some_return in H2 as [Hf ->].
  rewrite (bind_return _ _ _ _ _ H1).
  pose proof (extract_entry_return _ _ _ _ H1) as E1.
  destruct k as [|k].
  - injection Hk as ->. rewrite Nat.add_0_r.
    exists (World (fs w1) (trace w1 ++ [EvProgress i total gb])).
    split; [|split].
    + unfold bind at 1. cbn [ArchiveExtractor.notify]. unfold bind, emit.
      by rewrite stop_at_here.
    + by apply extract_entry_puts in H1.
    + simpl. rewrite E1. cbn [steps]. by rewrite <- app_assoc.
  - destruct (IH _ _ _ H k e Hk) as (wk & Hrun & Hput & Htr).
    exists wk. split; [|split; [done |]].
    + unfold bind at 1. cbn [ArchiveExtractor.notify]. unfold bind at 1, emit.
      rewrite stop_at_before by lia. rewrite Hf. unfold ret.
      by replace (i + S k) with (S i + k) by lia.
    + rewrite Htr. simpl. rewrite E1, <- !app_assoc. cbn [steps].
      by replace (k + S (S (k + 0))) with (S (k + S (k + 0))) by lia.
Qed.

Lemma open_archive_file c path w data file_list :
  fs w !! path = Some (File data) -> lib c data = inr file_list ->
  ArchiveExtractor.open_archive lib c path w = (w, Return file_list).
Proof.
  intros Hdata Hlib. unfold ArchiveExtractor.open_archive.
  rewrite (bind_return _ _ _ _ _ (read_file _ _ _ Hdata)). by rewrite Hlib.
Qed.

Lemma extract_with_stop c path dest gb f w w' o data file_list :
  fs w !! path = Some (File data) -> lib c data = inr file_list ->
  ArchiveExtractor.extract_with lib c path dest gb (Some f) w = (w', Return o) ->
  forall k e err, file_list !! k = Some e ->
  exists wk,
    ArchiveExtractor.extract_with lib c path dest gb (Some (stop_at (S k) err f)) w
      = (wk, Raise err) /\
    put_at (fs wk) dest e /\
    trace wk = trace w ++
               take (2 * S k)
                 (steps dest (Some f) gb (length file_list) 1 file_list).
Proof.
  intros Hdata Hlib H k e err Hk.
  pose proof (open_archive_file _ _ _ _ _ Hdata Hlib) as Hopen.
  unfold ArchiveExtractor.extract_with in H |- *.
  rewrite (bind_return _ _ _ _ _ Hopen) in H.
  rewrite (bind_return _ _ _ _ _ Hopen).
  apply bind_inv in H as [(w2 & [] & H & _) | (e' & _ & [=])].
  destruct (extract_entries_stop _ _ _ err _ _ _ _ _ H k e Hk)
    as (wk & Hrun & Hput & Htr).
  exists wk. split; [|done]. by rewrite (bind_raise _ _ _ _ _ Hrun).
Qed.

(** The same for the body of [extract_archive], with the list of the entries
    that the successful run extracted. *)
Lemma dispatch_success_stop p dest gb f w w' name g :
  ArchiveExtractor.dispatch lib p dest gb (Some f) w
    = (w', Return (SuccessfullyExtracted name g)) ->
  exists file_list,
    lists_entries lib (fs w) p file_list /\
    trace w' = trace w ++ steps dest (Some f) gb (length file_list) 1 file_list /\
    g = gb /\
    forall k e err, file_list !! k = Some e -> exn_cls err = OtherError ->
      exists wk,
        ArchiveExtractor.dispatch lib p dest gb (Some (stop_at (S k) err f)) w
          = (wk, Raise err) /\
        put_at (fs wk) dest e /\
        trace wk = trace w ++
                   take (2 * S k)
                     (steps dest (Some f) gb (length file_list) 1 file_list).
Proof.
  unfold ArchiveExtractor.dispatch, lists_entries.
  unfold ArchiveExtractor._extract_zip, ArchiveExtractor._extract_rar,
    ArchiveExtractor._extract_7z.
  intros Hd. destruct (ArchiveExtractor.classify p); [| | | |done].
  - pose proof (extract_with_return lib _ _ _ _ _ _ _ _ Hd)
      as (data & file_list & Hdata & Hlib & Htr & [= _ ->]).
    exists file_list. split; [by exists data |]. split; [done |]. split; [done |].
    intros k e err Hk _. by eapply extract_with_stop.
  - pose proof (extract_with_return lib _ _ _ _ _ _ _ _ Hd)
      as (data & file_list & Hdata & Hlib & Htr & [= _ ->]).
    exists file_list. split; [by exists data |]. split; [done |]. split; [done |].
    intros k e err Hk _. by eapply extract_with_stop.
  - pose proof (extract_with_return lib _ _ _ _ _ _ _ _ Hd)
      as (data & file_list & Hdata & Hlib & Htr & [= _ ->]).
    exists file_list. split; [by exists data |]. split; [done |]. split; [done |].
    intros k e err Hk _. by eapply extract_with_stop.
  - unfold ArchiveExtractor._extract_split_zip in Hd |- *.
    set (folder := Path.dirname p) in *.
    set (base := Str.split_head ".zip." (Path.basename p)) in *.
    apply bind_inv in Hd as [(w1 & merged & Hjoin & H) | (e' & _ & [=])].
    destruct merged as [merged_path|]; [|done].
    pose proof (join_zip_parts_some _ _ _ _ _ Hjoin) as ->.
    destruct (String.eqb_spec (ArchiveExtractor.merged_path_of folder base) "")
      as [E|_]; [by apply merged_nonempty in E |].
    destruct (join_zip_parts_unfold folder base w) as (n & Hrun & Hj).
    rewrite Hjoin in Hj. destruct n as [|n]; [done |]. symmetry in Hj.
    apply try_except_inv in Hj
      as [(a & Hw & [= <-]) | [(w2 & e & _ & _ & Hh) | (e & _ & _ & [=])]].
    2:{ by apply bind_inv in Hh as [(? & ? & _ & [=]) | (? & _ & [=])]. }
    pose proof (write_merged_return_inv _ _ _ _ _ _ Hw) as [Hnd Hfiles].
    rewrite (write_merged_files _ _ _ _ Hfiles Hnd) in Hw. injection Hw as <-.
    apply try_except_inv in H
      as [(a & H & [= <-]) | [(w2 & e & _ & _ & [=]) | (e & _ & _ & [=])]].
    unfold ArchiveExtractor.extract_and_remove, ArchiveExtractor._extract_zip in H.
    apply bind_inv in H as [(w2 & result & Hx & H) | (e' & _ & [=])].
    pose proof (extract_with_return lib _ _ _ _ _ _ _ _ Hx)
      as (data & file_list & Hdata & Hlib & Htr & ->).
    simpl in Hdata. rewrite lookup_insert_eq in Hdata. injection Hdata as <-.
    apply bind_inv in H as [(w3 & there & [= <- <-] & H) | (e' & _ & [=])].
    apply bind_inv in H as [(w4 & [] & Hrm & [= <- _ <-]) | (e' & _ & [=])].
    assert (Htr4 : trace w4 = trace w2)
      by (destruct (bool_decide _);
          [by apply silent_remove in Hrm | by injection Hrm as <-]).
    exists file_list.
    split; [exists (S n); split; [lia | by split] |].
    split; [by rewrite Htr4, Htr |]. split; [done |].
    intros k e err Hk Hcls.
    destruct (extract_with_stop ZipFile _ dest gb f _ _ _ _ _
                (lookup_insert_eq _ _ _) Hlib Hx k e err Hk)
      as (wk & Hstop & Hput & Htrk).
    exists wk. split; [|done].
    rewrite (bind_return _ _ _ _ _ Hjoin).
    destruct (String.eqb_spec (ArchiveExtractor.merged_path_of folder base) "")
      as [E|_]; [by apply merged_nonempty in E |].
    apply try_except_passed.
    + unfold ArchiveExtractor.extract_and_remove, ArchiveExtractor._extract_zip.
      by rewrite (bind_raise _ _ _ _ _ Hstop).
    + rewrite Hcls. by apply (bool_decide_unpack _).
Qed.

End AtTheCall.

(** ** Exceptions raised by the callback *)

Section CallbackFaults.

Context (lib : codec) (f : callback).

(** Whenever a call of [f] during [m] raised an exception of an unnamed
    class, [m] ended with that exception. *)
Local Abbreviation lets_out m :=
  (forall w w' r, m w = (w', r) ->
     exists evs, trace w' = trace w ++ evs /\
       forall i total gb err,
         EvProgress i total gb ∈ evs -> f i total gb = Some err ->
         exn_cls err = OtherError -> r = Raise err).

Lemma lets_out_quiet {A} (m : M A) : emits_only not_progress m -> lets_out m.
Proof.
  intros Hm w w' r H. destruct (Hm _ _ _ H) as (evs & E & Q).
  exists evs. split; [done |]. intros i total gb err Hin.
  rewrite Forall_forall in Q. by destruct (Q _ Hin).
Qed.

Lemma lets_out_bind {A B} (m : M A) (k : A -> M B) :
  lets_out m -> (forall a, lets_out (k a)) -> lets_out (bind m k).
Proof.
  intros Hm Hk w w' r H.
  apply bind_inv in H as [(w1 & a & H1 & H2) | (e & H1 & ->)].
  - destruct (Hm _ _ _ H1) as (evs1 & E1 & T1).
    destruct (Hk a _ _ _ H2) as (evs2 & E2 & T2).
    exists (evs1 ++ evs2). rewrite E2, E1, app_assoc. split; [done |].
    intros i total gb err [Hin | Hin]%elem_of_app Hf Hcls; [|by eapply T2].
    by specialize (T1 _ _ _ _ Hin Hf Hcls).
  - destruct (Hm _ _ _ H1) as (evs1 & E1 & T1).
    exists evs1. split; [done |]. intros i total gb err Hin Hf Hcls.
    by injection (T1 _ _ _ _ Hin Hf Hcls) as ->.
Qed.

Lemma lets_out_try_except {A} (m : M A) classes h :
  OtherError ∉ classes ->
  lets_out m -> (forall e, emits_only not_progress (h e)) ->
  lets_out (try_except m classes h).
Proof.
  intros Hother Hm Hh w w' r H.
  apply try_except_inv in H
    as [(a & H1 & ->) | [(w1 & e & H1 & Hin & H2) | (e & H1 & _ & ->)]].
  - by apply (Hm _ _ _ H1).
  - destruct (Hm _ _ _ H1) as (evs1 & E1 & T1).
    destruct (Hh e _ _ _ H2) as (evs2 & E2 & Q2).
    exists (evs1 ++ evs2). rewrite E2, E1, app_assoc. split; [done |].
    intros i total gb err [Hev | Hev]%elem_of_app Hf Hcls.
    + injection (T1 _ _ _ _ Hev Hf Hcls) as ->. by rewrite Hcls in Hin.
    + rewrite Forall_forall in Q2. by destruct (Q2 _ Hev).
  - by apply (Hm _ _ _ H1).
Qed.

Lemma lets_out_notify i total gb :
  lets_out (ArchiveExtractor.notify (Some f) i total gb).
Proof.
  intros w w' r H. cbn [ArchiveExtractor.notify] in H.
  apply bind_inv in H as [(w1 & [] & [= <-] & H) | (e' & [=] & _)].
  exists [EvProgress i total gb]. split.
  - by destruct (f i total gb); injection H as <- _.
  - intros i' total' gb' err [= -> -> ->]%list_elem_of_singleton Hf _.
    rewrite Hf in H. by injection H as _ <-.
Qed.

Lemma lets_out_extract_entries dest gb total file_list :
  forall i,
    lets_out (ArchiveExtractor.extract_entries dest gb (Some f) total i file_list).
Proof.
  induction file_list as [|e rest IH]; intros i;
    [apply lets_out_quiet, emits_only_ret |].
  cbn [ArchiveExtractor.extract_entries].
  apply lets_out_bind; [by apply lets_out_quiet, emits_only_extract_entry |].
  intros _. apply lets_out_bind; [apply lets_out_notify | intros _; apply IH].
Qed.

Lemma lets_out_extract_with c path dest gb :
  lets_out (ArchiveExtractor.extract_with lib c path dest gb (Some f)).
Proof.
  apply lets_out_bind;
    [apply lets_out_quiet, silent_emits_only, silent_open_archive |].
  intros file_list.
  apply lets_out_bind; [apply lets_out_extract_entries |].
  intros _. apply lets_out_quiet, emits_only_ret.
Qed.

Lemma lets_out_dispatch p dest gb :
  lets_out (ArchiveExtractor.dispatch lib p dest gb (Some f)).
Proof.
  unfold ArchiveExtractor.dispatch, ArchiveExtractor._extract_zip,
    ArchiveExtractor._extract_rar, ArchiveExtractor._extract_7z.
  destruct (ArchiveExtractor.classify p);
    [apply lets_out_extract_with .. | | apply lets_out_quiet, emits_only_ret].
  apply lets_out_bind.
  { apply lets_out_quiet, emits_only_bind;
      [apply silent_emits_only, silent_find_parts |].
    intros [|q parts]; [apply emits_only_ret |].
    apply emits_only_try_except; [apply silent_emits_only, silent_write_merged |].
    intros e. apply emits_only_bind; [by apply emits_only_emit |].
    intros _. apply emits_only_ret. }
  intros [merged_path|]; [|apply lets_out_quiet, emits_only_ret].
  destruct (String.eqb merged_path ""); [apply lets_out_quiet, emits_only_ret |].
  apply lets_out_try_except;
    [by apply (bool_decide_unpack _) | | intros e; apply emits_only_ret].
  apply lets_out_bind; [apply lets_out_extract_with | intros result].
  apply lets_out_quiet.
  apply emits_only_bind; [apply silent_emits_only, silent_path_exists |].
  intros still_there. apply emits_only_bind; [|intros _; apply emits_only_ret].
  destruct still_there;
    [apply silent_emits_only, silent_remove | apply emits_only_ret].
Qed.

Lemma lets_out_extract_archive p dest :
  lets_out (ArchiveExtractor.extract_archive lib p dest (Some f)).
Proof.
  intros w w' r H. destruct (fs w !! p) as [nd|] eqn:Hp.
  - rewrite extract_archive_present in H by (by rewrite Hp).
    refine (lets_out_try_except _ _ _ _ (lets_out_dispatch _ _ _) _ _ _ _ H);
      [by apply (bool_decide_unpack _) | intros e; apply emits_only_ret].
  - rewrite extract_archive_missing in H by done. injection H as <- _.
    exists []. rewrite app_nil_r. split; [done |].
    by intros i total gb err Hin%elem_of_nil.
Qed.

End CallbackFaults.

(** * The claims *)

(** C8.  When the source path does not exist at call time, [extract_archive]
    returns the "File not found" outcome (kind NotFound) at once: the world is
    left as it was, so no size was read, nothing was written and the progress
    callback was not called. *)
Theorem extract_missing_source_not_found
    (lib : codec) (w : world) (p dest : string) (cb : option callback) :
  fs w !! p = None ->
  ArchiveExtractor.extract_archive lib p dest cb w = (w, Return (FileNotFound p)) /\
  kind_of (FileNotFound p) = Failed NotFound.
Proof.
  intros Hmissing. split; [|done]. by apply extract_archive_missing.
Qed.

Lemma extract_missing_source_not_found_witness :
  fs w0 !! "/tmp/does_not_exist.zip" = None /\
  ArchiveExtractor.extract_archive demo_lib "/tmp/does_not_exist.zip" "/out"
    (Some quiet) w0
  = (w0, Return (FileNotFound "/tmp/does_not_exist.zip")).
Proof.
  split; [reflexivity |].
  apply (extract_missing_source_not_found demo_lib w0
           "/tmp/does_not_exist.zip" "/out" (Some quiet)).
  reflexivity.
Defined.

(** C5.  When segment 1 exists, the joiner collects the leading contiguous
    run of segments [{base}.zip.001], [{base}.zip.002], ... (the run ends at
    the first index whose file does not exist, and such an index always
    exists).  When these segments can be read and the output can be opened,
    it leaves a file [{base}_merged.zip] in the same folder whose bytes are
    the bytes of the segments of the run, concatenated in ascending order,
    changes nothing else, and returns the path of that file. *)
Theorem join_zip_parts_concatenates (w : world) (folder base : string) :
  is_Some (fs w !! Path.join folder (base +:+ ".zip." +:+ "001")) ->
  (exists n, 1 <= n /\ leading_run (fs w) folder base n) /\
  (forall n,
     leading_run (fs w) folder base n ->
     (forall i, 1 <= i <= n ->
        is_file (fs w) (ArchiveExtractor.part_path folder base i)) ->
     ~ is_dir (fs w) (Path.join folder (base +:+ "_merged.zip")) ->
     ArchiveExtractor.join_zip_parts folder base w =
       (World (<[Path.join folder (base +:+ "_merged.zip") :=
                   File (segments_bytes (fs w) folder base n)]> (fs w))
              (trace w),
        Return (Some (Path.join folder (base +:+ "_merged.zip"))))).
Proof.
  intros Hfirst.
  destruct (join_zip_parts_unfold folder base w) as (m & Hm & Hjoin).
  pose proof (leading_run_pos folder base _ _ Hfirst Hm) as Hpos.
  split; [by exists m |].
  intros n Hn Hfiles Hdir.
  rewrite (leading_run_unique _ _ _ _ _ Hn Hm) in *. rewrite Hjoin.
  destruct m as [|m]; [lia |].
  eapply try_except_return. by apply write_merged_files.
Qed.

Lemma join_zip_parts_concatenates_witness :
  ArchiveExtractor.join_zip_parts "/in" "b" w0 =
    (World (<["/in/b_merged.zip" := File (bytes "Puv")]> (fs w0)) [],
     Return (Some "/in/b_merged.zip")).
Proof.
  assert (Hfirst : is_Some (fs w0 !! Path.join "/in" ("b" +:+ ".zip." +:+ "001")))
    by (by eexists).
  destruct (join_zip_parts_concatenates w0 "/in" "b" Hfirst) as [_ Hjoin].
  apply (Hjoin 2).
  - split; [|reflexivity].
    intros i Hi. assert (i = 1 \/ i = 2) as [-> | ->] by lia; by eexists.
  - intros i Hi. assert (i = 1 \/ i = 2) as [-> | ->] by lia; by eexists.
  - intros [n Hn]. vm_compute in Hn. discriminate.
Defined.

(** C7.  When segment 1, [{base}.zip.001], does not exist, the joiner returns
    [None] and leaves the world as it was (no merged file is created); and
    [extract_archive] on a split-ZIP path whose segment 1 does not exist
    returns the "Parts not found" outcome (kind SegmentsMissing), again with
    the world as it was. *)
Theorem split_zip_without_first_segment
    (lib : codec) (w : world) (folder base : string) :
  fs w !! Path.join folder (base +:+ ".zip." +:+ "001") = None ->
  ArchiveExtractor.join_zip_parts folder base w = (w, Return None) /\
  (forall p dest cb,
     is_Some (fs w !! p) ->
     ArchiveExtractor.classify p = SplitZip ->
     Path.dirname p = folder ->
     Str.split_head ".zip." (Path.basename p) = base ->
     ArchiveExtractor.extract_archive lib p dest cb w =
       (w, Return (PartsNotFound (Path.basename p) (source_gb (fs w) p))) /\
     kind_of (PartsNotFound (Path.basename p) (source_gb (fs w) p)) =
       Failed SegmentsMissing).
Proof.
  intros Hmissing.
  pose proof (join_zip_parts_none folder base w Hmissing) as Hjoin.
  split; [done |]. intros p dest cb Hthere Hsplit <- <-. split; [|done].
  rewrite extract_archive_present by done.
  apply try_except_return.
  unfold ArchiveExtractor.dispatch. rewrite Hsplit.
  unfold ArchiveExtractor._extract_split_zip.
  by rewrite (bind_return _ _ _ _ _ Hjoin).
Qed.

Lemma split_zip_without_first_segment_witness :
  ArchiveExtractor.join_zip_parts "/in" "b" w_gap = (w_gap, Return None) /\
  ArchiveExtractor.extract_archive demo_lib "/in/b.zip.004" "/out" (Some quiet) w_gap
  = (w_gap, Return (PartsNotFound "b.zip.004" (size_gb 1))).
Proof.
  pose proof (split_zip_without_first_segment demo_lib w_gap "/in" "b" eq_refl)
    as [Hjoin Hextract].
  split; [exact Hjoin |].
  apply (Hextract "/in/b.zip.004" "/out" (Some quiet));
    [by eexists | reflexivity ..].
Defined.

(** C10.  When the joiner has found at least one segment and an I/O error
    occurs while it writes the merged file (the output cannot be opened, or a
    segment cannot be read), it prints the error and returns [None], the same
    result as when no segment exists; [extract_archive] then returns the
    "Parts not found" outcome (kind SegmentsMissing), not an "Error
    extracting" one. *)
Theorem join_io_error_reported_as_parts_not_found
    (lib : codec) (w : world) (folder base : string) (n : nat) :
  1 <= n ->
  leading_run (fs w) folder base n ->
  is_dir (fs w) (Path.join folder (base +:+ "_merged.zip")) \/
  (exists i, 1 <= i <= n /\
             ~ is_file (fs w) (ArchiveExtractor.part_path folder base i)) ->
  exists w' msg,
    trace w' = trace w ++ [EvPrint ("Error joining parts: " +:+ msg)] /\
    ArchiveExtractor.join_zip_parts folder base w = (w', Return None) /\
    (forall p dest cb,
       is_Some (fs w !! p) ->
       ArchiveExtractor.classify p = SplitZip ->
       Path.dirname p = folder ->
       Str.split_head ".zip." (Path.basename p) = base ->
       ArchiveExtractor.extract_archive lib p dest cb w =
         (w', Return (PartsNotFound (Path.basename p) (source_gb (fs w) p))) /\
       kind_of (PartsNotFound (Path.basename p) (source_gb (fs w) p)) =
         Failed SegmentsMissing).
Proof.
  intros Hpos Hrun Hbad.
  destruct (write_merged_io_error folder base n w Hbad) as (w1 & e & Hw & Hcls & Htr).
  destruct (join_zip_parts_unfold folder base w) as (m & Hm & Hjoin).
  rewrite <- (leading_run_unique _ _ _ _ _ Hrun Hm) in Hjoin.
  destruct n as [|n]; [lia |].
  rewrite (try_except_caught _ _ _ _ _ _ Hw) in Hjoin
    by (rewrite Hcls; by apply list_elem_of_singleton).
  exists (World (fs w1) (trace w1 ++ [EvPrint ("Error joining parts: " +:+ exn_msg e)])),
    (exn_msg e).
  split; [by rewrite <- Htr |]. split; [exact Hjoin |].
  intros p dest cb Hthere Hsplit <- <-. split; [|done].
  rewrite extract_archive_present by done.
  apply try_except_return.
  unfold ArchiveExtractor.dispatch. rewrite Hsplit.
  unfold ArchiveExtractor._extract_split_zip.
  by rewrite (bind_return _ _ _ _ _ Hjoin).
Qed.

Lemma join_io_error_reported_as_parts_not_found_witness :
  exists w' msg,
    trace w' = [EvPrint ("Error joining parts: " +:+ msg)] /\
    ArchiveExtractor.join_zip_parts "/in" "b" w_dir = (w', Return None) /\
    ArchiveExtractor.extract_archive demo_lib "/in/b.zip.001" "/out" None w_dir =
      (w', Return (PartsNotFound "b.zip.001" (size_gb 2))).
Proof.
  destruct (join_io_error_reported_as_parts_not_found demo_lib w_dir "/in" "b" 2)
    as (w' & msg & Htr & Hjoin & Hx).
  - lia.
  - split; [|reflexivity].
    intros i Hi. assert (i = 1 \/ i = 2) as [-> | ->] by lia; by eexists.
  - left. by exists 4096.
  - exists w', msg. split; [exact Htr |]. split; [exact Hjoin |].
    apply (Hx "/in/b.zip.001" "/out" None); [by eexists | reflexivity ..].
Defined.

(** C9.  For a path that is classified as a split ZIP although its basename
    does not contain the lower-case text [.zip.] (the marker is spelled in
    upper or mixed case), the derived base name is the whole basename.  The
    joiner therefore looks for [{basename}.zip.001]; when no file of that
    name exists the call returns the "Parts not found" outcome, whatever
    other segments the folder holds. *)
Theorem upper_case_marker_keeps_whole_basename
    (lib : codec) (w : world) (p dest : string) (cb : option callback) :
  ArchiveExtractor.classify p = SplitZip ->
  Str.contains ".zip." (Path.basename p) = false ->
  Str.split_head ".zip." (Path.basename p) = Path.basename p /\
  (is_Some (fs w !! p) ->
   fs w !! Path.join (Path.dirname p) (Path.basename p +:+ ".zip." +:+ "001") = None ->
   ArchiveExtractor.extract_archive lib p dest cb w =
     (w, Return (PartsNotFound (Path.basename p) (source_gb (fs w) p))) /\
   kind_of (PartsNotFound (Path.basename p) (source_gb (fs w) p)) =
     Failed SegmentsMissing).
Proof.
  intros Hsplit Hlit.
  pose proof (split_head_absent _ _ Hlit) as Hbase.
  split; [done |]. intros Hthere Hprobe. split; [|done].
  rewrite extract_archive_present by done.
  apply try_except_return.
  unfold ArchiveExtractor.dispatch. rewrite Hsplit.
  unfold ArchiveExtractor._extract_split_zip. rewrite Hbase.
  by rewrite (bind_return _ _ _ _ _ (join_zip_parts_none _ _ _ Hprobe)).
Qed.

Lemma upper_case_marker_keeps_whole_basename_witness :
  Str.split_head ".zip." (Path.basename "/in/A.ZIP.001") = "A.ZIP.001" /\
  ArchiveExtractor.extract_archive demo_lib "/in/A.ZIP.001" "/out" None w_upper =
    (w_upper, Return (PartsNotFound "A.ZIP.001" (size_gb 2))).
Proof.
  destruct (upper_case_marker_keeps_whole_basename demo_lib w_upper
              "/in/A.ZIP.001" "/out" None eq_refl eq_refl) as [Hbase Hx].
  split; [exact Hbase |].
  apply Hx; [by eexists | reflexivity].
Defined.

(** C4.  The format is a function of the lower-cased path alone.  A path
    that ends, whatever the case of its letters, in [.zip], [.rar] or [.7z]
    is a Zip, Rar or SevenZip archive, also when [.zip.] occurs earlier in
    it; a path that contains [.zip.] (in any case) and ends in none of the
    three suffixes is a SplitZip; any other path is Unsupported. *)
Theorem classify_rules (p : string) :
  (forall q, Str.lower q = Str.lower p ->
     ArchiveExtractor.classify q = ArchiveExtractor.classify p) /\
  (ends_in p ".zip" -> ArchiveExtractor.classify p = Zip) /\
  (ends_in p ".rar" -> ArchiveExtractor.classify p = Rar) /\
  (ends_in p ".7z" -> ArchiveExtractor.classify p = SevenZip) /\
  (has_marker p ->
   ~ ends_in p ".zip" -> ~ ends_in p ".rar" -> ~ ends_in p ".7z" ->
   ArchiveExtractor.classify p = SplitZip) /\
  (~ has_marker p ->
   ~ ends_in p ".zip" -> ~ ends_in p ".rar" -> ~ ends_in p ".7z" ->
   ArchiveExtractor.classify p = Unsupported).
Proof.
  rewrite !ends_in_endswith, has_marker_contains.
  unfold ArchiveExtractor.classify.
  split; [by intros q -> |].
  split; [by intros -> |].
  split.
  { intros Hrar.
    rewrite (endswith_exclusive _ ".rar" ".zip"); by rewrite ?Hrar. }
  split.
  { intros H7z.
    rewrite (endswith_exclusive _ ".7z" ".zip"),
            (endswith_exclusive _ ".7z" ".rar"); by rewrite ?H7z. }
  split.
  - intros -> Hzip%not_true_is_false Hrar%not_true_is_false H7z%not_true_is_false.
    by rewrite Hzip, Hrar, H7z.
  - intros Hm%not_true_is_false Hzip%not_true_is_false
           Hrar%not_true_is_false H7z%not_true_is_false.
    by rewrite Hzip, Hrar, H7z, Hm.
Qed.

Lemma classify_rules_witness :
  ArchiveExtractor.classify "/data/old.zip.d/Backup.ZIP" = Zip /\
  ArchiveExtractor.classify "a.zip.b.RaR" = Rar /\
  ArchiveExtractor.classify "a.zip.b.7Z" = SevenZip /\
  ArchiveExtractor.classify "game.Zip.001" = SplitZip /\
  ArchiveExtractor.classify "/tmp/notes.txt" = Unsupported.
Proof.
  split; [|split; [|split; [|split]]].
  - apply (classify_rules "/data/old.zip.d/Backup.ZIP").
    by exists "/data/old.zip.d/Backup", ".ZIP".
  - apply (classify_rules "a.zip.b.RaR"). by exists "a.zip.b", ".RaR".
  - apply (classify_rules "a.zip.b.7Z"). by exists "a.zip.b", ".7Z".
  - apply (classify_rules "game.Zip.001").
    + by exists "game", ".Zip.", "001".
    + by intros ?%ends_in_endswith.
    + by intros ?%ends_in_endswith.
    + by intros ?%ends_in_endswith.
  - apply (classify_rules "/tmp/notes.txt").
    + by intros ?%has_marker_contains.
    + by intros ?%ends_in_endswith.
    + by intros ?%ends_in_endswith.
    + by intros ?%ends_in_endswith.
Defined.

(** C6.  Every progress call of one [extract_archive] call carries the same
    size: the size in GB of the source path as it was when the call started.
    For a split archive this is the size of the path given to the call, not
    that of the merged file or of the segments together. *)
Theorem progress_size_is_source_size
    (lib : codec) (w : world) (p dest : string) (cb : option callback) :
  let run := ArchiveExtractor.extract_archive lib p dest cb w in
  exists evs,
    trace run.1 = trace w ++ evs /\
    forall i total gb,
      EvProgress i total gb ∈ evs -> gb = source_gb (fs w) p.
Proof.
  intros run.
  assert (Hok : exists evs, trace run.1 = trace w ++ evs /\
                            Forall (carries (source_gb (fs w) p)) evs).
  { destruct (fs w !! p) as [nd|] eqn:Hp.
    - subst run. rewrite extract_archive_present by (by rewrite Hp).
      eapply emits_only_try_except; [apply ok_dispatch | | apply surjective_pairing].
      intros e. apply emits_only_ret.
    - subst run. rewrite extract_archive_missing by done.
      exists []. by rewrite app_nil_r. }
  destruct Hok as (evs & Htr & Hall). exists evs. split; [done |].
  intros i total gb Hin. rewrite Forall_forall in Hall. by apply (Hall _ Hin).
Qed.

(** The split archive of [w0]: both progress calls carry the 2 bytes of
    [b.zip.001], although the merged archive has 3 bytes. *)
Example progress_size_of_split_zip :
  trace (ArchiveExtractor.extract_archive demo_lib "/in/b.zip.001" "/out"
           (Some quiet) w0).1
  = [EvExtracted "/out/u"; EvProgress 1 2 (size_gb 2);
     EvExtracted "/out/v"; EvProgress 2 2 (size_gb 2)].
Proof. reflexivity. Qed.

(** C3.  When [extract_archive] succeeds, the archive it opened lists some
    entries, say K of them, and the events of the call are exactly: entry 1
    extracted, progress (1, K, size), entry 2 extracted, progress (2, K, size),
    ..., entry K extracted, progress (K, K, size).  So a supplied callback is
    called exactly K times, with the indices 1..K in ascending order and the
    total K every time; without a callback only the entries are extracted.
    Each call is made when its entry is on disk: if the callback is made to
    raise at its call for an entry (with an exception that no handler names,
    so that the run ends there), the run ends after exactly the events up to
    that call, and in the file system it leaves, the target of the entry
    holds what the library puts there, the file with the bytes of the member
    or the directory. *)
Theorem progress_once_per_entry
    (lib : codec) (w w' : world) (p dest name : string)
    (cb : option callback) (gb : QArith_base.Q) :
  ArchiveExtractor.extract_archive lib p dest cb w
    = (w', Return (SuccessfullyExtracted name gb)) ->
  exists file_list,
    let K := length file_list in
    lists_entries lib (fs w) p file_list /\
    trace w' = trace w ++ steps dest cb gb K 1 file_list /\
    progress_calls (steps dest cb gb K 1 file_list) =
      match cb with
      | Some _ => (fun i => (i, K, gb)) <$> seq 1 K
      | None => []
      end /\
    forall f k e err,
      cb = Some f -> file_list !! k = Some e -> exn_cls err = OtherError ->
      let stopped := ArchiveExtractor.extract_archive lib p dest
                       (Some (stop_at (S k) err f)) w in
      stopped.2 = Raise err /\
      trace stopped.1 = trace w ++ take (2 * S k) (steps dest cb gb K 1 file_list) /\
      put_at (fs stopped.1) dest e.
Proof.
  intros Hrun.
  destruct (fs w !! p) as [nd|] eqn:Hp;
    [|by rewrite extract_archive_missing in Hrun].
  assert (Hthere : is_Some (fs w !! p)) by (by rewrite Hp).
  rewrite extract_archive_present in Hrun by done.
  apply try_except_inv in Hrun
    as [(o & Hd & [= <-]) | [(w1 & e & _ & _ & [=]) | (e & _ & _ & [=])]].
  destruct cb as [f|].
  - apply dispatch_success_stop in Hd as (file_list & Hl & Htr & -> & Hstop).
    exists file_list. split; [done |]. split; [done |].
    split; [apply progress_calls_steps |].
    intros f' k e err [= <-] Hk Hcls.
    destruct (Hstop k e err Hk Hcls) as (wk & Hdk & Hput & Htrk).
    rewrite extract_archive_present by done.
    rewrite (try_except_passed _ _ _ _ _ _ Hdk)
      by (rewrite Hcls; by apply (bool_decide_unpack _)).
    done.
  - assert (Hlist : exists file_list,
               lists_entries lib (fs w) p file_list /\
               trace w' = trace w ++ steps dest None gb (length file_list) 1 file_list).
    { unfold ArchiveExtractor.dispatch in Hd. unfold lists_entries.
      unfold ArchiveExtractor._extract_zip, ArchiveExtractor._extract_rar,
        ArchiveExtractor._extract_7z in Hd.
      destruct (ArchiveExtractor.classify p); [| | | |done].
      - apply extract_with_return in Hd as (data & file_list & Hdata & Hlib & Htr & Ho).
        injection Ho as _ ->. exists file_list. split; [by exists data | done].
      - apply extract_with_return in Hd as (data & file_list & Hdata & Hlib & Htr & Ho).
        injection Ho as _ ->. exists file_list. split; [by exists data | done].
      - apply extract_with_return in Hd as (data & file_list & Hdata & Hlib & Htr & Ho).
        injection Ho as _ ->. exists file_list. split; [by exists data | done].
      - apply extract_split_zip_return in Hd
          as (n & file_list & Hn & Hrun & Hlib & Htr & -> & _).
        exists file_list. split; [by exists n | done]. }
    destruct Hlist as (file_list & Hl & Htr). exists file_list.
    split; [done |]. split; [done |].
    split; [apply progress_calls_steps_none | done].
Qed.

Lemma progress_once_per_entry_witness :
  exists file_list,
    lists_entries demo_lib (fs w0) "/in/a.zip" file_list /\
    [EvExtracted "/out/x"; EvProgress 1 2 (size_gb 3);
     EvExtracted "/out/y"; EvProgress 2 2 (size_gb 3)]
      = [] ++ steps "/out" (Some quiet) (size_gb 3) (length file_list) 1 file_list /\
    progress_calls (steps "/out" (Some quiet) (size_gb 3) (length file_list) 1 file_list)
      = (fun i => (i, length file_list, size_gb 3)) <$> seq 1 (length file_list) /\
    forall f k e err,
      Some quiet = Some f -> file_list !! k = Some e -> exn_cls err = OtherError ->
      (ArchiveExtractor.extract_archive demo_lib "/in/a.zip" "/out"
         (Some (stop_at (S k) err f)) w0).2 = Raise err /\
      trace (ArchiveExtractor.extract_archive demo_lib "/in/a.zip" "/out"
               (Some (stop_at (S k) err f)) w0).1
        = [] ++ take (2 * S k)
                  (steps "/out" (Some quiet) (size_gb 3) (length file_list) 1
                     file_list) /\
      put_at (fs (ArchiveExtractor.extract_archive demo_lib "/in/a.zip" "/out"
                    (Some (stop_at (S k) err f)) w0).1) "/out" e.
Proof.
  apply (progress_once_per_entry demo_lib w0
           (ArchiveExtractor.extract_archive demo_lib "/in/a.zip" "/out"
              (Some quiet) w0).1
           "/in/a.zip" "/out" "a.zip" (Some quiet) (size_gb 3)).
  reflexivity.
Defined.

(** The same run, stopped at the call for the first entry: [x] is on disk
    with its byte, [y] is not there yet. *)
Example first_call_finds_first_entry :
  let stopped := ArchiveExtractor.extract_archive demo_lib "/in/a.zip" "/out"
                   (Some (stop_at 1 (Exn OtherError "cancelled") quiet)) w0 in
  stopped.2 = Raise (Exn OtherError "cancelled") /\
  trace stopped.1 = [EvExtracted "/out/x"; EvProgress 1 2 (size_gb 3)] /\
  fs stopped.1 !! "/out/x" = Some (File (bytes "x")) /\
  fs stopped.1 !! "/out/y" = None.
Proof. repeat split; reflexivity. Qed.

(** A directory member and a member stored under a name that points above
    the destination: the library makes the directory, and puts the file
    below the destination. *)
Example directory_and_cleaned_name :
  let run := ArchiveExtractor.extract_archive demo_lib "/in/t.zip" "/out"
               (Some quiet)
               (World (<["/in/t.zip" := File (bytes "P/^")]> ∅) []) in
  run.2 = Return (SuccessfullyExtracted "t.zip" (size_gb 3)) /\
  trace run.1 = [EvExtracted "/out/d"; EvProgress 1 2 (size_gb 3);
                 EvExtracted "/out/up"; EvProgress 2 2 (size_gb 3)] /\
  fs run.1 !! "/out/d" = Some (Dir 4096) /\
  fs run.1 !! "/out/up" = Some (File (bytes "^")).
Proof. repeat split; reflexivity. Qed.

(** C1, as the code has it.  [extract_archive] always ends, with an outcome
    or with an exception; an exception gets out only when its class is none
    of [BadZipFile], [rarfile.Error], [Bad7zFile] and [OSError] (which
    includes [IOError]).  An error of one of these four classes raised by
    the handler of the format becomes the "Error extracting" outcome, and an
    error of class [BadZipFile] or [OSError] raised while the merged archive
    of a split ZIP is extracted and removed becomes the "Error extracting
    parts" outcome; both are of kind ExtractionFailed and carry the text of
    the error.  An exception of any other class propagates to the caller:
    when the handler of the format raises one, or the extraction of the
    merged archive of a split ZIP does, [extract_archive] raises it, in the
    state in which it was raised; and whenever a call of the progress
    callback raised one, that exception is what [extract_archive] ends with.
    The earlier script names the three library classes only: an exception
    that leaves its [extract_archive] is an [OSError] or of a class that is
    not named. *)
Theorem listed_errors_become_outcomes
    (lib : codec) (w : world) (p dest : string) (cb : option callback) :
  let gb := source_gb (fs w) p in
  let run := ArchiveExtractor.extract_archive lib p dest cb w in
  (forall e, run.2 = Raise e -> exn_cls e = OtherError) /\
  (forall w1 e,
     is_Some (fs w !! p) ->
     ArchiveExtractor.dispatch lib p dest gb cb w = (w1, Raise e) ->
     exn_cls e <> OtherError ->
     exists o, run = (w1, Return o) /\
               o = ErrorExtracting (Path.basename p) gb (exn_msg e) /\
               kind_of o = Failed ExtractionFailed /\
               description o = Some (exn_msg e)) /\
  (forall w1 w2 e merged_path,
     is_Some (fs w !! p) ->
     ArchiveExtractor.classify p = SplitZip ->
     ArchiveExtractor.join_zip_parts (Path.dirname p)
       (Str.split_head ".zip." (Path.basename p)) w
       = (w1, Return (Some merged_path)) ->
     ArchiveExtractor.extract_and_remove lib merged_path dest gb cb w1
       = (w2, Raise e) ->
     exn_cls e = BadZipFile \/ exn_cls e = OSError ->
     exists o, run = (w2, Return o) /\
               o = ErrorExtractingParts (exn_msg e) /\
               kind_of o = Failed ExtractionFailed /\
               description o = Some (exn_msg e)) /\
  (forall w1 e,
     is_Some (fs w !! p) ->
     ArchiveExtractor.dispatch lib p dest gb cb w = (w1, Raise e) ->
     exn_cls e = OtherError ->
     run = (w1, Raise e)) /\
  (forall w1 w2 e merged_path,
     is_Some (fs w !! p) ->
     ArchiveExtractor.classify p = SplitZip ->
     ArchiveExtractor.join_zip_parts (Path.dirname p)
       (Str.split_head ".zip." (Path.basename p)) w
       = (w1, Return (Some merged_path)) ->
     ArchiveExtractor.extract_and_remove lib merged_path dest gb cb w1
       = (w2, Raise e) ->
     exn_cls e = OtherError ->
     run = (w2, Raise e)) /\
  (forall f evs i total g err,
     cb = Some f ->
     trace run.1 = trace w ++ evs ->
     EvProgress i total g ∈ evs ->
     f i total g = Some err ->
     exn_cls err = OtherError ->
     run.2 = Raise err) /\
  (forall e,
     (UnzipFull.extract_archive lib p dest cb w).2 = Raise e ->
     exn_cls e = OSError \/ exn_cls e = OtherError).
Proof.
  intros gb run. split; [|split; [|split; [|split; [|split; [|split]]]]].
  - intros e Hraise. subst run.
    destruct (fs w !! p) as [nd|] eqn:Hp;
      [|by rewrite extract_archive_missing in Hraise].
    rewrite extract_archive_present in Hraise by (by rewrite Hp).
    destruct (try_except _ _ _ w) as [w' r] eqn:Hrun. simpl in Hraise. subst r.
    apply try_except_inv in Hrun
      as [(o & _ & [=]) | [(w1 & e' & _ & _ & [=]) | (e' & _ & Hnin & [= <-])]].
    by destruct (listed_or_other (exn_cls e)).
  - intros w1 e Hthere Hd Hcls. subst run.
    rewrite extract_archive_present by done.
    subst gb. rewrite (try_except_caught _ _ _ _ _ _ Hd)
      by (by destruct (listed_or_other (exn_cls e))).
    by eexists.
  - intros w1 w2 e merged_path Hthere Hsplit Hjoin Hx Hcls. subst run.
    rewrite extract_archive_present by done.
    eexists. split; [|done].
    apply try_except_return.
    unfold ArchiveExtractor.dispatch. rewrite Hsplit.
    unfold ArchiveExtractor._extract_split_zip.
    rewrite (bind_return _ _ _ _ _ Hjoin).
    rewrite (join_zip_parts_some _ _ _ _ _ Hjoin) in *.
    destruct (String.eqb_spec (ArchiveExtractor.merged_path_of (Path.dirname p)
                (Str.split_head ".zip." (Path.basename p))) "") as [E|_];
      [by apply merged_nonempty in E |].
    subst gb. rewrite (try_except_caught _ _ _ _ _ _ Hx)
      by (destruct Hcls as [-> | ->]; set_solver).
    done.
  - intros w1 e Hthere Hd Hcls. subst run gb.
    rewrite extract_archive_present by done.
    apply (try_except_passed _ _ _ _ _ _ Hd).
    rewrite Hcls. by apply (bool_decide_unpack _).
  - intros w1 w2 e merged_path Hthere Hsplit Hjoin Hx Hcls. subst run gb.
    rewrite extract_archive_present by done.
    apply try_except_passed; [|rewrite Hcls; by apply (bool_decide_unpack _)].
    unfold ArchiveExtractor.dispatch. rewrite Hsplit.
    unfold ArchiveExtractor._extract_split_zip.
    rewrite (bind_return _ _ _ _ _ Hjoin).
    rewrite (join_zip_parts_some _ _ _ _ _ Hjoin) in *.
    destruct (String.eqb_spec (ArchiveExtractor.merged_path_of (Path.dirname p)
                (Str.split_head ".zip." (Path.basename p))) "") as [E|_];
      [by apply merged_nonempty in E |].
    apply (try_except_passed _ _ _ _ _ _ Hx).
    rewrite Hcls. by apply (bool_decide_unpack _).
  - intros f evs i total g err -> Htr Hin Hf Hcls. subst run.
    destruct (ArchiveExtractor.extract_archive lib p dest (Some f) w)
      as [w' r] eqn:Hrun.
    destruct (lets_out_extract_archive lib f _ _ _ _ _ Hrun) as (evs' & Htr' & Hout).
    simpl in Htr |- *. rewrite Htr' in Htr. apply app_inv_head in Htr as ->.
    by eapply Hout.
  - intros e He.
    destruct (UnzipFull.extract_archive lib p dest cb w) as [w' r] eqn:Hrun.
    simpl in He. subst r. by eapply unzipfull_raise_classes.
Qed.

Lemma listed_errors_become_outcomes_witness :
  ArchiveExtractor.extract_archive demo_lib "/in/k.zip" "/out" None
    (World (<["/in/k.zip" := File (bytes "xx")]> ∅) [])
  = (World (<["/in/k.zip" := File (bytes "xx")]> ∅) [],
     Return (ErrorExtracting "k.zip" (size_gb 2) "File is not an archive")).
Proof.
  destruct (listed_errors_become_outcomes demo_lib
              (World (<["/in/k.zip" := File (bytes "xx")]> ∅) [])
              "/in/k.zip" "/out" None) as (_ & Hcaught & _).
  destruct (Hcaught (World (<["/in/k.zip" := File (bytes "xx")]> ∅) [])
              (Exn BadZipFile "File is not an archive"))
    as (o & Hrun & -> & _); [by eexists | reflexivity | discriminate |].
  exact Hrun.
Defined.

(** C1 as stated fails: a member that needs a password makes [zipfile] raise
    [RuntimeError], which no handler of the engine names; the exception
    leaves [extract_archive]. *)
Lemma encrypted_member_escapes :
  (ArchiveExtractor.extract_archive demo_lib "/in/s.zip" "/out" None w_locked).2
  = Raise (Exn OtherError "password required for extraction").
Proof. reflexivity. Qed.

(** So does an exception that the progress callback raises: the call ends
    with it, after the entries extracted so far. *)
Example raising_callback_escapes :
  let run := ArchiveExtractor.extract_archive demo_lib "/in/a.zip" "/out"
               (Some (stop_at 2 (Exn OtherError "cancelled") quiet)) w0 in
  run.2 = Raise (Exn OtherError "cancelled") /\
  trace run.1 = [EvExtracted "/out/x"; EvProgress 1 2 (size_gb 3);
                 EvExtracted "/out/y"; EvProgress 2 2 (size_gb 3)].
Proof. split; reflexivity. Qed.

(** C2 fails on the failure path: when the merged archive cannot be
    extracted, the handler of [_extract_split_zip] returns before the
    temporary file is removed, and the file stays. *)
Example merged_file_left_after_failure :
  let run := ArchiveExtractor.extract_archive demo_lib "/in/k.zip.001" "/out"
               None w_bad in
  run.2 = Return (ErrorExtractingParts "File is not an archive") /\
  fs run.1 !! "/in/k_merged.zip" = Some (File (bytes "xxyy")).
Proof. split; reflexivity. Qed.

(** The same call on the folder of [w0], whose segments make a valid
    archive: the temporary file is gone when the call returns. *)
Example merged_file_removed_after_success :
  let run := ArchiveExtractor.extract_archive demo_lib "/in/b.zip.001" "/out"
               None w0 in
  run.2 = Return (SuccessfullyExtracted "b_merged.zip" (size_gb 2)) /\
  fs run.1 !! "/in/b_merged.zip" = None.
Proof. split; reflexivity. Qed.

(** ** Remarks on the claims *)

(** The rules of C4 read the whole path: a folder name that contains the
    marker makes a plain text file a split archive. *)
Example marker_in_folder_name :
  ArchiveExtractor.classify "/data/x.zip.d/notes.txt" = SplitZip.
Proof. reflexivity. Qed.

(** The scan stops at the first gap: [w0] holds segments 1, 2 and 4, and
    segment 4 is not collected. *)
Example scan_stops_at_gap :
  ArchiveExtractor.find_parts "/in" "b" w0
  = (w0, Return ["/in/b.zip.001"; "/in/b.zip.002"]).
Proof. reflexivity. Qed.

(** C9 at its edge: when a file with the doubled name exists, the joiner
    finds it and the call goes on with it. *)
Example doubled_name_is_found :
  (ArchiveExtractor.extract_archive demo_lib "/in/A.ZIP.001" "/out" None
     (World (<["/in/A.ZIP.001.zip.001" := File (bytes "Pz")]> (fs w_upper)) [])).2
  = Return (SuccessfullyExtracted "A.ZIP.001_merged.zip" (size_gb 2)).
Proof. reflexivity. Qed.

(** ** The earlier script, [unzipfull.py] *)

(** It has no existence check: [os.path.getsize] raises for a missing
    source, outside the [try]. *)
Example unzipfull_missing_source_raises :
  UnzipFull.extract_archive demo_lib "/tmp/does_not_exist.zip" "/out" None w0
  = (w0, Raise (Exn OSError "No such file or directory")).
Proof. reflexivity. Qed.

(** Its handler does not name [OSError]: a source that cannot be read lets
    the error out. *)
Example unzipfull_io_error_escapes :
  UnzipFull.extract_archive demo_lib "/in/d.zip" "/out" None
    (World (<["/in/d.zip" := Dir 4096]> ∅) [])
  = (World (<["/in/d.zip" := Dir 4096]> ∅) [],
     Raise (Exn OSError "Is a directory")).
Proof. reflexivity. Qed.

(** It joins the segments in the same way, under another name, and also
    leaves the merged file behind when the extraction fails. *)
Example unzipfull_joins_as_unido :
  UnzipFull.juntar_partes_zip "/in" "b" w0
  = (World (<["/in/b_unido.zip" := File (bytes "Puv")]> (fs w0)) [],
     Return (Some "/in/b_unido.zip")).
Proof. reflexivity. Qed.

Example unzipfull_leaves_merged_file :
  let run := UnzipFull.extract_archive demo_lib "/in/k.zip.001" "/out" None w_bad in
  run.2 = Return (ErrorExtracting "k.zip.001" (size_gb 2) "File is not an archive") /\
  fs run.1 !! "/in/k_unido.zip" = Some (File (bytes "xxyy")).
Proof. split; reflexivity. Qed.

(** * Further properties of the code *)

(** ** The joiner: frame and failure *)

Section JoinerFrame.

Context (folder base : string).

Local Abbreviation part := (ArchiveExtractor.part_path folder base).
Local Abbreviation merged := (ArchiveExtractor.merged_path_of folder base).

Lemma touches_ret {A} S (a : A) : touches_only S (ret a).
Proof. by intros w w' r q [= <- _]. Qed.

Lemma touches_raise {A} S e : touches_only S (@raise A e).
Proof. by intros w w' r q [= <- _]. Qed.

Lemma touches_emit S ev : touches_only S (emit ev).
Proof. by intros w w' r q [= <- _]. Qed.

Lemma touches_bind {A B} S (m : M A) (k : A -> M B) :
  touches_only S m -> (forall a, touches_only S (k a)) ->
  touches_only S (bind m k).
Proof.
  intros Hm Hk w w' r q H Hq.
  apply bind_inv in H as [(w1 & a & H1 & H2) | (e & H1 & ->)].
  - rewrite (Hk _ _ _ _ _ H2 Hq). by apply (Hm _ _ _ _ H1).
  - by apply (Hm _ _ _ _ H1).
Qed.

Lemma touches_try_except {A} S (m : M A) classes h :
  touches_only S m -> (forall e, touches_only S (h e)) ->
  touches_only S (try_except m classes h).
Proof.
  intros Hm Hh w w' r q H Hq.
  apply try_except_inv in H
    as [(a & H1 & ->) | [(w1 & e & H1 & _ & H2) | (e & H1 & _ & ->)]].
  - by apply (Hm _ _ _ _ H1).
  - rewrite (Hh _ _ _ _ _ H2 Hq). by apply (Hm _ _ _ _ H1).
  - by apply (Hm _ _ _ _ H1).
Qed.

Lemma touches_read S p : touches_only S (Os.read p).
Proof. intros w w' r q H _. by apply read_inv in H as [-> _]. Qed.

Lemma touches_open_wb (S : string -> Prop) p : S p -> touches_only S (Os.open_wb p).
Proof.
  intros Hp w w' [[]|e] q H Hq; apply open_wb_inv in H.
  - subst w'. simpl. apply lookup_insert_ne. by intros <-.
  - by destruct H as [-> _].
Qed.

Lemma touches_write (S : string -> Prop) p data :
  S p -> touches_only S (Os.write p data).
Proof.
  intros Hp w w' [[]|e] q H Hq; apply write_inv in H as [_ H].
  - destruct H as (old & _ & ->). apply lookup_insert_ne. by intros <-.
  - by destruct H as [-> _].
Qed.

Lemma touches_remove (S : string -> Prop) p : S p -> touches_only S (Os.remove p).
Proof.
  intros Hp w w' [[]|e] q H Hq; apply remove_inv in H as [_ H].
  - rewrite H. apply lookup_delete_ne. by intros <-.
  - by destruct H as [-> _].
Qed.

Lemma touches_copy_parts (S : string -> Prop) out parts :
  S out -> touches_only S (ArchiveExtractor.copy_parts out parts).
Proof.
  intros Hout. induction parts as [|p rest IH]; [apply touches_ret |].
  cbn [ArchiveExtractor.copy_parts].
  apply touches_bind; [apply touches_read | intros data].
  apply touches_bind; [by apply touches_write | by intros _].
Qed.

Lemma touches_join_zip_parts :
  touches_only (fun q => q = merged)
    (ArchiveExtractor.join_zip_parts folder base).
Proof.
  apply touches_bind.
  { intros w w' r q [= <- _] _. done. }
  intros [|p parts]; [apply touches_ret |].
  apply touches_try_except.
  - apply touches_bind; [by apply touches_open_wb | intros _].
    apply touches_bind; [by apply touches_copy_parts | intros _; apply touches_ret].
  - intros e. apply touches_bind; [apply touches_emit | intros _; apply touches_ret].
Qed.

(** Reading something that is not a regular file fails, and changes
    nothing. *)
Lemma read_not_file p w :
  ~ is_file (fs w) p ->
  exists e, Os.read p w = (w, Raise e) /\ exn_cls e = OSError.
Proof.
  intros Hnf. unfold Os.read, bind, get_fs.
  destruct (fs w !! p) as [[data|n]|] eqn:Hp; [| by eexists ..].
  destruct Hnf. by exists data.
Qed.

(** Copying stops at the first input that cannot be read; what was copied so
    far stays in the output. *)
Lemma copy_parts_partial (out : string) (good : list string) bad rest :
  forall (f : gmap string node) (tr : list event) (acc : list Byte.byte),
  f !! out = Some (File acc) ->
  out ∉ good -> out <> bad ->
  (forall p, p ∈ good -> is_file f p) ->
  ~ is_file f bad ->
  exists e,
    ArchiveExtractor.copy_parts out (good ++ bad :: rest) (World f tr) =
      (World (<[out := File (acc ++ concat (file_bytes f <$> good))]> f) tr,
       Raise e) /\
    exn_cls e = OSError.
Proof.
  induction good as [|p good IH]; intros f tr acc Hout Hnin Hne Hfiles Hbad.
  - destruct (read_not_file bad (World f tr) Hbad) as (e & Hr & Hcls).
    exists e. split; [|done]. simpl app. cbn [ArchiveExtractor.copy_parts].
    rewrite (bind_raise _ _ _ _ _ Hr). simpl. by rewrite app_nil_r, insert_id.
  - apply not_elem_of_cons in Hnin as [Hnp Hnin].
    destruct (Hfiles p) as [data Hp]; [by left |].
    destruct (IH (<[out := File (acc ++ data)]> f) tr (acc ++ data))
      as (e & Hrun & Hcls).
    + by rewrite lookup_insert_eq.
    + done.
    + done.
    + intros q Hq. destruct (Hfiles q) as [d Hd]; [by right |].
      exists d. rewrite lookup_insert_ne; [done | set_solver].
    + intros [d Hd]. rewrite lookup_insert_ne in Hd by done. apply Hbad. by exists d.
    + exists e. split; [|done]. simpl app. cbn [ArchiveExtractor.copy_parts].
      erewrite bind_return by (by apply read_file).
      erewrite bind_return by (by apply write_file).
      simpl fs. simpl trace. rewrite Hrun.
      rewrite insert_insert_eq. simpl. unfold file_bytes at 2. rewrite Hp.
      rewrite <- app_assoc.
      replace (file_bytes (<[out:=File (acc ++ data)]> f) <$> good)
        with (file_bytes f <$> good); [done |].
      apply list_fmap_ext. intros _ q Hq%list_elem_of_lookup_2.
      unfold file_bytes. rewrite lookup_insert_ne; [done | set_solver].
Qed.

End JoinerFrame.

(** X1.  The joiner never lets an exception out: it returns [None] or the
    path [{base}_merged.zip] in the folder; and whatever it returns, every
    path of the file system other than that one is as it was before (the
    segments are only read). *)
Theorem join_zip_parts_returns_and_frames (w : world) (folder base : string) :
  let run := ArchiveExtractor.join_zip_parts folder base w in
  (run.2 = Return None \/
   run.2 = Return (Some (Path.join folder (base +:+ "_merged.zip")))) /\
  forall q, q <> Path.join folder (base +:+ "_merged.zip") ->
            fs run.1 !! q = fs w !! q.
Proof.
  intros run. split.
  - destruct run as [w' [[m|]|e]] eqn:Hrun; simpl.
    + right. by rewrite (join_zip_parts_some _ _ _ _ _ Hrun).
    + by left.
    + by apply join_zip_parts_no_raise in Hrun.
  - intros q Hq.
    apply (touches_join_zip_parts folder base w run.1 run.2 q);
      [apply surjective_pairing | done].
Qed.

(** X2.  The [while True] scan of the joiner always ends: on every file
    system it stops at a first missing index, having collected the paths of
    the segments before it in ascending order, and it never collects more
    segments than the file system has paths. *)
Theorem scan_ends_within_file_count (w : world) (folder base : string) :
  exists n,
    n <= size (fs w) /\
    leading_run (fs w) folder base n /\
    ArchiveExtractor.find_parts folder base w =
      (w, Return (ArchiveExtractor.part_path folder base <$> seq 1 n)).
Proof.
  destruct w as [f tr].
  destruct (find_parts_run f folder base tr) as (n & Hrun & Hfind).
  exists n. split; [|done]. simpl.
  assert (Hsub : list_to_set (ArchiveExtractor.part_path folder base <$> seq 1 n)
                   ⊆ (dom f : gset string)).
  { intros p Hp. apply elem_of_list_to_set in Hp.
    apply list_elem_of_fmap in Hp as (k & -> & Hk).
    apply elem_of_seq in Hk. apply elem_of_dom, Hrun. lia. }
  apply subseteq_size in Hsub.
  rewrite size_list_to_set, size_dom in Hsub.
  - by rewrite length_fmap, length_seq in Hsub.
  - apply NoDup_fmap_2; [apply _ | apply NoDup_seq].
Qed.

(** X3.  When the first [j] segments of the run are regular files and
    segment [j+1] exists but cannot be read, the joiner prints the error and
    returns [None], and the output file is left behind holding the bytes of
    the first [j] segments. *)
Theorem join_leaves_partial_file (w : world) (folder base : string) (n j : nat) :
  leading_run (fs w) folder base n ->
  j < n ->
  (forall i, 1 <= i <= j ->
     is_file (fs w) (ArchiveExtractor.part_path folder base i)) ->
  ~ is_file (fs w) (ArchiveExtractor.part_path folder base (S j)) ->
  ~ is_dir (fs w) (Path.join folder (base +:+ "_merged.zip")) ->
  exists msg,
    ArchiveExtractor.join_zip_parts folder base w =
      (World (<[Path.join folder (base +:+ "_merged.zip") :=
                  File (segments_bytes (fs w) folder base j)]> (fs w))
             (trace w ++ [EvPrint ("Error joining parts: " +:+ msg)]),
       Return None).
Proof.
  intros Hrun Hj Hgood Hbad Hdir.
  destruct (join_zip_parts_unfold folder base w) as (m & Hm & Hjoin).
  rewrite <- (leading_run_unique _ _ _ _ _ Hrun Hm) in Hjoin.
  destruct n as [|n]; [lia |].
  set (merged := ArchiveExtractor.merged_path_of folder base) in *.
  assert (Hsplit : seq 1 (S n) = seq 1 j ++ S j :: seq (S (S j)) (n - j)).
  { replace (S n) with (j + S (n - j)) by lia. by rewrite seq_app. }
  assert (Hw : exists e,
    ArchiveExtractor.write_merged merged
      (ArchiveExtractor.part_path folder base <$> seq 1 (S n)) w =
      (World (<[merged := File (segments_bytes (fs w) folder base j)]> (fs w))
             (trace w), Raise e) /\ exn_cls e = OSError).
  { unfold ArchiveExtractor.write_merged.
    rewrite (bind_return _ _ _ _ _ (open_wb_ok _ _ Hdir)).
    rewrite Hsplit, fmap_app, fmap_cons.
    destruct (copy_parts_partial merged
                (ArchiveExtractor.part_path folder base <$> seq 1 j)
                (ArchiveExtractor.part_path folder base (S j))
                (ArchiveExtractor.part_path folder base <$> seq (S (S j)) (n - j))
                (<[merged := File []]> (fs w)) (trace w) [])
      as (e & Hcopy & Hcls).
    - by rewrite lookup_insert_eq.
    - intros (i & Hi & _)%list_elem_of_fmap. by apply merged_not_part in Hi.
    - apply merged_not_part.
    - intros q (i & -> & Hi%elem_of_seq)%list_elem_of_fmap.
      destruct (Hgood i) as [d Hd]; [lia |]. exists d.
      rewrite lookup_insert_ne; [done | apply merged_not_part].
    - intros [d Hd]. rewrite lookup_insert_ne in Hd by apply merged_not_part.
      apply Hbad. by exists d.
    - exists e. split; [|done].
      rewrite (bind_raise _ _ _ _ _ Hcopy).
      rewrite insert_insert_eq, segments_bytes_fmap. simpl.
      do 5 f_equal. apply list_fmap_ext. intros _ q Hq%list_elem_of_lookup_2.
      unfold file_bytes. rewrite lookup_insert_ne; [done |].
      apply list_elem_of_fmap in Hq as (i & -> & _). apply merged_not_part. }
  destruct Hw as (e & Hw & Hcls). exists (exn_msg e).
  rewrite Hjoin, (try_except_caught _ _ _ _ _ _ Hw)
    by (rewrite Hcls; by apply list_elem_of_singleton).
  done.
Qed.

Lemma join_leaves_partial_file_witness :
  exists msg,
    ArchiveExtractor.join_zip_parts "/in" "b" w_halfdir =
      (World (<["/in/b_merged.zip" := File (bytes "Pu")]> (fs w_halfdir))
             [EvPrint ("Error joining parts: " +:+ msg)],
       Return None).
Proof.
  apply (join_leaves_partial_file w_halfdir "/in" "b" 2 1).
  - split; [|reflexivity].
    intros i Hi. assert (i = 1 \/ i = 2) as [-> | ->] by lia; by eexists.
  - lia.
  - intros i Hi. assert (i = 1) as -> by lia. by eexists.
  - intros [d Hd]. vm_compute in Hd. discriminate.
  - intros [k Hk]. vm_compute in Hk. discriminate.
Defined.

(** ** Progress on every run *)

Section ProgressOnEveryRun.

Context (lib : codec) (gb : QArith_base.Q).

Lemma progress_calls_app evs1 evs2 :
  progress_calls (evs1 ++ evs2) = progress_calls evs1 ++ progress_calls evs2.
Proof. apply omap_app. Qed.

Lemma progress_calls_quiet evs : Forall not_progress evs -> progress_calls evs = [].
Proof.
  induction 1 as [|ev evs Hev _ IH]; [done |].
  unfold progress_calls in *. cbn [omap list_omap]. by destruct ev.
Qed.

Lemma quiet_progresses {A} (m : M A) : emits_only not_progress m -> progresses gb m.
Proof.
  intros Hm w w' r H. destruct (Hm _ _ _ H) as (evs & Htr & Hq).
  exists evs, 0, 0. split; [done |]. split; [done |]. by apply progress_calls_quiet.
Qed.

Lemma quiet_then_progresses {A B} (m : M A) (k : A -> M B) :
  emits_only not_progress m -> (forall a, progresses gb (k a)) ->
  progresses gb (bind m k).
Proof.
  intros Hm Hk w w' r H.
  apply bind_inv in H as [(w1 & a & H1 & H2) | (e & H1 & ->)].
  - destruct (Hm _ _ _ H1) as (evs1 & E1 & Q1).
    destruct (Hk a _ _ _ H2) as (evs2 & K & j & E2 & Hle & Hc).
    exists (evs1 ++ evs2), K, j. rewrite E2, E1, app_assoc. split; [done |].
    split; [done |]. by rewrite progress_calls_app, (progress_calls_quiet _ Q1).
  - destruct (Hm _ _ _ H1) as (evs & E & Q).
    exists evs, 0, 0. split; [done |]. split; [done |].
    by apply progress_calls_quiet.
Qed.

Lemma progresses_then_quiet {A B} (m : M A) (k : A -> M B) :
  progresses gb m -> (forall a, emits_only not_progress (k a)) ->
  progresses gb (bind m k).
Proof.
  intros Hm Hk w w' r H.
  apply bind_inv in H as [(w1 & a & H1 & H2) | (e & H1 & ->)].
  - destruct (Hm _ _ _ H1) as (evs1 & K & j & E1 & Hle & Hc).
    destruct (Hk a _ _ _ H2) as (evs2 & E2 & Q2).
    exists (evs1 ++ evs2), K, j. rewrite E2, E1, app_assoc. split; [done |].
    split; [done |].
    by rewrite progress_calls_app, (progress_calls_quiet _ Q2), app_nil_r.
  - destruct (Hm _ _ _ H1) as (evs1 & K & j & E1 & Hc). by exists evs1, K, j.
Qed.

Lemma progresses_try_except {A} (m : M A) classes h :
  progresses gb m -> (forall e, emits_only not_progress (h e)) ->
  progresses gb (try_except m classes h).
Proof.
  intros Hm Hh w w' r H.
  apply try_except_inv in H
    as [(a & H1 & ->) | [(w1 & e & H1 & _ & H2) | (e & H1 & _ & ->)]].
  - by apply (Hm _ _ _ H1).
  - destruct (Hm _ _ _ H1) as (evs1 & K & j & E1 & Hle & Hc).
    destruct (Hh e _ _ _ H2) as (evs2 & E2 & Q2).
    exists (evs1 ++ evs2), K, j. rewrite E2, E1, app_assoc. split; [done |].
    split; [done |].
    by rewrite progress_calls_app, (progress_calls_quiet _ Q2), app_nil_r.
  - by apply (Hm _ _ _ H1).
Qed.

Lemma quiet_extract_entry dest e :
  emits_only not_progress (ArchiveExtractor.extract_entry dest e).
Proof. by apply emits_only_extract_entry. Qed.

Lemma quiet_join_zip_parts folder base :
  emits_only not_progress (ArchiveExtractor.join_zip_parts folder base).
Proof.
  apply emits_only_bind; [apply silent_emits_only, silent_find_parts |].
  intros [|p parts]; [apply emits_only_ret |].
  apply emits_only_try_except; [apply silent_emits_only, silent_write_merged |].
  intros e. apply emits_only_bind; [by apply emits_only_emit |].
  intros _. apply emits_only_ret.
Qed.

(** What one call of [notify] adds to the trace, whatever its result. *)
Lemma notify_trace cb i total w w' r :
  ArchiveExtractor.notify cb i total gb w = (w', r) ->
  trace w' = trace w ++ match cb with
                        | Some _ => [EvProgress i total gb]
                        | None => []
                        end.
Proof.
  destruct cb as [f|]; simpl.
  - intros H. apply bind_inv in H as [(w1 & [] & [= <-] & H) | (e' & [=] & _)].
    by destruct (f i total gb); injection H as <- _.
  - intros [= <- _]. by rewrite app_nil_r.
Qed.

(** The loop over the entries, whatever its result: the calls made so far
    are numbered from [i] upwards without a gap, one per entry at most (and
    there is none without a callback). *)
Lemma extract_entries_counts dest cb total file_list :
  forall i w w' r,
  ArchiveExtractor.extract_entries dest gb cb total i file_list w = (w', r) ->
  exists evs j,
    trace w' = trace w ++ evs /\ j <= length file_list /\
    progress_calls evs = match cb with
                         | Some _ => (fun k => (k, total, gb)) <$> seq i j
                         | None => []
                         end.
Proof.
  induction file_list as [|e rest IH]; intros i w w' r H.
  - injection H as <- _. exists [], 0. rewrite app_nil_r. by destruct cb.
  - cbn [ArchiveExtractor.extract_entries] in H.
    apply bind_inv in H as [(w1 & [] & H1 & H) | (e' & H1 & ->)].
    + destruct (quiet_extract_entry _ _ _ _ _ H1) as (evs1 & E1 & Q1).
      apply bind_inv in H as [(w2 & [] & H2 & H) | (e' & H2 & ->)].
      * pose proof (notify_trace _ _ _ _ _ _ H2) as E2.
        destruct (IH _ _ _ _ H) as (evs3 & j & E3 & Hj & Hc).
        exists (evs1 ++ match cb with
                        | Some _ => [EvProgress i total gb]
                        | None => []
                        end ++ evs3), (S j).
        rewrite E3, E2, E1, <- !app_assoc. split; [done |].
        split; [simpl; lia |].
        rewrite !progress_calls_app, (progress_calls_quiet _ Q1), Hc.
        by destruct cb.
      * pose proof (notify_trace _ _ _ _ _ _ H2) as E2.
        exists (evs1 ++ match cb with
                        | Some _ => [EvProgress i total gb]
                        | None => []
                        end), 1.
        rewrite E2, E1, <- !app_assoc. split; [done |].
        split; [simpl; lia |].
        rewrite progress_calls_app, (progress_calls_quiet _ Q1).
        by destruct cb.
    + destruct (quiet_extract_entry _ _ _ _ _ H1) as (evs & E & Q).
      exists evs, 0. split; [done |]. split; [simpl; lia |].
      rewrite (progress_calls_quiet _ Q). by destruct cb.
Qed.

Lemma progresses_extract_entries dest cb file_list :
  progresses gb
    (ArchiveExtractor.extract_entries dest gb cb (length file_list) 1 file_list).
Proof.
  intros w w' r H.
  destruct (extract_entries_counts _ _ _ _ _ _ _ _ H) as (evs & j & E & Hj & Hc).
  destruct cb as [f|].
  - by exists evs, (length file_list), j.
  - exists evs, (length file_list), 0. split; [done |]. split; [lia | done].
Qed.

Lemma progresses_extract_with c path dest cb :
  progresses gb (ArchiveExtractor.extract_with lib c path dest gb cb).
Proof.
  apply quiet_then_progresses;
    [apply silent_emits_only, silent_open_archive | intros file_list].
  apply progresses_then_quiet; [apply progresses_extract_entries |].
  intros _. apply emits_only_ret.
Qed.

Lemma progresses_extract_split_zip p dest cb :
  progresses gb (ArchiveExtractor._extract_split_zip lib p dest gb cb).
Proof.
  apply quiet_then_progresses; [apply quiet_join_zip_parts |].
  intros [merged_path|]; [|apply quiet_progresses, emits_only_ret].
  destruct (String.eqb merged_path ""); [apply quiet_progresses, emits_only_ret |].
  apply progresses_try_except; [|intros e; apply emits_only_ret].
  unfold ArchiveExtractor.extract_and_remove.
  apply progresses_then_quiet; [apply progresses_extract_with | intros result].
  apply emits_only_bind; [apply silent_emits_only, silent_path_exists |].
  intros still_there. apply emits_only_bind; [|intros _; apply emits_only_ret].
  destruct still_there; [apply silent_emits_only, silent_remove | apply emits_only_ret].
Qed.

Lemma progresses_dispatch p dest cb :
  progresses gb (ArchiveExtractor.dispatch lib p dest gb cb).
Proof.
  unfold ArchiveExtractor.dispatch.
  destruct (ArchiveExtractor.classify p);
    [apply progresses_extract_with .. | apply progresses_extract_split_zip
    | apply quiet_progresses, emits_only_ret].
Qed.

(** Without a callback no run makes a progress call. *)
Lemma quiet_extract_entries_none dest total file_list :
  forall i,
    emits_only not_progress
      (ArchiveExtractor.extract_entries dest gb None total i file_list).
Proof.
  induction file_list as [|e rest IH]; intros i; [apply emits_only_ret |].
  cbn [ArchiveExtractor.extract_entries].
  apply emits_only_bind; [apply quiet_extract_entry | intros _].
  apply emits_only_bind; [apply emits_only_ret | intros _; apply IH].
Qed.

Lemma quiet_extract_with_none c path dest :
  emits_only not_progress (ArchiveExtractor.extract_with lib c path dest gb None).
Proof.
  apply emits_only_bind; [apply silent_emits_only, silent_open_archive |].
  intros file_list.
  apply emits_only_bind; [apply quiet_extract_entries_none |].
  intros _. apply emits_only_ret.
Qed.

Lemma quiet_dispatch_none p dest :
  emits_only not_progress (ArchiveExtractor.dispatch lib p dest gb None).
Proof.
  unfold ArchiveExtractor.dispatch.
  destruct (ArchiveExtractor.classify p);
    [apply quiet_extract_with_none .. | | apply emits_only_ret].
  apply emits_only_bind; [apply quiet_join_zip_parts |].
  intros [merged_path|]; [|apply emits_only_ret].
  destruct (String.eqb merged_path ""); [apply emits_only_ret |].
  apply emits_only_try_except; [|intros e; apply emits_only_ret].
  apply emits_only_bind; [apply quiet_extract_with_none | intros result].
  apply emits_only_bind; [apply silent_emits_only, silent_path_exists |].
  intros still_there. apply emits_only_bind; [|intros _; apply emits_only_ret].
  destruct still_there; [apply silent_emits_only, silent_remove | apply emits_only_ret].
Qed.

End ProgressOnEveryRun.

Lemma quiet_extract_archive_none (lib : codec) (p dest : string) :
  emits_only not_progress (ArchiveExtractor.extract_archive lib p dest None).
Proof.
  intros w w' r H. destruct (fs w !! p) as [nd|] eqn:Hp.
  - rewrite extract_archive_present in H by (by rewrite Hp).
    eapply emits_only_try_except; [apply quiet_dispatch_none | | exact H].
    intros e. apply emits_only_ret.
  - rewrite extract_archive_missing in H by done. injection H as <- _.
    exists []. by rewrite app_nil_r.
Qed.

(** X4.  Whatever the outcome of [extract_archive] (success, failure or an
    exception that gets out), the progress calls it made are numbered
    1, 2, ..., j without a gap or a repeat, they all carry the same total K
    with j <= K, and the size of the source; without a callback there is no
    call. *)
Theorem progress_counts_up_on_every_run
    (lib : codec) (w : world) (p dest : string) (cb : option callback) :
  let run := ArchiveExtractor.extract_archive lib p dest cb w in
  exists evs K j,
    trace run.1 = trace w ++ evs /\
    j <= K /\
    progress_calls evs = (fun i => (i, K, source_gb (fs w) p)) <$> seq 1 j /\
    (cb = None -> j = 0).
Proof.
  intros run.
  assert (Hcalls : exists evs K j,
            trace run.1 = trace w ++ evs /\
            counts_up (source_gb (fs w) p) K j evs).
  { subst run. destruct (fs w !! p) as [nd|] eqn:Hp.
    - rewrite extract_archive_present by (by rewrite Hp).
      eapply progresses_try_except;
        [apply progresses_dispatch | | apply surjective_pairing].
      intros e. apply emits_only_ret.
    - rewrite extract_archive_missing by done.
      exists [], 0, 0. by rewrite app_nil_r. }
  destruct Hcalls as (evs & K & j & Htr & Hle & Hc).
  exists evs, K, j. split; [done |]. split; [done |]. split; [done |].
  intros ->.
  assert (Hquiet : progress_calls evs = []).
  { destruct (quiet_extract_archive_none lib p dest w run.1 run.2)
      as (evs' & Htr' & Hq); [apply surjective_pairing |].
    rewrite Htr' in Htr. apply app_inv_head in Htr as <-.
    by apply progress_calls_quiet. }
  rewrite Hquiet in Hc. by destruct j.
Qed.

(** X5.  For a source that exists and whose path neither ends in [.zip],
    [.rar] or [.7z] (in any case) nor contains [.zip.], [extract_archive]
    returns the "Format not supported" text with the basename and the size
    of the source, and leaves the world as it was: nothing is opened or
    written and the callback is not called. *)
Theorem unsupported_format_reported
    (lib : codec) (w : world) (p dest : string) (cb : option callback) :
  is_Some (fs w !! p) ->
  ~ ends_in p ".zip" -> ~ ends_in p ".rar" -> ~ ends_in p ".7z" ->
  ~ has_marker p ->
  ArchiveExtractor.extract_archive lib p dest cb w =
    (w, Return (FormatNotSupported (Path.basename p) (source_gb (fs w) p))).
Proof.
  rewrite !ends_in_endswith, has_marker_contains.
  intros Hthere Hzip%not_true_is_false Hrar%not_true_is_false
         H7z%not_true_is_false Hm%not_true_is_false.
  rewrite extract_archive_present by done.
  apply try_except_return.
  unfold ArchiveExtractor.dispatch, ArchiveExtractor.classify.
  by rewrite Hzip, Hrar, H7z, Hm.
Qed.

Lemma unsupported_format_reported_witness :
  ArchiveExtractor.extract_archive demo_lib "/tmp/notes.txt" "/out"
    (Some quiet) w_notes
  = (w_notes, Return (FormatNotSupported "notes.txt" (size_gb 5))).
Proof.
  apply (unsupported_format_reported demo_lib w_notes "/tmp/notes.txt" "/out"
           (Some quiet)).
  - by eexists.
  - by intros ?%ends_in_endswith.
  - by intros ?%ends_in_endswith.
  - by intros ?%ends_in_endswith.
  - by intros ?%has_marker_contains.
Defined.

(** ** What a call leaves on disk *)

Section OnDisk.

Context (lib : codec).

Lemma keeps_paths_except {A} S (m : M A) : keeps_paths m -> keeps_except S m.
Proof. intros Hm w w' r q H _. by apply (Hm _ _ _ _ H). Qed.

Lemma keeps_except_bind {A B} S (m : M A) (k : A -> M B) :
  keeps_except S m -> (forall a, keeps_except S (k a)) ->
  keeps_except S (bind m k).
Proof.
  intros Hm Hk w w' r q H Hq Hin.
  apply bind_inv in H as [(w1 & a & H1 & H2) | (e & H1 & ->)].
  - eapply Hk; [done | done |]. by eapply Hm.
  - by eapply Hm.
Qed.

Lemma keeps_except_try_except {A} S (m : M A) classes h :
  keeps_except S m -> (forall e, keeps_except S (h e)) ->
  keeps_except S (try_except m classes h).
Proof.
  intros Hm Hh w w' r q H Hq Hin.
  apply try_except_inv in H
    as [(a & H1 & ->) | [(w1 & e & H1 & _ & H2) | (e & H1 & _ & ->)]].
  - by eapply Hm.
  - eapply Hh; [done | done |]. by eapply Hm.
  - by eapply Hm.
Qed.

Lemma keeps_except_remove (S : string -> Prop) p :
  S p -> keeps_except S (Os.remove p).
Proof.
  intros Hp w w' [[]|e] q H Hq Hin; apply remove_inv in H as [_ H].
  - rewrite H, lookup_delete_ne; [done |]. by intros <-.
  - by destruct H as [-> _].
Qed.

Lemma keeps_path_exists p : keeps_paths (Os.path_exists p).
Proof. by intros w w' r q [= <- _]. Qed.

Lemma keeps_copy_parts out parts :
  keeps_paths (ArchiveExtractor.copy_parts out parts).
Proof.
  induction parts as [|p rest IH]; [apply keeps_ret |].
  cbn [ArchiveExtractor.copy_parts].
  apply keeps_bind; [apply keeps_read | intros data].
  apply keeps_bind; [apply keeps_write | by intros _].
Qed.

Lemma keeps_join_zip_parts folder base :
  keeps_paths (ArchiveExtractor.join_zip_parts folder base).
Proof.
  apply keeps_bind; [by intros w w' r q [= <- _] |].
  intros [|p parts]; [apply keeps_ret |].
  intros w w' r q H Hin.
  apply try_except_inv in H
    as [(a & H1 & ->) | [(w1 & e & H1 & _ & H2) | (e & H1 & _ & ->)]].
  - revert H1 Hin. apply keeps_bind; [apply keeps_open_wb | intros _].
    apply keeps_bind; [apply keeps_copy_parts | intros _; apply keeps_ret].
  - assert (Hin1 : is_Some (fs w1 !! q)).
    { revert H1 Hin. apply keeps_bind; [apply keeps_open_wb | intros _].
      apply keeps_bind; [apply keeps_copy_parts | intros _; apply keeps_ret]. }
    revert H2 Hin1. apply keeps_bind; [apply keeps_emit | intros _; apply keeps_ret].
  - revert H1 Hin. apply keeps_bind; [apply keeps_open_wb | intros _].
    apply keeps_bind; [apply keeps_copy_parts | intros _; apply keeps_ret].
Qed.

Lemma keeps_except_split_zip p dest gb cb :
  keeps_except
    (fun q => q = ArchiveExtractor.merged_path_of (Path.dirname p)
                    (Str.split_head ".zip." (Path.basename p)))
    (ArchiveExtractor._extract_split_zip lib p dest gb cb).
Proof.
  intros w w' r q H Hq Hin. unfold ArchiveExtractor._extract_split_zip in H.
  apply bind_inv in H as [(w1 & merged & Hjoin & H) | (e & Hjoin & ->)].
  2:{ by eapply keeps_join_zip_parts. }
  assert (Hin1 : is_Some (fs w1 !! q)) by (by eapply keeps_join_zip_parts).
  destruct merged as [merged_path|]; [|by injection H as <- _].
  rewrite (join_zip_parts_some _ _ _ _ _ Hjoin) in H.
  destruct (String.eqb _ ""); [by injection H as <- _ |].
  eapply (keeps_except_try_except
            (fun q => q = ArchiveExtractor.merged_path_of (Path.dirname p)
                            (Str.split_head ".zip." (Path.basename p))));
    [| | exact H | exact Hq | exact Hin1].
  - unfold ArchiveExtractor.extract_and_remove, ArchiveExtractor._extract_zip.
    apply keeps_except_bind;
      [apply keeps_paths_except, keeps_extract_with | intros result].
    apply keeps_except_bind;
      [apply keeps_paths_except, keeps_path_exists | intros still_there].
    apply keeps_except_bind; [|intros _; apply keeps_paths_except, keeps_ret].
    destruct still_there;
      [by apply keeps_except_remove | apply keeps_paths_except, keeps_ret].
  - intros e. apply keeps_paths_except, keeps_ret.
Qed.

Lemma dispatch_keeps p dest gb cb w w' r q :
  ArchiveExtractor.dispatch lib p dest gb cb w = (w', r) ->
  (ArchiveExtractor.classify p = SplitZip ->
   q <> ArchiveExtractor.merged_path_of (Path.dirname p)
          (Str.split_head ".zip." (Path.basename p))) ->
  is_Some (fs w !! q) -> is_Some (fs w' !! q).
Proof.
  unfold ArchiveExtractor.dispatch, ArchiveExtractor._extract_zip,
    ArchiveExtractor._extract_rar, ArchiveExtractor._extract_7z.
  intros H Hq Hin. destruct (ArchiveExtractor.classify p).
  - by eapply keeps_extract_with.
  - by eapply keeps_extract_with.
  - by eapply keeps_extract_with.
  - eapply keeps_except_split_zip; [exact H | by apply Hq | done].
  - by injection H as <- _.
Qed.

End OnDisk.

(** X6.  [extract_archive] deletes nothing but its own temporary file: a
    path that exists before the call still exists after it, whatever the
    outcome, unless the job is a split ZIP and the path is that of the merged
    file [{base}_merged.zip]. *)
Theorem extract_archive_deletes_only_merged
    (lib : codec) (w : world) (p dest q : string) (cb : option callback) :
  is_Some (fs w !! q) ->
  (ArchiveExtractor.classify p = SplitZip ->
   q <> Path.join (Path.dirname p)
          (Str.split_head ".zip." (Path.basename p) +:+ "_merged.zip")) ->
  is_Some (fs (ArchiveExtractor.extract_archive lib p dest cb w).1 !! q).
Proof.
  intros Hin Hq.
  destruct (fs w !! p) as [nd|] eqn:Hp;
    [|by rewrite extract_archive_missing].
  rewrite extract_archive_present by (by rewrite Hp).
  destruct (try_except _ _ _ w) as [w' r] eqn:Hrun. simpl.
  apply try_except_inv in Hrun
    as [(a & H1 & ->) | [(w1 & e & H1 & _ & [= <- _]) | (e & H1 & _ & ->)]].
  all: by eapply dispatch_keeps.
Qed.

Lemma extract_archive_deletes_only_merged_witness :
  is_Some (fs (ArchiveExtractor.extract_archive demo_lib "/in/b.zip.001" "/out"
                 (Some quiet) w0).1 !! "/in/b.zip.002").
Proof.
  apply (extract_archive_deletes_only_merged demo_lib w0 "/in/b.zip.001" "/out"
           "/in/b.zip.002" (Some quiet)).
  - by eexists.
  - intros _. discriminate.
Defined.

(** ** No rollback *)

Section NoRollback.

Context (lib : codec) (S : string -> Prop).

Lemma kept_refl w : kept S w w.
Proof.
  split; [done |]. split; [done |]. exists []. rewrite app_nil_r.
  split; [done |]. by intros t Ht%elem_of_nil.
Qed.

(** What is present outside [S] stays present. *)
Lemma kept_present w w' t :
  kept S w w' -> ~ S t -> is_Some (fs w !! t) -> is_Some (fs w' !! t).
Proof.
  intros (F & D & _) Ht [[d|n] Hnd].
  - destruct (F t Ht) as [d' Hd']; [by exists d | by eexists].
  - destruct (D t) as [n' Hn']; [by exists n | by eexists].
Qed.

Lemma kept_trans w w1 w' : kept S w w1 -> kept S w1 w' -> kept S w w'.
Proof.
  intros H1 H2.
  pose proof H1 as (F1 & D1 & evs1 & E1 & T1).
  pose proof H2 as (F2 & D2 & evs2 & E2 & T2).
  split; [intros q Hq Hf; by apply F2, F1 |].
  split; [intros q Hd; by apply D2, D1 |].
  exists (evs1 ++ evs2). rewrite E2, E1, app_assoc. split; [done |].
  intros t [Ht | Ht]%elem_of_app Hnt; [|by apply T2].
  eapply kept_present; [exact H2 | done | by apply T1].
Qed.

(** Putting a node where there was none, or one of the same kind. *)
Lemma kept_insert w p nd :
  (forall d, fs w !! p = Some (File d) -> exists d', nd = File d') ->
  (forall n, fs w !! p = Some (Dir n) -> exists n', nd = Dir n') ->
  kept S w (World (<[p := nd]> (fs w)) (trace w)).
Proof.
  intros HF HD. split; [|split].
  - intros q _ [d Hq]. unfold is_file. simpl.
    destruct (decide (p = q)) as [->|Hne].
    + rewrite lookup_insert_eq. destruct (HF _ Hq) as [d' ->]. by eexists.
    + rewrite lookup_insert_ne by done. by eexists.
  - intros q [n Hq]. unfold is_dir. simpl.
    destruct (decide (p = q)) as [->|Hne].
    + rewrite lookup_insert_eq. destruct (HD _ Hq) as [n' ->]. by eexists.
    + rewrite lookup_insert_ne by done. by eexists.
  - exists []. simpl. rewrite app_nil_r. split; [done |].
    by intros t Ht%elem_of_nil.
Qed.

(** Deleting a regular file of [S]. *)
Lemma kept_delete w p d :
  S p -> fs w !! p = Some (File d) ->
  kept S w (World (delete p (fs w)) (trace w)).
Proof.
  intros Hp Hd. split; [|split].
  - intros q Hq [d' Hq']. exists d'. simpl.
    rewrite lookup_delete_ne; [done |]. by intros <-.
  - intros q [n Hq]. exists n. simpl.
    rewrite lookup_delete_ne; [done |]. intros <-. congruence.
  - exists []. simpl. rewrite app_nil_r. split; [done |].
    by intros t Ht%elem_of_nil.
Qed.

Lemma settles_ret {A} (a : A) : settles S (ret a).
Proof. intros w w' r [= <- _]. apply kept_refl. Qed.

Lemma settles_raise {A} e : settles S (@raise A e).
Proof. intros w w' r [= <- _]. apply kept_refl. Qed.

Lemma settles_bind {A B} (m : M A) (k : A -> M B) :
  settles S m -> (forall a, settles S (k a)) -> settles S (bind m k).
Proof.
  intros Hm Hk w w' r H.
  apply bind_inv in H as [(w1 & a & H1 & H2) | (e & H1 & ->)].
  - eapply kept_trans; [by eapply Hm | by eapply Hk].
  - by eapply Hm.
Qed.

Lemma settles_try_except {A} (m : M A) classes h :
  settles S m -> (forall e, settles S (h e)) -> settles S (try_except m classes h).
Proof.
  intros Hm Hh w w' r H.
  apply try_except_inv in H
    as [(a & H1 & ->) | [(w1 & e & H1 & _ & H2) | (e & H1 & _ & ->)]].
  - by eapply Hm.
  - eapply kept_trans; [by eapply Hm | by eapply Hh].
  - by eapply Hm.
Qed.

(** A computation that only reads, and reports no extraction. *)
Lemma settles_inert {A} (m : M A) :
  (forall w w' r, m w = (w', r) -> fs w' = fs w) ->
  emits_only (fun ev => forall t, ev <> EvExtracted t) m ->
  settles S m.
Proof.
  intros Hfs Hev w w' r H. unfold kept. rewrite (Hfs _ _ _ H).
  split; [done |]. split; [done |].
  destruct (Hev _ _ _ H) as (evs & E & Q). exists evs. split; [done |].
  intros t Ht. rewrite Forall_forall in Q. by destruct (Q _ Ht t).
Qed.

Lemma settles_read p : settles S (Os.read p).
Proof.
  apply settles_inert; [|apply silent_emits_only, silent_read].
  intros w w' r H. by apply read_inv in H as [-> _].
Qed.

Lemma settles_path_exists p : settles S (Os.path_exists p).
Proof.
  apply settles_inert; [by intros w w' r [= <- _] |].
  apply silent_emits_only, silent_path_exists.
Qed.

Lemma settles_path_isdir p : settles S (Os.path_isdir p).
Proof.
  apply settles_inert; [by intros w w' r [= <- _] |].
  apply silent_emits_only, silent_path_isdir.
Qed.

Lemma settles_emit ev : (forall t, ev <> EvExtracted t) -> settles S (emit ev).
Proof.
  intros Hev. apply settles_inert; [by intros w w' r [= <- _] |].
  by apply emits_only_emit.
Qed.

(** [open(p, "wb")] truncates a file or creates one; on a directory it
    fails. *)
Lemma settles_open_wb p : settles S (Os.open_wb p).
Proof.
  intros w w' r. unfold Os.open_wb, bind, get_fs, set_fs. simpl.
  destruct (fs w !! p) as [[d|n]|] eqn:E; intros [= <- <-];
    [| apply kept_refl |].
  all: apply kept_insert; intros x Hx; rewrite E in Hx; [by eexists | done ..].
Qed.

Lemma settles_write p data : settles S (Os.write p data).
Proof.
  intros w w' r. unfold Os.write, bind, get_fs, set_fs. simpl.
  destruct (fs w !! p) as [[d|n]|] eqn:E; intros [= <- <-];
    [| apply kept_refl ..].
  apply kept_insert; intros x Hx; rewrite E in Hx; [by eexists | done].
Qed.

Lemma settles_mkdir p : settles S (Os.mkdir p).
Proof.
  intros w w' r. unfold Os.mkdir, bind, get_fs, set_fs. simpl.
  destruct (fs w !! p) as [nd|] eqn:E; intros [= <- <-]; [apply kept_refl |].
  apply kept_insert; intros x Hx; by rewrite E in Hx.
Qed.

Lemma settles_remove p : S p -> settles S (Os.remove p).
Proof.
  intros Hp w w' r. unfold Os.remove, bind, get_fs, set_fs. simpl.
  destruct (fs w !! p) as [[d|n]|] eqn:E; intros [= <- <-];
    [by eapply kept_delete | apply kept_refl ..].
Qed.

Lemma settles_put_member target m :
  settles S (ArchiveExtractor.put_member target m).
Proof.
  destruct m as [data|]; cbn [ArchiveExtractor.put_member].
  - apply settles_bind; [apply settles_open_wb | intros _; apply settles_write].
  - apply settles_bind; [apply settles_path_isdir | intros there].
    destruct there; [apply settles_ret | apply settles_mkdir].
Qed.

(** When the library has put a member, there is something at its target. *)
Lemma put_member_present target m w w' :
  ArchiveExtractor.put_member target m w = (w', Return tt) ->
  is_Some (fs w' !! target).
Proof.
  destruct m as [data|]; cbn [ArchiveExtractor.put_member]; intros H.
  - apply bind_inv in H as [(w1 & [] & _ & H) | (e' & _ & [=])].
    apply write_inv in H as [_ (old & _ & ->)]. by rewrite lookup_insert_eq.
  - apply bind_inv in H as [(w1 & there & [= <- <-] & H) | (e' & [=] & _)].
    destruct (fs w !! target) as [[d|n]|] eqn:E.
    + apply mkdir_inv in H as [_ [_ ->]]. by rewrite lookup_insert_eq.
    + injection H as <-. by rewrite E.
    + apply mkdir_inv in H as [_ [_ ->]]. by rewrite lookup_insert_eq.
Qed.

(** One entry: when it is reported as extracted, there is something at its
    target. *)
Lemma settles_extract_entry dest e : settles S (ArchiveExtractor.extract_entry dest e).
Proof.
  unfold ArchiveExtractor.extract_entry.
  destruct (entry_extract e) as [m|residue err].
  - intros w w' r H.
    apply bind_inv in H as [(w1 & [] & H1 & [= <- _]) | (e' & H1 & ->)];
      [|by apply (settles_put_member _ _ _ _ _ H1)].
    destruct (settles_put_member _ _ _ _ _ H1) as (F & D & _).
    split; [done |]. split; [done |].
    exists [EvExtracted (entry_target e dest)]. simpl.
    split; [by rewrite (silent_put_member _ _ _ _ _ H1) |].
    intros t Ht%list_elem_of_singleton _. injection Ht as ->.
    by eapply put_member_present.
  - apply settles_bind; [|intros _; apply settles_raise].
    destruct residue as [m|]; [apply settles_put_member | apply settles_ret].
Qed.

Lemma settles_notify cb i total gb :
  settles S (ArchiveExtractor.notify cb i total gb).
Proof.
  destruct cb as [f|]; [|apply settles_ret]. simpl.
  apply settles_bind; [by apply settles_emit | intros _].
  destruct (f i total gb); [apply settles_raise | apply settles_ret].
Qed.

Lemma settles_extract_entries dest gb cb total file_list :
  forall i,
    settles S (ArchiveExtractor.extract_entries dest gb cb total i file_list).
Proof.
  induction file_list as [|e rest IH]; intros i; [apply settles_ret |].
  cbn [ArchiveExtractor.extract_entries].
  apply settles_bind; [apply settles_extract_entry | intros _].
  apply settles_bind; [apply settles_notify | intros _; apply IH].
Qed.

Lemma settles_extract_with c path dest gb cb :
  settles S (ArchiveExtractor.extract_with lib c path dest gb cb).
Proof.
  apply settles_bind.
  - apply settles_bind; [apply settles_read | intros data].
    destruct (lib c data); [apply settles_raise | apply settles_ret].
  - intros file_list.
    apply settles_bind; [apply settles_extract_entries | intros _; apply settles_ret].
Qed.

Lemma settles_copy_parts out parts :
  settles S (ArchiveExtractor.copy_parts out parts).
Proof.
  induction parts as [|p rest IH]; [apply settles_ret |].
  cbn [ArchiveExtractor.copy_parts].
  apply settles_bind; [apply settles_read | intros data].
  apply settles_bind; [apply settles_write | by intros _].
Qed.

Lemma settles_join_zip_parts folder base :
  settles S (ArchiveExtractor.join_zip_parts folder base).
Proof.
  apply settles_bind.
  { apply settles_inert; [by intros w w' r [= <- _] |].
    apply silent_emits_only, silent_find_parts. }
  intros [|p parts]; [apply settles_ret |].
  apply settles_try_except.
  - apply settles_bind; [apply settles_open_wb | intros _].
    apply settles_bind; [apply settles_copy_parts | intros _; apply settles_ret].
  - intros e. apply settles_bind; [by apply settles_emit | intros _; apply settles_ret].
Qed.

Lemma settles_extract_and_remove merged_path dest gb cb :
  S merged_path ->
  settles S (ArchiveExtractor.extract_and_remove lib merged_path dest gb cb).
Proof.
  intros HS.
  unfold ArchiveExtractor.extract_and_remove, ArchiveExtractor._extract_zip.
  apply settles_bind; [apply settles_extract_with | intros result].
  apply settles_bind; [apply settles_path_exists | intros still_there].
  apply settles_bind; [|intros _; apply settles_ret].
  destruct still_there; [by apply settles_remove | apply settles_ret].
Qed.

Lemma settles_extract_split_zip p dest gb cb :
  S (ArchiveExtractor.merged_path_of (Path.dirname p)
       (Str.split_head ".zip." (Path.basename p))) ->
  settles S (ArchiveExtractor._extract_split_zip lib p dest gb cb).
Proof.
  intros HS w w' r H. unfold ArchiveExtractor._extract_split_zip in H.
  apply bind_inv in H as [(w1 & merged & Hjoin & H) | (e & Hjoin & ->)].
  2:{ by apply (settles_join_zip_parts _ _ _ _ _ Hjoin). }
  apply (kept_trans w w1 w');
    [by apply (settles_join_zip_parts _ _ _ _ _ Hjoin) |].
  destruct merged as [merged_path|]; [|by apply (settles_ret _ _ _ _ H)].
  rewrite (join_zip_parts_some _ _ _ _ _ Hjoin) in H.
  destruct (String.eqb _ ""); [by apply (settles_ret _ _ _ _ H) |].
  eapply settles_try_except; [| | exact H].
  - by apply settles_extract_and_remove.
  - intros e. apply settles_ret.
Qed.

Lemma settles_dispatch p dest gb cb :
  (ArchiveExtractor.classify p = SplitZip ->
   S (ArchiveExtractor.merged_path_of (Path.dirname p)
        (Str.split_head ".zip." (Path.basename p)))) ->
  settles S (ArchiveExtractor.dispatch lib p dest gb cb).
Proof.
  intros HS.
  unfold ArchiveExtractor.dispatch, ArchiveExtractor._extract_zip,
    ArchiveExtractor._extract_rar, ArchiveExtractor._extract_7z.
  destruct (ArchiveExtractor.classify p);
    [apply settles_extract_with .. | by apply settles_extract_split_zip, HS
    | apply settles_ret].
Qed.

Lemma settles_extract_archive p dest cb :
  (ArchiveExtractor.classify p = SplitZip ->
   S (ArchiveExtractor.merged_path_of (Path.dirname p)
        (Str.split_head ".zip." (Path.basename p)))) ->
  settles S (ArchiveExtractor.extract_archive lib p dest cb).
Proof.
  intros HS w w' r H. destruct (fs w !! p) as [nd|] eqn:Hp.
  - rewrite extract_archive_present in H by (by rewrite Hp).
    eapply settles_try_except; [by apply settles_dispatch | | exact H].
    intros e. apply settles_ret.
  - rewrite extract_archive_missing in H by done.
    by apply (settles_ret _ _ _ _ H).
Qed.

End NoRollback.

(** X7.  Nothing is rolled back, and nothing changes its kind.  Whatever the
    outcome of [extract_archive], and also when an exception leaves it: every
    path at which the library put an entry during the run (a file or a
    directory, wherever below the destination the library chose to put it)
    still holds a file or a directory when the call ends; every regular file
    that was there before the call is still a regular file, the path of the
    merged file of a split ZIP excepted; and every directory is still a
    directory. *)
Theorem written_entries_stay_on_disk
    (lib : codec) (w : world) (p dest : string) (cb : option callback) :
  let run := ArchiveExtractor.extract_archive lib p dest cb w in
  let merged := Path.join (Path.dirname p)
                  (Str.split_head ".zip." (Path.basename p) +:+ "_merged.zip") in
  let temporary q := ArchiveExtractor.classify p = SplitZip /\ q = merged in
  (forall q, ~ temporary q -> is_file (fs w) q -> is_file (fs run.1) q) /\
  (forall q, is_dir (fs w) q -> is_dir (fs run.1) q) /\
  exists evs, trace run.1 = trace w ++ evs /\
    forall t, EvExtracted t ∈ evs -> ~ temporary t -> is_Some (fs run.1 !! t).
Proof.
  intros run merged temporary.
  destruct run as [w' r] eqn:Hrun. simpl.
  apply (settles_extract_archive lib temporary p dest cb) in Hrun; [done |].
  intros Hc. by split.
Qed.

(** ** The name in the success message of a split archive *)

Section Basenames.

Implicit Types a b s p : string.

Lemma length_app_s a b : String.length (a +:+ b) = String.length a + String.length b.
Proof. induction a as [|c a IH]; simpl; [done | by rewrite IH]. Qed.

Lemma sep_end_app a b :
  Path.sep_end (a +:+ b) =
  match Path.sep_end b with
  | O => Path.sep_end a
  | S k => String.length a + S k
  end.
Proof.
  induction a as [|c a IH].
  { change ("" +:+ b) with b. by destruct (Path.sep_end b). }
  change (String c a +:+ b) with (String c (a +:+ b)).
  cbn [Path.sep_end String.length]. rewrite IH.
  destruct (Path.sep_end b) as [|k]; [done |].
  replace (String.length a + S k) with (S (String.length a + k)) by lia.
  lia.
Qed.

Lemma sep_end_prefix a b : Path.sep_end (a +:+ b) = 0 -> Path.sep_end a = 0.
Proof. rewrite sep_end_app. destruct (Path.sep_end b); [done | lia]. Qed.

Lemma drop_0 s : Path.drop 0 s = s.
Proof.
  unfold Path.drop. rewrite Nat.sub_0_r.
  induction s as [|c s IH]; simpl; [done | by rewrite IH].
Qed.

Lemma drop_S n c s : Path.drop (S n) (String c s) = Path.drop n s.
Proof. reflexivity. Qed.

Lemma drop_app a b : Path.drop (String.length a) (a +:+ b) = b.
Proof.
  induction a as [|c a IH]; [apply drop_0 |].
  change (String c a +:+ b) with (String c (a +:+ b)).
  cbn [String.length]. by rewrite drop_S.
Qed.

(** The base name holds no separator. *)
Lemma sep_end_basename p : Path.sep_end (Path.basename p) = 0.
Proof.
  unfold Path.basename. induction p as [|c p IH]; [done |].
  cbn [Path.sep_end]. destruct (Path.sep_end p) as [|k] eqn:E.
  - rewrite drop_0 in IH. destruct (Path.is_sep c) eqn:Hc.
    + by rewrite drop_S, drop_0.
    + rewrite drop_0. cbn [Path.sep_end]. by rewrite IH, Hc.
  - by rewrite drop_S.
Qed.

Lemma split_head_prefix sep s : exists rest, s = Str.split_head sep s +:+ rest.
Proof.
  induction s as [|c s IH]; cbn [Str.split_head].
  - exists "". by destruct (String.prefix sep "").
  - destruct (String.prefix sep (String c s)); [by eexists |].
    destruct IH as [rest Hrest]. exists rest. simpl. by rewrite <- Hrest.
Qed.

Lemma sep_end_split_head sep s :
  Path.sep_end s = 0 -> Path.sep_end (Str.split_head sep s) = 0.
Proof.
  intros H. destruct (split_head_prefix sep s) as [rest Hrest].
  rewrite Hrest in H. by apply sep_end_prefix in H.
Qed.

Lemma sep_end_ends_with_sep a : Path.sep_end (a +:+ "/") = String.length (a +:+ "/").
Proof. rewrite sep_end_app, length_app_s. reflexivity. Qed.

(** [basename (join a b)] is [b] when [b] holds no separator. *)
Lemma basename_join a b : Path.sep_end b = 0 -> Path.basename (Path.join a b) = b.
Proof.
  intros Hb. unfold Path.join, Path.basename.
  destruct (Str.startswith b "/") eqn:Hs.
  { apply prefix_spec in Hs as [r ->]. simpl in Hb.
    by destruct (Path.sep_end r). }
  destruct (String.eqb_spec a "") as [->|Ha]; cbn [orb].
  { change ("" +:+ b) with b. by rewrite Hb, drop_0. }
  destruct (Str.endswith a "/") eqn:He.
  - apply endswith_spec in He as [pre ->].
    rewrite sep_end_app, Hb, sep_end_ends_with_sep. apply drop_app.
  - rewrite <- app_assoc_s, sep_end_app, Hb, sep_end_ends_with_sep. apply drop_app.
Qed.

(** The base name of the merged file that [_extract_split_zip] asks for. *)
Lemma basename_merged p :
  Path.basename (ArchiveExtractor.merged_path_of (Path.dirname p)
                   (Str.split_head ".zip." (Path.basename p)))
  = Str.split_head ".zip." (Path.basename p) +:+ "_merged.zip".
Proof.
  unfold ArchiveExtractor.merged_path_of. apply basename_join.
  rewrite sep_end_app. change (Path.sep_end "_merged.zip") with 0.
  apply sep_end_split_head, sep_end_basename.
Qed.

Lemma extract_split_zip_names_merged (lib : codec) p dest gb cb w w' name g :
  ArchiveExtractor._extract_split_zip lib p dest gb cb w
    = (w', Return (SuccessfullyExtracted name g)) ->
  name = Str.split_head ".zip." (Path.basename p) +:+ "_merged.zip".
Proof.
  intros H. unfold ArchiveExtractor._extract_split_zip in H.
  apply bind_inv in H as [(w1 & merged & Hjoin & H) | (e' & _ & [=])].
  destruct merged as [merged_path|]; [|done].
  rewrite (join_zip_parts_some _ _ _ _ _ Hjoin) in H.
  destruct (String.eqb _ ""); [done |].
  apply try_except_inv in H
    as [(a & H & [= <-]) | [(w2 & e & _ & _ & [=]) | (e & _ & _ & [=])]].
  unfold ArchiveExtractor.extract_and_remove in H.
  apply bind_inv in H as [(w2 & result & Hx & H) | (e' & _ & [=])].
  unfold ArchiveExtractor._extract_zip in Hx.
  apply (extract_with_return lib) in Hx as (data & file_list & _ & _ & _ & ->).
  apply bind_inv in H as [(w3 & there & _ & H) | (e' & _ & [=])].
  apply bind_inv in H as [(w4 & [] & _ & [= _ <- _]) | (e' & _ & [=])].
  apply basename_merged.
Qed.

End Basenames.

(** X8.  A split ZIP that is extracted is reported under the name of the
    temporary file: the success message of [extract_archive] reads
    [{base}_merged.zip], where [{base}] is what precedes [.zip.] in the base
    name of the selected segment, and not the name of that segment. *)
Theorem split_success_names_merged_file
    (lib : codec) (w w' : world) (p dest name : string) (cb : option callback)
    (gb : QArith_base.Q) :
  ArchiveExtractor.classify p = SplitZip ->
  ArchiveExtractor.extract_archive lib p dest cb w
    = (w', Return (SuccessfullyExtracted name gb)) ->
  name = Str.split_head ".zip." (Path.basename p) +:+ "_merged.zip".
Proof.
  intros Hsplit Hrun.
  destruct (fs w !! p) as [nd|] eqn:Hp;
    [|by rewrite extract_archive_missing in Hrun].
  rewrite extract_archive_present in Hrun by (by rewrite Hp).
  apply try_except_inv in Hrun
    as [(o & Hd & [= <-]) | [(w1 & e & _ & _ & [=]) | (e & _ & _ & [=])]].
  unfold ArchiveExtractor.dispatch in Hd. rewrite Hsplit in Hd.
  by apply extract_split_zip_names_merged in Hd.
Qed.

Lemma split_success_names_merged_file_witness :
  "b_merged.zip" = Str.split_head ".zip." (Path.basename "/in/b.zip.001") +:+ "_merged.zip".
Proof.
  apply (split_success_names_merged_file demo_lib w0
           (ArchiveExtractor.extract_archive demo_lib "/in/b.zip.001" "/out" None w0).1
           "/in/b.zip.001" "/out" "b_merged.zip" None (size_gb 2));
    reflexivity.
Defined.

(** ** The class against the earlier script *)

Section OlderScript.

Context (lib : codec).

Lemma bind_assoc_run {A B C} (m : M A) (k : A -> M B) (h : B -> M C) w :
  bind (bind m k) h w = bind m (fun a => bind (k a) h) w.
Proof. unfold bind. by destruct (m w) as [w1 [a|e]]. Qed.

(** The inlined loops of the earlier script are the handlers of the
    class. *)
Lemma extract_all_then_done c p dest gb cb w :
  bind (UnzipFull.extract_all lib c p dest gb cb)
       (fun _ => ret (SuccessfullyExtracted (Path.basename p) gb)) w
  = ArchiveExtractor.extract_with lib c p dest gb cb w.
Proof.
  unfold UnzipFull.extract_all, ArchiveExtractor.extract_with.
  apply bind_assoc_run.
Qed.

Lemma getsize_present p w nd :
  fs w !! p = Some nd -> Os.getsize p w = (w, Return (node_size nd)).
Proof. destruct nd; [apply getsize_file | apply getsize_dir]. Qed.

(** On everything but split archives, the body of its [try] is the one of
    the class. *)
Lemma unzipfull_plain p dest cb w nd :
  fs w !! p = Some nd ->
  ArchiveExtractor.classify p <> SplitZip ->
  UnzipFull.extract_archive lib p dest cb w =
    try_except
      (ArchiveExtractor.dispatch lib p dest (source_gb (fs w) p) cb)
      [BadZipFile; RarError; Bad7zFile]
      (fun e => ret (ErrorExtracting (Path.basename p) (source_gb (fs w) p)
                       (exn_msg e))) w.
Proof.
  intros Hp Hns. unfold UnzipFull.extract_archive.
  rewrite (bind_return _ _ _ _ _ (getsize_present _ _ _ Hp)).
  replace (size_gb (node_size nd)) with (source_gb (fs w) p)
    by (unfold source_gb; by rewrite Hp).
  set (gb := source_gb (fs w) p).
  unfold try_except.
  match goal with |- (let (_, _) := ?body w in _) = _ =>
    assert (Hbody : body w = ArchiveExtractor.dispatch lib p dest gb cb w)
  end.
  { unfold ArchiveExtractor.dispatch, ArchiveExtractor.classify in *.
    unfold ArchiveExtractor._extract_zip, ArchiveExtractor._extract_rar,
      ArchiveExtractor._extract_7z.
    destruct (Str.endswith (Str.lower p) ".zip"); [apply extract_all_then_done |].
    destruct (Str.endswith (Str.lower p) ".rar"); [apply extract_all_then_done |].
    destruct (Str.endswith (Str.lower p) ".7z"); [apply extract_all_then_done |].
    by destruct (Str.contains ".zip." (Str.lower p)). }
  by rewrite Hbody.
Qed.

End OlderScript.

(** X9.  The earlier script [unzipfull.py] checks nothing before it asks for
    the size of the source: with a missing source its [extract_archive]
    raises [OSError] at once and changes nothing, instead of returning the
    "file not found" text.  Whatever the input, an exception that leaves it is
    of class [OSError] or of a class that no handler names: the three library
    classes are the only ones it catches. *)
Theorem older_script_lets_os_errors_out
    (lib : codec) (w : world) (p dest : string) (cb : option callback) :
  let run := UnzipFull.extract_archive lib p dest cb w in
  (forall e, run.2 = Raise e -> exn_cls e = OSError \/ exn_cls e = OtherError) /\
  (fs w !! p = None ->
   exists msg, run = (w, Raise (Exn OSError msg))) /\
  (is_dir (fs w) p -> ArchiveExtractor.classify p <> SplitZip ->
   ArchiveExtractor.classify p <> Unsupported ->
   exists msg, run = (w, Raise (Exn OSError msg))).
Proof.
  intros run. split; [|split].
  - intros e He. subst run.
    destruct (UnzipFull.extract_archive lib p dest cb w) as [w' r] eqn:H.
    simpl in He. subst r. by eapply unzipfull_raise_classes.
  - intros Hp. eexists. by apply unzipfull_missing_source.
  - intros [n Hd] Hns Hnu. subst run. unfold UnzipFull.extract_archive.
    rewrite (bind_return _ _ _ _ _ (getsize_present _ _ _ Hd)).
    exists "Is a directory".
    assert (Hread : forall c gb,
      bind (UnzipFull.extract_all lib c p dest gb cb)
        (fun _ => ret (SuccessfullyExtracted (Path.basename p) gb)) w
      = (w, Raise (Exn OSError "Is a directory"))).
    { intros c gb. unfold UnzipFull.extract_all, ArchiveExtractor.open_archive.
      unfold bind at 1 2 3. unfold Os.read, bind, get_fs. by rewrite Hd. }
    apply try_except_passed; [|by apply (bool_decide_unpack _)].
    unfold ArchiveExtractor.classify in Hns, Hnu.
    destruct (Str.endswith (Str.lower p) ".zip"); [apply Hread |].
    destruct (Str.endswith (Str.lower p) ".rar"); [apply Hread |].
    destruct (Str.endswith (Str.lower p) ".7z"); [apply Hread |].
    by destruct (Str.contains ".zip." (Str.lower p)).
Qed.

(** X10.  On everything but split archives the class behaves as the earlier
    script did, except that it reports an [OSError] raised during the
    extraction instead of letting it out.  For a source that exists and is not
    handled as a split ZIP: when the earlier script returns, or raises an
    exception of another class, the class does the same, with the same file
    system and the same events; when the earlier script raises an [OSError],
    the class ends in the same state with the "error extracting" outcome that
    carries the text of that error. *)
Theorem class_agrees_with_older_script
    (lib : codec) (w : world) (p dest : string) (cb : option callback) :
  is_Some (fs w !! p) ->
  ArchiveExtractor.classify p <> SplitZip ->
  let old := UnzipFull.extract_archive lib p dest cb w in
  let new := ArchiveExtractor.extract_archive lib p dest cb w in
  match old.2 with
  | Return _ => new = old
  | Raise e =>
      if bool_decide (exn_cls e = OSError)
      then new = (old.1, Return (ErrorExtracting (Path.basename p)
                                   (source_gb (fs w) p) (exn_msg e)))
      else new = old
  end.
Proof.
  intros [nd Hp] Hns old new. subst old new.
  rewrite extract_archive_present by (by rewrite Hp).
  rewrite (unzipfull_plain lib _ _ _ _ _ Hp Hns).
  unfold try_except.
  destruct (ArchiveExtractor.dispatch lib p dest _ cb w) as [w1 [o|e]]; [done |].
  destruct e as [[] msg]; reflexivity.
Qed.

Lemma class_agrees_with_older_script_witness :
  ArchiveExtractor.extract_archive demo_lib "/in/a.zip" "/out" (Some quiet) w0
  = UnzipFull.extract_archive demo_lib "/in/a.zip" "/out" (Some quiet) w0.
Proof.
  apply (class_agrees_with_older_script demo_lib w0 "/in/a.zip" "/out" (Some quiet)).
  - by eexists.
  - discriminate.
Defined.

(** ** The window: progress bar *)

Section ProgressBar.

Context (lib : codec).

Lemma bind_ext {A B} (m m' : M A) (k k' : A -> M B) w :
  m w = m' w -> (forall a w1, k a w1 = k' a w1) -> bind m k w = bind m' k' w.
Proof.
  intros Hm Hk. unfold bind. rewrite Hm.
  destruct (m' w) as [w1 [a|e]]; [apply Hk | done].
Qed.

Lemma try_except_ext {A} (m m' : M A) classes h w :
  m w = m' w -> try_except m classes h w = try_except m' classes h w.
Proof. intros Hm. unfold try_except. by rewrite Hm. Qed.

(** With a total other than 0, [update_progress] returns normally. *)
Lemma progress_callback_pos g current total gb :
  total <> 0 -> ExtractionGUI.progress_callback g current total gb = None.
Proof. by destruct total. Qed.

Lemma extract_entries_pos g dest gb total file_list :
  total <> 0 ->
  forall i w,
    ArchiveExtractor.extract_entries dest gb
      (Some (ExtractionGUI.progress_callback g)) total i file_list w
    = ArchiveExtractor.extract_entries dest gb (Some quiet) total i file_list w.
Proof.
  intros Htotal. induction file_list as [|e rest IH]; intros i w; [done |].
  cbn [ArchiveExtractor.extract_entries].
  apply bind_ext; [done | intros _ w1].
  apply bind_ext; [|intros _ w2; apply IH].
  cbn [ArchiveExtractor.notify]. by rewrite progress_callback_pos.
Qed.

Lemma extract_with_pos g c path dest gb w :
  ArchiveExtractor.extract_with lib c path dest gb
    (Some (ExtractionGUI.progress_callback g)) w
  = ArchiveExtractor.extract_with lib c path dest gb (Some quiet) w.
Proof.
  unfold ArchiveExtractor.extract_with.
  apply bind_ext; [done | intros file_list w1].
  apply bind_ext; [|done].
  destruct file_list as [|e rest]; [done |]. by apply extract_entries_pos.
Qed.

Lemma dispatch_pos g p dest gb w :
  ArchiveExtractor.dispatch lib p dest gb
    (Some (ExtractionGUI.progress_callback g)) w
  = ArchiveExtractor.dispatch lib p dest gb (Some quiet) w.
Proof.
  unfold ArchiveExtractor.dispatch, ArchiveExtractor._extract_zip,
    ArchiveExtractor._extract_rar, ArchiveExtractor._extract_7z.
  destruct (ArchiveExtractor.classify p); [apply extract_with_pos .. | | done].
  unfold ArchiveExtractor._extract_split_zip.
  apply bind_ext; [done | intros [merged_path|] w1; [|done]].
  destruct (String.eqb merged_path ""); [done |].
  apply try_except_ext. unfold ArchiveExtractor.extract_and_remove.
  apply bind_ext; [apply extract_with_pos | done].
Qed.

Lemma extract_archive_pos g p dest w :
  ArchiveExtractor.extract_archive lib p dest
    (Some (ExtractionGUI.progress_callback g)) w
  = ArchiveExtractor.extract_archive lib p dest (Some quiet) w.
Proof.
  unfold ArchiveExtractor.extract_archive.
  apply bind_ext; [done | intros there w1].
  destruct (negb there); [done |].
  apply bind_ext; [done | intros n w2].
  apply try_except_ext, dispatch_pos.
Qed.

(** The progress calls of a run of [extract_archive] count up. *)
Lemma extract_archive_counts p dest cb w w' r :
  ArchiveExtractor.extract_archive lib p dest cb w = (w', r) ->
  exists evs K j,
    trace w' = trace w ++ evs /\ counts_up (source_gb (fs w) p) K j evs.
Proof.
  intros H. destruct (fs w !! p) as [nd|] eqn:Hp.
  - rewrite extract_archive_present in H by (by rewrite Hp).
    eapply progresses_try_except; [apply progresses_dispatch | | exact H].
    intros e. apply emits_only_ret.
  - rewrite extract_archive_missing in H by done. injection H as <- _.
    exists [], 0, 0. by rewrite app_nil_r.
Qed.

Lemma progress_calls_elem i total gb evs :
  EvProgress i total gb ∈ evs -> (i, total, gb) ∈ progress_calls evs.
Proof.
  intros H. unfold progress_calls. apply list_elem_of_omap.
  by exists (EvProgress i total gb).
Qed.

Lemma counts_up_in_range gb K j evs : counts_up gb K j evs -> Forall in_range evs.
Proof.
  intros [Hle Hc]. apply Forall_forall. intros [t|i total g|t] Hin; [done | | done].
  apply progress_calls_elem in Hin. rewrite Hc in Hin.
  apply list_elem_of_fmap in Hin as (k & [= -> -> ->] & Hk).
  apply elem_of_seq in Hk. simpl. lia.
Qed.

Lemma new_events_app w w' evs :
  trace w' = trace w ++ evs -> ExtractionGUI.new_events w w' = evs.
Proof.
  intros H. unfold ExtractionGUI.new_events. by rewrite H, drop_app_length.
Qed.

(** Replaying calls that are in range keeps the bar within its maximum. *)
Lemma replay_within evs :
  Forall in_range evs ->
  forall g,
    ExtractionGUI.progress_value g <= ExtractionGUI.progress_maximum g ->
    ExtractionGUI.progress_value (ExtractionGUI.replay evs g)
      <= ExtractionGUI.progress_maximum (ExtractionGUI.replay evs g).
Proof.
  unfold ExtractionGUI.replay.
  induction 1 as [|ev evs Hev _ IH]; intros g Hg; [done |].
  cbn [foldl]. apply IH. destruct ev as [t|i total gb|t]; [done | | done].
  simpl in Hev. unfold ExtractionGUI.update_progress.
  destruct total; simpl; lia.
Qed.

End ProgressBar.

(** X11.  [update_progress] is only ever called by the engine with
    [1 <= current <= total]: its division [current / total] never fails, so
    that a run of [extract_archive] with it is the run with a callback that
    does nothing, and the value it gives the progress bar never exceeds the
    maximum it gives it. *)
Theorem update_progress_stays_in_range
    (lib : codec) (g : ExtractionGUI.gui) (w : world) (p dest : string) :
  let run := ArchiveExtractor.extract_archive lib p dest
               (Some (ExtractionGUI.progress_callback g)) w in
  let calls := ExtractionGUI.new_events w run.1 in
  run = ArchiveExtractor.extract_archive lib p dest (Some quiet) w /\
  Forall in_range calls /\
  (ExtractionGUI.progress_value g <= ExtractionGUI.progress_maximum g ->
   ExtractionGUI.progress_value (ExtractionGUI.replay calls g)
     <= ExtractionGUI.progress_maximum (ExtractionGUI.replay calls g)).
Proof.
  intros run calls.
  assert (Hrange : Forall in_range calls).
  { subst calls. destruct run as [w' r] eqn:Hrun.
    destruct (extract_archive_counts lib _ _ _ _ _ _ Hrun)
      as (evs & K & j & Htr & Hc).
    simpl. rewrite (new_events_app _ _ _ Htr). by eapply counts_up_in_range. }
  split; [apply extract_archive_pos |]. split; [done |].
  by apply replay_within.
Qed.

(** ** The window: the worker *)

Section Worker.

Context (lib : codec).

Local Abbreviation frame g g' :=
  (ExtractionGUI.results_text g' = ExtractionGUI.results_text g /\
   ExtractionGUI.windows g' = ExtractionGUI.windows g /\
   ExtractionGUI.total_files (ExtractionGUI.status g')
     = ExtractionGUI.total_files (ExtractionGUI.status g) /\
   ExtractionGUI.total_size_gb (ExtractionGUI.status g')
     = ExtractionGUI.total_size_gb (ExtractionGUI.status g)).

(** [update_progress] touches the bar and the label only. *)
Lemma replay_frame evs : forall g, frame g (ExtractionGUI.replay evs g).
Proof.
  unfold ExtractionGUI.replay.
  induction evs as [|ev evs IH]; intros g; [done |].
  cbn [foldl].
  destruct (IH (match ev with
                | EvProgress current total file_size_gb =>
                    (ExtractionGUI.update_progress current total file_size_gb g).1
                | _ => g
                end)) as (-> & -> & -> & ->).
  destruct ev as [t|i total gb|t]; [done | | done].
  unfold ExtractionGUI.update_progress. by destruct total.
Qed.

(** An exception that leaves [extract_archive] is of no class that a handler
    names. *)
Lemma extract_archive_raise_other p dest cb w w' e :
  ArchiveExtractor.extract_archive lib p dest cb w = (w', Raise e) ->
  exn_cls e = OtherError.
Proof.
  intros H. destruct (fs w !! p) as [nd|] eqn:Hp;
    [|by rewrite extract_archive_missing in H].
  rewrite extract_archive_present in H by (by rewrite Hp).
  apply try_except_inv in H
    as [(o & _ & [=]) | [(w1 & e' & _ & _ & [=]) | (e' & _ & Hnin & [= <-])]].
  by destruct (listed_or_other (exn_cls e)).
Qed.

(** The loop: one result line for each file handled, nothing else added to
    the results, no window opened; it stops early only with an exception of
    an unnamed class. *)
Lemma extract_each_lines destination files :
  forall idx g w g' w' r,
    ExtractionGUI.extract_each lib idx files destination g w = (g', w', r) ->
    exists outcomes,
      ExtractionGUI.results_text g'
        = ExtractionGUI.results_text g ++ (ExtractionGUI.ResultLine <$> outcomes) /\
      ExtractionGUI.windows g' = ExtractionGUI.windows g /\
      ExtractionGUI.total_files (ExtractionGUI.status g')
        = ExtractionGUI.total_files (ExtractionGUI.status g) /\
      ExtractionGUI.total_size_gb (ExtractionGUI.status g')
        = ExtractionGUI.total_size_gb (ExtractionGUI.status g) /\
      match r with
      | Return _ => length outcomes = length files
      | Raise e => exn_cls e = OtherError /\ length outcomes < length files
      end.
Proof.
  induction files as [|file_path rest IH]; intros idx g w g' w' r H.
  - injection H as <- _ <-. exists []. by rewrite app_nil_r.
  - cbn [ExtractionGUI.extract_each] in H.
    destruct (ArchiveExtractor.extract_archive lib file_path destination _ w)
      as [w1 [result|e]] eqn:Hrun.
    + apply IH in H as (outcomes & Hres & Hwin & Htf & Hts & Hr).
      destruct (replay_frame (ExtractionGUI.new_events w w1)
                  (ExtractionGUI.set_current_file_index idx g))
        as (Hres1 & Hwin1 & Htf1 & Hts1).
      exists (result :: outcomes).
      split; [|split; [|split; [|split]]].
      * rewrite Hres. simpl. rewrite Hres1. simpl. by rewrite <- app_assoc.
      * rewrite Hwin. simpl. by rewrite Hwin1.
      * rewrite Htf. simpl. by rewrite Htf1.
      * rewrite Hts. simpl. by rewrite Hts1.
      * destruct r as [[]|e]; simpl; [lia |]. destruct Hr. split; [done | lia].
    + injection H as <- _ <-.
      destruct (replay_frame (ExtractionGUI.new_events w w1)
                  (ExtractionGUI.set_current_file_index idx g))
        as (Hres1 & Hwin1 & Htf1 & Hts1).
      exists []. rewrite app_nil_r.
      split; [by rewrite Hres1 |]. split; [by rewrite Hwin1 |].
      split; [by rewrite Htf1 |]. split; [by rewrite Hts1 |].
      split; [by eapply extract_archive_raise_other | simpl; lia].
Qed.

End Worker.

(** X12.  The handler of [extract_files] is never entered: the engine has
    already turned every error of the classes it names into a result line.
    Either every file gets one result line, in order, the label reads
    "Extraction completed" with the totals computed at the start and the
    countdown window opens; or an exception of an unnamed class leaves
    [extract_files], after a result line for each file handled so far, with no
    error line, no change of the label to an error and no window.  In both
    cases the [finally] puts the progress bar back to 0. *)
Theorem extract_files_reports_each_file
    (lib : codec) (files : list string) (destination : string)
    (g : ExtractionGUI.gui) (w : world) :
  let run := ExtractionGUI.extract_files lib files destination g w in
  let g' := run.1.1 in
  ExtractionGUI.progress_value g' = 0 /\
  exists outcomes,
    ExtractionGUI.results_text g'
      = ExtractionGUI.results_text g ++ (ExtractionGUI.ResultLine <$> outcomes) /\
    match run.2 with
    | Return _ =>
        length outcomes = length files /\
        ExtractionGUI.status_label g'
          = ExtractionGUI.ExtractionCompleted
              (ExtractionGUI.total_files (ExtractionGUI.status g))
              (ExtractionGUI.total_size_gb (ExtractionGUI.status g)) /\
        ExtractionGUI.windows g'
          = ExtractionGUI.windows g ++
            [ExtractionGUI.CountdownWindow
               "✅ Extraction completed. Window will close automatically." 60]
    | Raise e =>
        exn_cls e = OtherError /\
        length outcomes < length files /\
        ExtractionGUI.windows g' = ExtractionGUI.windows g
    end.
Proof.
  intros run g'. subst g' run. unfold ExtractionGUI.extract_files.
  destruct (ExtractionGUI.extract_each lib 1 files destination g w)
    as [[g1 w1] r] eqn:Hloop.
  apply extract_each_lines in Hloop as (outcomes & Hres & Hwin & Htf & Hts & Hr).
  destruct r as [[]|e].
  - split; [done |]. exists outcomes. simpl.
    split; [done |]. split; [done |]. split; [by rewrite Htf, Hts |].
    by rewrite Hwin.
  - destruct Hr as [Hcls Hlen]. rewrite bool_decide_eq_false_2.
    + split; [done |]. by exists outcomes.
    + rewrite Hcls. by apply (bool_decide_unpack _).
Qed.

(** ** The window: starting the extraction *)

Section Start.

Lemma getsize_inv p w w' r :
  Os.getsize p w = (w', r) ->
  w' = w /\
  match r with
  | Return _ => is_Some (fs w !! p)
  | Raise e => exn_cls e = OSError /\ fs w !! p = None
  end.
Proof.
  unfold Os.getsize, bind, get_fs. simpl.
  destruct (fs w !! p) as [[data|n]|]; intros [= <- <-]; by split.
Qed.

(** Summing the sizes reads the file system only; it fails exactly when one
    of the files is missing. *)
Lemma sum_sizes_run files :
  forall acc w w' r,
    ExtractionGUI.sum_sizes acc files w = (w', r) ->
    w' = w /\
    match r with
    | Return _ => Forall (fun f => is_Some (fs w !! f)) files
    | Raise e => exn_cls e = OSError /\ Exists (fun f => fs w !! f = None) files
    end.
Proof.
  induction files as [|file rest IH]; intros acc w w' r H.
  - injection H as <- <-. by split.
  - cbn [ExtractionGUI.sum_sizes] in H.
    apply bind_inv in H as [(w1 & n & Hsize & H) | (e & Hsize & ->)].
    + apply getsize_inv in Hsize as [-> Hthere].
      apply IH in H as [-> Hr]. split; [done |].
      destruct r as [total|e]; [by constructor |].
      destruct Hr as [Hcls Hex]. split; [done | by apply Exists_cons_tl].
    + apply getsize_inv in Hsize as [-> [Hcls Hmissing]].
      split; [done |]. split; [done | by apply Exists_cons_hd].
Qed.

Lemma missing_not_all_present (f : gmap string node) files :
  Exists (fun p => f !! p = None) files ->
  Forall (fun p => is_Some (f !! p)) files -> False.
Proof.
  intros (p & Hin & Hnone)%Exists_exists Hall.
  rewrite Forall_forall in Hall. specialize (Hall p Hin).
  rewrite Hnone in Hall. by destruct Hall.
Qed.

End Start.

(** X13.  [start_extraction] starts the worker exactly when a destination is
    set, the list box is not empty and every listed file exists; it leaves the
    file system alone.  When the worker is started it gets the listed files
    and the destination, the results area has been cleared and the number of
    files recorded.  When a listed file is missing, [os.path.getsize] raises
    [OSError] out of [start_extraction] in the middle of the update: the
    number of files has been overwritten, the total size and the old results
    have not, and no window tells the user. *)
Theorem start_extraction_starts_worker (g : ExtractionGUI.gui) (w : world) :
  let run := ExtractionGUI.start_extraction g w in
  let g' := run.1.1 in
  let files := ExtractionGUI.file_listbox g in
  let destination := ExtractionGUI.destination_var g in
  run.1.2 = w /\
  ((exists job, run.2 = Return (Some job)) <->
   destination <> "" /\ files <> [] /\
   Forall (fun f => is_Some (fs w !! f)) files) /\
  (forall job, run.2 = Return (Some job) ->
     job = (files, destination) /\
     ExtractionGUI.results_text g' = [] /\
     ExtractionGUI.total_files (ExtractionGUI.status g') = length files /\
     ExtractionGUI.windows g' = ExtractionGUI.windows g) /\
  (forall e, run.2 = Raise e ->
     exn_cls e = OSError /\
     destination <> "" /\
     Exists (fun f => fs w !! f = None) files /\
     ExtractionGUI.total_files (ExtractionGUI.status g') = length files /\
     ExtractionGUI.total_size_gb (ExtractionGUI.status g')
       = ExtractionGUI.total_size_gb (ExtractionGUI.status g) /\
     ExtractionGUI.results_text g' = ExtractionGUI.results_text g /\
     ExtractionGUI.windows g' = ExtractionGUI.windows g).
Proof.
  intros run g' files destination. subst g' run.
  unfold ExtractionGUI.start_extraction. fold destination files.
  destruct (String.eqb_spec destination "") as [Hd|Hd].
  { split; [done |]. split; [|split; [done | done]].
    split; [by intros [job [=]] | by intros (Hne & _)]. }
  destruct files as [|file rest] eqn:Hfiles.
  { split; [done |]. split; [|split; [done | done]].
    split; [by intros [job [=]] | by intros (_ & Hne & _)]. }
  destruct (ExtractionGUI.sum_sizes _ (file :: rest) w) as [w1 [total|e]] eqn:Hsum;
    apply sum_sizes_run in Hsum as [-> Hr]; simpl.
  - split; [done |]. split; [|split; [|done]].
    + split; [done | by eexists].
    + by intros job [= <-].
  - destruct Hr as [Hcls Hex]. split; [done |]. split; [|split; [done |]].
    + split; [by intros [job [=]] |].
      intros (_ & _ & Hall). by destruct (missing_not_all_present _ _ Hex Hall).
    + by intros e' [= <-].
Qed.

(** ** The window: files that were there at the start *)

Section Found.

Context (lib : codec).

Local Abbreviation merged_of p :=
  (ArchiveExtractor.merged_path_of (Path.dirname p)
     (Str.split_head ".zip." (Path.basename p))).

Lemma extract_archive_keeps p dest cb w w' r q :
  ArchiveExtractor.extract_archive lib p dest cb w = (w', r) ->
  (ArchiveExtractor.classify p = SplitZip -> q <> merged_of p) ->
  is_Some (fs w !! q) -> is_Some (fs w' !! q).
Proof.
  intros H Hq Hin. destruct (fs w !! p) as [nd|] eqn:Hp.
  - rewrite extract_archive_present in H by (by rewrite Hp).
    apply try_except_inv in H
      as [(a & H1 & ->) | [(w1 & e & H1 & _ & [= <- _]) | (e & H1 & _ & ->)]].
    all: by eapply dispatch_keeps.
  - rewrite extract_archive_missing in H by done. by injection H as <- _.
Qed.

(** The handler of a split ZIP never returns the "file not found" text. *)
Lemma extract_split_zip_found p dest gb cb w w' o q :
  ArchiveExtractor._extract_split_zip lib p dest gb cb w = (w', Return o) ->
  o <> FileNotFound q.
Proof.
  unfold ArchiveExtractor._extract_split_zip. intros H.
  apply bind_inv in H as [(w1 & merged & _ & H) | (e' & _ & [=])].
  destruct merged as [merged_path|]; [|by injection H as _ <-].
  destruct (String.eqb merged_path ""); [by injection H as _ <- |].
  apply try_except_inv in H
    as [(a & H & [= <-]) | [(w2 & e & _ & _ & [= _ <-]) | (e & _ & _ & [=])]];
    [|done].
  unfold ArchiveExtractor.extract_and_remove, ArchiveExtractor._extract_zip in H.
  apply bind_inv in H as [(w2 & result & Hx & H) | (e' & _ & [=])].
  apply (extract_with_return lib) in Hx as (data & file_list & _ & _ & _ & ->).
  apply bind_inv in H as [(w3 & there & _ & H) | (e' & _ & [=])].
  by apply bind_inv in H as [(w4 & [] & _ & [= _ <-]) | (e' & _ & [=])].
Qed.

(** A source that exists is never reported as not found. *)
Lemma extract_archive_found p dest cb w w' o q :
  is_Some (fs w !! p) ->
  ArchiveExtractor.extract_archive lib p dest cb w = (w', Return o) ->
  o <> FileNotFound q.
Proof.
  intros Hp H. rewrite extract_archive_present in H by done.
  apply try_except_inv in H
    as [(a & H & [= <-]) | [(w2 & e & _ & _ & [= _ <-]) | (e & _ & _ & [=])]];
    [|done].
  unfold ArchiveExtractor.dispatch, ArchiveExtractor._extract_zip,
    ArchiveExtractor._extract_rar, ArchiveExtractor._extract_7z in H.
  destruct (ArchiveExtractor.classify p).
  - by apply (extract_with_return lib) in H as (? & ? & _ & _ & _ & ->).
  - by apply (extract_with_return lib) in H as (? & ? & _ & _ & _ & ->).
  - by apply (extract_with_return lib) in H as (? & ? & _ & _ & _ & ->).
  - by eapply extract_split_zip_found.
  - by injection H as _ <-.
Qed.

Lemma extract_each_found destination files :
  forall idx g w g' w' r,
    ExtractionGUI.extract_each lib idx files destination g w = (g', w', r) ->
    Forall (fun q => is_Some (fs w !! q)) files ->
    (forall p q, p ∈ files -> q ∈ files ->
       ArchiveExtractor.classify p = SplitZip -> q <> merged_of p) ->
    Forall found_line (ExtractionGUI.results_text g) ->
    Forall found_line (ExtractionGUI.results_text g').
Proof.
  induction files as [|file_path rest IH]; intros idx g w g' w' r H Hall Hsep Hg.
  - by injection H as <- _ _.
  - cbn [ExtractionGUI.extract_each] in H.
    apply Forall_cons in Hall as [Hthere Hrest].
    destruct (replay_frame (ExtractionGUI.new_events w
                (ArchiveExtractor.extract_archive lib file_path destination
                   (Some (ExtractionGUI.progress_callback
                            (ExtractionGUI.set_current_file_index idx g))) w).1)
                (ExtractionGUI.set_current_file_index idx g))
      as (Hres1 & _).
    destruct (ArchiveExtractor.extract_archive lib file_path destination _ w)
      as [w1 [result|e]] eqn:Hrun; simpl in Hres1.
    + eapply IH; [exact H | | |].
      * rewrite Forall_forall in Hrest |- *. intros q Hq.
        eapply extract_archive_keeps; [exact Hrun | | by apply Hrest].
        apply Hsep; [left | by right].
      * intros p q Hp Hq. apply Hsep; by right.
      * simpl. rewrite Hres1. apply Forall_app. split; [done |].
        apply Forall_singleton.
        destruct result; try done.
        by eapply extract_archive_found in Hrun.
    + injection H as <- _ _. by rewrite Hres1.
Qed.

End Found.

(** X14.  A file that [start_extraction] accepted is never reported as "File
    not found" by the worker that it starts, as long as no listed path is the
    merged file [{base}_merged.zip] of a listed split archive (which the
    engine deletes): every listed file exists when the worker starts, and no
    extraction deletes a source. *)
Theorem accepted_files_are_found
    (lib : codec) (g g1 : ExtractionGUI.gui) (w w1 : world)
    (files : list string) (destination : string) :
  ExtractionGUI.start_extraction g w = (g1, w1, Return (Some (files, destination))) ->
  (forall p q, p ∈ files -> q ∈ files ->
     ArchiveExtractor.classify p = SplitZip ->
     q <> Path.join (Path.dirname p)
            (Str.split_head ".zip." (Path.basename p) +:+ "_merged.zip")) ->
  Forall found_line
    (ExtractionGUI.results_text
       (ExtractionGUI.extract_files lib files destination g1 w1).1.1).
Proof.
  intros Hstart Hsep.
  assert (Hready : w1 = w /\ Forall (fun f => is_Some (fs w !! f)) files /\
                   ExtractionGUI.results_text g1 = []).
  { unfold ExtractionGUI.start_extraction in Hstart.
    destruct (String.eqb _ ""); [done |].
    destruct (ExtractionGUI.file_listbox g) as [|file rest]; [done |].
    destruct (ExtractionGUI.sum_sizes _ (file :: rest) w) as [w2 [total|e]] eqn:Hsum;
      [|done].
    apply sum_sizes_run in Hsum as [-> Hall].
    by injection Hstart as <- <- <- _. }
  destruct Hready as (-> & Hall & Hclear).
  unfold ExtractionGUI.extract_files.
  destruct (ExtractionGUI.extract_each lib 1 files destination g1 w)
    as [[g2 w2] r] eqn:Hloop.
  assert (Hfound : Forall found_line (ExtractionGUI.results_text g2)).
  { eapply extract_each_found; [exact Hloop | done | exact Hsep |].
    by rewrite Hclear. }
  destruct r as [[]|e]; simpl; [done |].
  case_bool_decide; simpl; [|done].
  apply Forall_app. split; [done | by apply Forall_singleton].
Qed.

Lemma accepted_files_are_found_witness :
  Forall found_line
    (ExtractionGUI.results_text
       (ExtractionGUI.extract_files demo_lib ["/in/a.zip"; "/in/b.zip.001"] "/out"
          (ExtractionGUI.start_extraction g_ready w0).1.1 w0).1.1).
Proof.
  apply (accepted_files_are_found demo_lib g_ready _ w0 w0
           ["/in/a.zip"; "/in/b.zip.001"] "/out").
  - reflexivity.
  - intros p q Hp Hq Hsplit.
    apply elem_of_cons in Hp as [-> | Hp]; [discriminate |].
    apply list_elem_of_singleton in Hp as ->.
    apply elem_of_cons in Hq as [-> | Hq]; [discriminate |].
    apply list_elem_of_singleton in Hq as ->. discriminate.
Defined.

(** The proviso of X14 is needed: when the merged file of a listed split
    archive is itself listed after it, it is gone when its turn comes. *)
Example merged_file_listed_after_its_segments :
  let w := World (<["/in/b_merged.zip" := File (bytes "Pq")]> (fs w0)) [] in
  let g := ExtractionGUI.select_destination "/out"
             (ExtractionGUI.select_files ["/in/b.zip.001"; "/in/b_merged.zip"]
                ExtractionGUI.setup_gui) in
  (ExtractionGUI.start_extraction g w).2
    = Return (Some (["/in/b.zip.001"; "/in/b_merged.zip"], "/out")) /\
  ExtractionGUI.results_text
    (ExtractionGUI.extract_files demo_lib ["/in/b.zip.001"; "/in/b_merged.zip"]
       "/out" (ExtractionGUI.start_extraction g w).1.1 w).1.1
  = [ExtractionGUI.ResultLine (SuccessfullyExtracted "b_merged.zip" (size_gb 2));
     ExtractionGUI.ResultLine (FileNotFound "/in/b_merged.zip")].
Proof. split; reflexivity. Qed.

(** ** The earlier script: what it returns *)

Section OlderOutcomes.

Context (lib : codec).

Lemma juntar_partes_zip_some folder base w w' unido_path :
  UnzipFull.juntar_partes_zip folder base w = (w', Return (Some unido_path)) ->
  unido_path = UnzipFull.unido_path_of folder base.
Proof.
  unfold UnzipFull.juntar_partes_zip. intros H.
  apply bind_inv in H as [(w1 & partes & _ & H) | (e' & _ & [=])].
  destruct partes as [|parte rest]; [done |].
  apply bind_inv in H as [(w2 & [] & _ & H) | (e' & _ & [=])].
  by apply bind_inv in H as [(w3 & [] & _ & [= _ <-]) | (e' & _ & [=])].
Qed.

(** With segment 1 in place and a directory where the merged file should
    go, the joiner of the earlier script raises. *)
Lemma juntar_partes_zip_dir folder base w n :
  is_Some (fs w !! ArchiveExtractor.part_path folder base 1) ->
  fs w !! UnzipFull.unido_path_of folder base = Some (Dir n) ->
  UnzipFull.juntar_partes_zip folder base w
  = (w, Raise (Exn OSError "Is a directory")).
Proof.
  intros Hfirst Hdir. unfold UnzipFull.juntar_partes_zip.
  destruct w as [f tr].
  destruct (find_parts_run f folder base tr) as (k & Hrun & Hfind).
  rewrite (bind_return _ _ _ _ _ Hfind).
  pose proof (leading_run_pos _ _ _ _ Hfirst Hrun) as Hk.
  destruct k as [|k]; [lia |]. cbn [seq fmap list_fmap].
  by rewrite (bind_raise _ _ _ _ _ (open_wb_dir _ _ _ Hdir)).
Qed.

End OlderOutcomes.

(** X15.  What the earlier script returns.  A text comes back only for a
    source that exists, and it carries the size of that source.  The success
    text always names the selected path's base name (for a split archive the
    segment, not the merged file), and then the merged file [{base}_unido.zip]
    of a split archive is gone; "parts not found" carries the whole path and
    "format not supported" the base name; the texts "file not found" and
    "error extracting parts" are never returned. *)
Theorem older_script_outcomes
    (lib : codec) (w w' : world) (p dest : string) (cb : option callback)
    (o : outcome) :
  UnzipFull.extract_archive lib p dest cb w = (w', Return o) ->
  is_Some (fs w !! p) /\
  match o with
  | SuccessfullyExtracted name gb =>
      name = Path.basename p /\ gb = source_gb (fs w) p /\
      ArchiveExtractor.classify p <> Unsupported /\
      (ArchiveExtractor.classify p = SplitZip ->
       fs w' !! UnzipFull.unido_path_of (Path.dirname p)
                  (Str.split_head ".zip." (Path.basename p)) = None)
  | PartsNotFound name gb =>
      name = p /\ gb = source_gb (fs w) p /\
      ArchiveExtractor.classify p = SplitZip
  | FormatNotSupported name gb =>
      name = Path.basename p /\ gb = source_gb (fs w) p /\
      ArchiveExtractor.classify p = Unsupported /\ w' = w
  | ErrorExtracting name gb _ =>
      name = Path.basename p /\ gb = source_gb (fs w) p
  | FileNotFound _ | ErrorExtractingParts _ => False
  end.
Proof.
  unfold UnzipFull.extract_archive. intros H.
  apply bind_inv in H as [(w1 & n & Hsize & H) | (e' & _ & [=])].
  pose proof (getsize_inv _ _ _ _ Hsize) as [-> [nd Hp]].
  rewrite (getsize_present _ _ _ Hp) in Hsize. injection Hsize as <-.
  replace (size_gb (node_size nd)) with (source_gb (fs w) p) in H
    by (unfold source_gb; by rewrite Hp).
  split; [by eexists |].
  apply try_except_inv in H
    as [(a & H & [= <-]) | [(w2 & e & _ & _ & [= _ <-]) | (e & _ & _ & [=])]];
    [|done].
  unfold ArchiveExtractor.classify.
  destruct (Str.endswith (Str.lower p) ".zip").
  { by apply bind_inv in H as [(w2 & [] & _ & [= _ <-]) | (e' & _ & [=])]. }
  destruct (Str.endswith (Str.lower p) ".rar").
  { by apply bind_inv in H as [(w2 & [] & _ & [= _ <-]) | (e' & _ & [=])]. }
  destruct (Str.endswith (Str.lower p) ".7z").
  { by apply bind_inv in H as [(w2 & [] & _ & [= _ <-]) | (e' & _ & [=])]. }
  destruct (Str.contains ".zip." (Str.lower p)); [|by injection H as <- <-].
  apply bind_inv in H as [(w2 & unido & Hjoin & H) | (e' & _ & [=])].
  destruct unido as [unido_path|]; [|by injection H as _ <-].
  rewrite (juntar_partes_zip_some _ _ _ _ _ Hjoin) in H.
  destruct (String.eqb _ ""); [by injection H as _ <- |].
  apply bind_inv in H as [(w3 & [] & _ & H) | (e' & _ & [=])].
  apply bind_inv in H as [(w4 & [] & Hrm & [= <- <-]) | (e' & _ & [=])].
  apply remove_inv in Hrm as [_ Hfs].
  split; [done |]. split; [done |]. split; [done |].
  intros _. by rewrite Hfs, lookup_delete_eq.
Qed.

Lemma older_script_outcomes_witness :
  is_Some (fs w0 !! "/in/b.zip.001") /\
  "b.zip.001" = Path.basename "/in/b.zip.001" /\
  size_gb 2 = source_gb (fs w0) "/in/b.zip.001" /\
  ArchiveExtractor.classify "/in/b.zip.001" <> Unsupported /\
  (ArchiveExtractor.classify "/in/b.zip.001" = SplitZip ->
   fs (UnzipFull.extract_archive demo_lib "/in/b.zip.001" "/out" None w0).1
     !! UnzipFull.unido_path_of (Path.dirname "/in/b.zip.001")
          (Str.split_head ".zip." (Path.basename "/in/b.zip.001")) = None).
Proof.
  apply (older_script_outcomes demo_lib w0
           (UnzipFull.extract_archive demo_lib "/in/b.zip.001" "/out" None w0).1
           "/in/b.zip.001" "/out" None
           (SuccessfullyExtracted "b.zip.001" (size_gb 2))).
  reflexivity.
Defined.

(** X16.  The joiner of the earlier script has no handler, and neither has
    its caller for [OSError]: when the first segment of a split archive exists
    and the merged file [{base}_unido.zip] cannot be created (its path is a
    directory), the error leaves [juntar_partes_zip] and then
    [extract_archive], and nothing has changed.  (In the same situation the
    class prints the error and reports that the parts were not found.) *)
Theorem older_joiner_lets_io_errors_out
    (lib : codec) (w : world) (p dest : string) (cb : option callback) :
  let folder := Path.dirname p in
  let base := Str.split_head ".zip." (Path.basename p) in
  is_Some (fs w !! p) ->
  ArchiveExtractor.classify p = SplitZip ->
  is_Some (fs w !! ArchiveExtractor.part_path folder base 1) ->
  is_dir (fs w) (UnzipFull.unido_path_of folder base) ->
  UnzipFull.juntar_partes_zip folder base w
    = (w, Raise (Exn OSError "Is a directory")) /\
  UnzipFull.extract_archive lib p dest cb w
    = (w, Raise (Exn OSError "Is a directory")).
Proof.
  intros folder base [nd Hp] Hsplit Hfirst [n Hdir].
  pose proof (juntar_partes_zip_dir _ _ _ _ Hfirst Hdir) as Hjoin.
  split; [done |].
  unfold UnzipFull.extract_archive.
  rewrite (bind_return _ _ _ _ _ (getsize_present _ _ _ Hp)).
  apply try_except_passed; [|by apply (bool_decide_unpack _)].
  unfold ArchiveExtractor.classify in Hsplit.
  destruct (Str.endswith (Str.lower p) ".zip"); [done |].
  destruct (Str.endswith (Str.lower p) ".rar"); [done |].
  destruct (Str.endswith (Str.lower p) ".7z"); [done |].
  destruct (Str.contains ".zip." (Str.lower p)); [|done].
  by rewrite (bind_raise _ _ _ _ _ Hjoin).
Qed.

Lemma older_joiner_lets_io_errors_out_witness :
  UnzipFull.juntar_partes_zip "/in" "b" w_unido
    = (w_unido, Raise (Exn OSError "Is a directory")) /\
  UnzipFull.extract_archive demo_lib "/in/b.zip.001" "/out" None w_unido
    = (w_unido, Raise (Exn OSError "Is a directory")).
Proof.
  apply (older_joiner_lets_io_errors_out demo_lib w_unido "/in/b.zip.001" "/out"
           None).
  - by eexists.
  - reflexivity.
  - by eexists.
  - by exists 4096.
Defined.

(** ** The two causes of "Parts not found" *)

Section PartsNotFound.

Context (lib : codec).

(** When the joiner returns [None]: either segment 1 is missing and nothing
    happened, or the copy failed and the error was printed. *)
Lemma join_zip_parts_none_inv folder base w w1 :
  ArchiveExtractor.join_zip_parts folder base w = (w1, Return None) ->
  (fs w !! ArchiveExtractor.part_path folder base 1 = None /\ w1 = w) \/
  (is_Some (fs w !! ArchiveExtractor.part_path folder base 1) /\
   exists msg,
     trace w1 = trace w ++ [EvPrint ("Error joining parts: " +:+ msg)]).
Proof.
  intros H. destruct (join_zip_parts_unfold folder base w) as (n & Hrun & Hj).
  rewrite H in Hj. destruct n as [|n].
  - left. injection Hj as ->. split; [apply Hrun | done].
  - right. split; [apply Hrun; lia |]. symmetry in Hj.
    apply try_except_inv in Hj
      as [(a & Hw & [= <-]) | [(w2 & e & Hw & _ & Hh) | (e & _ & _ & [=])]].
    + unfold ArchiveExtractor.write_merged in Hw.
      apply bind_inv in Hw as [(w2 & [] & _ & Hw) | (e' & _ & [=])].
      by apply bind_inv in Hw as [(w3 & [] & _ & [=]) | (e' & _ & [=])].
    + apply write_merged_raises in Hw as [_ Htr].
      apply bind_inv in Hh as [(w3 & [] & [= <-] & [= <-]) | (e' & [=] & _)].
      exists (exn_msg e). simpl. by rewrite Htr.
Qed.

Lemma dispatch_parts_not_found p dest gb cb w w' name g :
  ArchiveExtractor.dispatch lib p dest gb cb w = (w', Return (PartsNotFound name g)) ->
  ArchiveExtractor.classify p = SplitZip /\
  name = Path.basename p /\ g = gb /\
  ArchiveExtractor.join_zip_parts (Path.dirname p)
    (Str.split_head ".zip." (Path.basename p)) w = (w', Return None).
Proof.
  unfold ArchiveExtractor.dispatch, ArchiveExtractor._extract_zip,
    ArchiveExtractor._extract_rar, ArchiveExtractor._extract_7z.
  intros H. destruct (ArchiveExtractor.classify p).
  - by apply (extract_with_return lib) in H as (? & ? & _ & _ & _ & [=]).
  - by apply (extract_with_return lib) in H as (? & ? & _ & _ & _ & [=]).
  - by apply (extract_with_return lib) in H as (? & ? & _ & _ & _ & [=]).
  - unfold ArchiveExtractor._extract_split_zip in H.
    apply bind_inv in H as [(w1 & merged & Hjoin & H) | (e' & _ & [=])].
    destruct merged as [merged_path|]; [|by injection H as <- <- <-].
    rewrite (join_zip_parts_some _ _ _ _ _ Hjoin) in H.
    destruct (String.eqb_spec (ArchiveExtractor.merged_path_of (Path.dirname p)
                (Str.split_head ".zip." (Path.basename p))) "") as [E|_];
      [by apply merged_nonempty in E |].
    apply try_except_inv in H
      as [(a & H & [= <-]) | [(w2 & e & _ & _ & [=]) | (e & _ & _ & [=])]].
    unfold ArchiveExtractor.extract_and_remove, ArchiveExtractor._extract_zip in H.
    apply bind_inv in H as [(w2 & result & Hx & H) | (e' & _ & [=])].
    apply (extract_with_return lib) in Hx as (data & file_list & _ & _ & _ & ->).
    apply bind_inv in H as [(w3 & there & _ & H) | (e' & _ & [=])].
    by apply bind_inv in H as [(w4 & [] & _ & [=]) | (e' & _ & [=])].
  - done.
Qed.

End PartsNotFound.

(** X17.  The text "Parts not found" has two causes and no other.  When
    [extract_archive] returns it, the source is handled as a split ZIP, the
    text carries its base name and size, and either segment 1
    ([{base}.zip.001]) is missing and nothing was changed or reported, or
    segment 1 exists, joining failed with an I/O error, and the only thing
    reported is the line "Error joining parts: ..." that was printed. *)
Theorem parts_not_found_causes
    (lib : codec) (w w' : world) (p dest name : string) (cb : option callback)
    (gb : QArith_base.Q) :
  ArchiveExtractor.extract_archive lib p dest cb w
    = (w', Return (PartsNotFound name gb)) ->
  let first := ArchiveExtractor.part_path (Path.dirname p)
                 (Str.split_head ".zip." (Path.basename p)) 1 in
  ArchiveExtractor.classify p = SplitZip /\
  name = Path.basename p /\ gb = source_gb (fs w) p /\
  ((fs w !! first = None /\ w' = w) \/
   (is_Some (fs w !! first) /\
    exists msg, trace w' = trace w ++ [EvPrint ("Error joining parts: " +:+ msg)])).
Proof.
  intros H first.
  destruct (fs w !! p) as [nd|] eqn:Hp;
    [|by rewrite extract_archive_missing in H].
  rewrite extract_archive_present in H by (by rewrite Hp).
  apply try_except_inv in H
    as [(o & Hd & [= <-]) | [(w1 & e & _ & _ & [=]) | (e & _ & _ & [=])]].
  apply dispatch_parts_not_found in Hd as (Hsplit & -> & -> & Hjoin).
  split; [done |]. split; [done |]. split; [done |].
  by apply join_zip_parts_none_inv.
Qed.

Lemma parts_not_found_causes_witness :
  ArchiveExtractor.classify "/in/b.zip.002" = SplitZip /\
  "b.zip.002" = Path.basename "/in/b.zip.002" /\
  size_gb 1 = source_gb (fs w_gap) "/in/b.zip.002" /\
  ((fs w_gap !! ArchiveExtractor.part_path (Path.dirname "/in/b.zip.002")
                  (Str.split_head ".zip." (Path.basename "/in/b.zip.002")) 1 = None /\
    w_gap = w_gap) \/
   (is_Some (fs w_gap !! ArchiveExtractor.part_path (Path.dirname "/in/b.zip.002")
                  (Str.split_head ".zip." (Path.basename "/in/b.zip.002")) 1) /\
    exists msg,
      trace w_gap = trace w_gap ++ [EvPrint ("Error joining parts: " +:+ msg)])).
Proof.
  apply (parts_not_found_causes demo_lib w_gap w_gap "/in/b.zip.002" "/out"
           "b.zip.002" None (size_gb 1)).
  reflexivity.
Defined.

(** X18.  After a successful extraction of a split ZIP there is no file at
    [{base}_merged.zip]: the temporary file has been removed, and with it any
    file that was at that path before the call and that the joiner
    overwrote. *)
Theorem successful_split_leaves_no_merged_file
    (lib : codec) (w w' : world) (p dest name : string) (cb : option callback)
    (gb : QArith_base.Q) :
  ArchiveExtractor.classify p = SplitZip ->
  ArchiveExtractor.extract_archive lib p dest cb w
    = (w', Return (SuccessfullyExtracted name gb)) ->
  fs w' !! Path.join (Path.dirname p)
             (Str.split_head ".zip." (Path.basename p) +:+ "_merged.zip") = None.
Proof. apply merged_file_removed_on_success. Qed.

Lemma successful_split_leaves_no_merged_file_witness :
  is_file (fs w_taken) "/in/b_merged.zip" /\
  fs (ArchiveExtractor.extract_archive demo_lib "/in/b.zip.001" "/out" None
        w_taken).1
    !! Path.join (Path.dirname "/in/b.zip.001")
         (Str.split_head ".zip." (Path.basename "/in/b.zip.001") +:+ "_merged.zip")
  = None.
Proof.
  split; [by eexists |].
  apply (successful_split_leaves_no_merged_file demo_lib w_taken
           (ArchiveExtractor.extract_archive demo_lib "/in/b.zip.001" "/out" None
              w_taken).1
           "/in/b.zip.001" "/out" "b_merged.zip" None (size_gb 2));
    reflexivity.
Defined.
